(** * libesp8266: the non-blocking ESP8266 AT-command driver

    A shallow embedding of [include/libesp8266/esp8266.hpp]: the three
    serial readers ([read_into_buffer], [command_and_find_response],
    [read_integer]), the response header parser and the transaction state
    machine of [class esp8266], followed by the properties of the driver.

    Conventions.  A byte is a [Z] in [0, 256).  [uint32_t] and [size_t]
    (32 bits on the Cortex-M targets of libembeddedhal, where [PRIu32]
    is the conversion of a [size_t]) are [Z] with the reduction modulo
    2^32 written at every operation that can wrap; [int] is a [Z] brought
    back into [-2^31, 2^31) by [to_int].  A [std::span] is a region (which
    buffer) with an offset and a length, so that a span of the response
    buffer aliases the buffer as in the source.  A [std::string_view] of
    which only the bytes are written is the list of its bytes; the views
    of a request, whose [data()] goes to [snprintf], come with the memory
    behind them.

    Undefined behaviour.  The code checks neither the lengths the module
    announces nor the length of the request text, and where it leaves a
    buffer the C++ standard says nothing of what follows.  The memory
    modelled here ends with the buffers: a read stops there and a write
    beyond is dropped.  The predicates [transition_defined],
    [get_status_defined] and [run_defined] say when the calls stay
    inside, where the definitions are the code; the properties of runs
    and of copies have them as hypotheses. *)

From Stdlib Require Import String Ascii DecimalString.
From Stdlib Require Import ZArith Arith Bool Lia List.
Import ListNotations.
Open Scope Z_scope.

Set Implicit Arguments.

(* ------------------------------------------------------------------ *)
(** ** Machine integers and bytes *)

Definition byte := Z.

Definition wrap32 (z : Z) : Z := z mod 2 ^ 32.

(** [size_t] arithmetic. *)
Definition wrap_size (z : Z) : Z := z mod 2 ^ 32.

Definition INT_MAX : Z := 2 ^ 31 - 1.

(** Conversion of an out-of-range value to [int] (two's complement). *)
Definition to_int (z : Z) : Z := (z + 2 ^ 31) mod 2 ^ 32 - 2 ^ 31.

Definition byte_of_ascii (a : ascii) : byte := Z.of_N (N_of_ascii a).

Definition bytes_of_string (s : string) : list byte :=
  map byte_of_ascii (list_ascii_of_string s).

Definition CR : byte := 13.
Definition LF : byte := 10.
Definition CRLF : list byte := [CR; LF].
Definition DQUOTE : byte := 34.

(** [isdigit] of <cctype> in the C locale. *)
Definition isdigit (b : byte) : bool := (48 <=? b) && (b <=? 57).

(** [isspace] of <cctype> in the C locale. *)
Definition isspace (b : byte) : bool :=
  (b =? 32) || ((9 <=? b) && (b <=? 13)).

Fixpoint bytes_eqb (a b : list byte) : bool :=
  match a, b with
  | [], [] => true
  | x :: a', y :: b' => (x =? y) && bytes_eqb a' b'
  | _, _ => false
  end.

(** [slice l off n]: the [n] elements of [l] from index [off] on.  When
    [l] ends before, the code reads on behind the buffer and what it reads
    is not represented: the result stops where [l] does.  The result is
    what the code reads whenever [off + n] is at most the length of [l],
    and the properties below that speak of a copy assume that bound (see
    [transition_defined]). *)
Definition slice (l : list byte) (off n : Z) : list byte :=
  firstn (Z.to_nat n) (skipn (Z.to_nat off) l).

(** [store buf pos src]: [buf] with [src] written from index [pos] on.  The
    buffer keeps its size: what the code writes past its end lands in
    memory that is not represented (members of the driver behind
    [m_packet], the caller's memory behind the response buffer).  The
    result is what the code leaves in the buffer, and complete, whenever
    [pos] plus the length of [src] is at most the length of [buf]; the
    properties below that depend on a write assume that bound (see
    [span_in_bounds], [get_status_defined]). *)
Fixpoint store_at (buf : list byte) (pos : nat) (src : list byte) : list byte :=
  match buf with
  | [] => []
  | x :: buf' =>
      match pos with
      | S p => x :: store_at buf' p src
      | O => match src with
             | [] => x :: buf'
             | y :: src' => y :: store_at buf' O src'
             end
      end
  end.

Definition store (buf : list byte) (pos : Z) (src : list byte) : list byte :=
  if pos <? 0 then buf else store_at buf (Z.to_nat pos) src.

(* ------------------------------------------------------------------ *)
(** ** The serial port *)

Inductive parity_t := parity_none | parity_odd | parity_even.
Inductive stop_bits_t := stop_one | stop_two.

Record serial_settings := {
  baud_rate : Z;
  frame_size : Z;
  parity : parity_t;
  stop : stop_bits_t
}.

(** Modelled from the spec: [embed::serial] of libembeddedhal, which is not
    part of this repository.  It is the device contract of the
    specification: [write] queues bytes for transmission ([tx] is
    everything written so far) and [busy] becomes false once they are
    out, [bytes_available] is the number of received bytes not yet read
    ([rx]), [read] takes at most as many bytes as the destination holds,
    [initialize] reports whether the port came up.  The specification
    names [flush] without describing it; here it discards the received
    bytes not yet read, as flushing a UART receive FIFO does, and the
    scenarios below only reach it with nothing unread. *)
Record serial := {
  rx : list byte;
  tx : list byte;
  settings : serial_settings;
  init_ok : bool
}.

Definition serial_write (bs : list byte) (s : serial) : serial :=
  {| rx := rx s; tx := tx s ++ bs; settings := settings s; init_ok := init_ok s |}.

Definition serial_flush (s : serial) : serial :=
  {| rx := []; tx := tx s; settings := settings s; init_ok := init_ok s |}.

Definition bytes_available (s : serial) : Z := Z.of_nat (length (rx s)).

(** [serial_read n s]: read into a destination of [n] bytes. *)
Definition serial_read (n : Z) (s : serial) : list byte * serial :=
  (firstn (Z.to_nat n) (rx s),
   {| rx := skipn (Z.to_nat n) (rx s); tx := tx s;
      settings := settings s; init_ok := init_ok s |}).

Definition serial_configure (st : serial_settings) (s : serial) : serial :=
  {| rx := rx s; tx := tx s; settings := st; init_ok := init_ok s |}.

(** The environment: the module sends [bs] to the port. *)
Definition receive (bs : list byte) (s : serial) : serial :=
  {| rx := rx s ++ bs; tx := tx s; settings := settings s; init_ok := init_ok s |}.

(* ------------------------------------------------------------------ *)
(** ** Spans over the driver's memory *)

Inductive region :=
| Literal (bs : list byte)   (* a string literal *)
| Packet                     (* m_packet *)
| Response.                  (* the caller's response buffer *)

Record span := {
  base : region;
  off : Z;
  len : Z
}.

Definition empty_span : span := {| base := Literal []; off := 0; len := 0 |}.

(** [to_bytes("...")] of a literal. *)
Definition to_bytes (bs : list byte) : span :=
  {| base := Literal bs; off := 0; len := Z.of_nat (length bs) |}.

(** The driver's two buffers. *)
Record memory := {
  packet_mem : list byte;
  response_mem : list byte
}.

Definition region_bytes (m : memory) (r : region) : list byte :=
  match r with
  | Literal bs => bs
  | Packet => packet_mem m
  | Response => response_mem m
  end.

Definition span_bytes (m : memory) (sp : span) : list byte :=
  slice (region_bytes m (base sp)) (off sp) (len sp).

(** The span lies within the buffer it points into. *)
Definition span_in_bounds (m : memory) (sp : span) : Prop :=
  0 <= off sp /\ 0 <= len sp /\
  off sp + len sp <= Z.of_nat (length (region_bytes m (base sp))).

Definition write_region (m : memory) (r : region) (pos : Z) (src : list byte)
  : memory :=
  match r with
  | Literal _ => m
  | Packet => {| packet_mem := store (packet_mem m) pos src;
                 response_mem := response_mem m |}
  | Response => {| packet_mem := packet_mem m;
                   response_mem := store (response_mem m) pos src |}
  end.

(* ------------------------------------------------------------------ *)
(** ** read_into_buffer *)

Module ReadIntoBuffer.

Record t := {
  m_memory : span;
  m_read_index : Z        (* int *)
}.

Definition init : t := {| m_memory := empty_span; m_read_index := 0 |}.

Definition new_buffer (p_memory : span) (_ : t) : t :=
  {| m_memory := p_memory; m_read_index := 0 |}.

(** [done]: the destination of the read is
    [m_memory.subspan(m_read_index)].  The bytes read are written through
    [store]: for a span that extends behind its buffer the model keeps
    the bytes that fit and the code writes the others behind the buffer,
    so the model is the code for spans that satisfy [span_in_bounds]. *)
Definition done (r : t) (m : memory) (s : serial)
  : bool * t * memory * serial :=
  let size := len (m_memory r) in
  if wrap_size (m_read_index r) =? size then (true, r, m, s)
  else
    let dest_len := size - wrap_size (m_read_index r) in
    let '(got, s') := serial_read dest_len s in
    let m' := write_region m (base (m_memory r))
                (off (m_memory r) + wrap_size (m_read_index r)) got in
    let r' := {| m_memory := m_memory r;
                 m_read_index :=
                   to_int (wrap_size (m_read_index r)
                           + Z.of_nat (length got)) |} in
    (false, r', m', s').

End ReadIntoBuffer.

(* ------------------------------------------------------------------ *)
(** ** command_and_find_response *)

Module CommandAndFindResponse.

Record t := {
  m_search_index : nat;   (* size_t; never exceeds m_sequence.size() *)
  m_sent_command : bool;
  m_command : span;
  m_sequence : list byte
}.

Definition init : t :=
  {| m_search_index := 0; m_sent_command := false;
     m_command := empty_span; m_sequence := [] |}.

Definition new_search (p_command : span) (p_sequence : list byte) (_ : t) : t :=
  {| m_search_index := 0; m_sent_command := false;
     m_command := p_command; m_sequence := p_sequence |}.

(** [done].  The command is read through [span_bytes]: for a command span
    that extends behind its buffer the model writes the bytes inside the
    buffer and the code goes on with the bytes behind it, so what is
    written to the port is the code's for spans that satisfy
    [span_in_bounds]; the cursor and the bytes read do not depend on it. *)
Definition done (c : t) (m : memory) (s : serial) : bool * t * serial :=
  if Nat.eqb (m_search_index c) (length (m_sequence c)) then (true, c, s)
  else
    let s1 := if m_sent_command c then s
              else serial_write (span_bytes m (m_command c)) s in
    if 1 <=? bytes_available s1 then
      let '(got, s2) := serial_read 1 s1 in
      let b := nth 0 got 0 in
      let idx :=
        if nth (m_search_index c) (m_sequence c) 0 =? b
        then S (m_search_index c) else O in
      (false,
       {| m_search_index := idx; m_sent_command := true;
          m_command := m_command c; m_sequence := m_sequence c |},
       s2)
    else
      (false,
       {| m_search_index := m_search_index c; m_sent_command := true;
          m_command := m_command c; m_sequence := m_sequence c |},
       s1).

End CommandAndFindResponse.

(* ------------------------------------------------------------------ *)
(** ** read_integer *)

Module ReadInteger.

Record t := {
  m_finished : bool;
  m_found_digit : bool;
  m_integer : Z           (* uint32_t *)
}.

(** The member initialisers: a fresh reader is finished. *)
Definition init : t :=
  {| m_finished := true; m_found_digit := false; m_integer := 0 |}.

Definition restart (_ : t) : t :=
  {| m_finished := false; m_found_digit := false; m_integer := 0 |}.

Definition done (r : t) (s : serial) : bool * t * serial :=
  if m_finished r then (true, r, s)
  else if 1 <=? bytes_available s then
    let '(got, s') := serial_read 1 s in
    let b := nth 0 got 0 in
    if isdigit b then
      let i1 := wrap32 (m_integer r * 10) in
      let i2 := wrap32 (i1 + (b - 48)) in
      (m_finished r,
       {| m_finished := m_finished r; m_found_digit := true; m_integer := i2 |},
       s')
    else if m_found_digit r then
      (true,
       {| m_finished := true; m_found_digit := m_found_digit r;
          m_integer := m_integer r |},
       s')
    else (m_finished r, r, s')
  else (m_finished r, r, s).

Definition get (r : t) : Z := m_integer r.

End ReadInteger.

(* ------------------------------------------------------------------ *)
(** ** The C library calls of the driver *)

(** A [std::string_view] of which the driver uses [data()]: the bytes of
    the view, and the bytes that stand behind them in the memory the view
    points into (for a view of a whole string literal, the NUL). *)
Record string_view := {
  view : list byte;
  behind : list byte
}.

(** The memory from [data()] on. *)
Definition data (v : string_view) : list byte := view v ++ behind v.

(** The view of a string literal. *)
Definition literal (s : string) : string_view :=
  {| view := bytes_of_string s; behind := [0] |}.

(** A default-constructed view: [data()] is null and there is no memory. *)
Definition null_view : string_view := {| view := []; behind := [] |}.

(** A NUL stands in the memory from [data()] on. *)
Definition terminated (v : string_view) : bool :=
  existsb (fun b => b =? 0) (data v).

(** What [%s] prints of a pointer to the bytes [s]: the bytes up to the
    first NUL.  When [s] holds no NUL the code reads on behind it; the
    result is then all of [s], and the properties that depend on the
    printed text assume [terminated]. *)
Fixpoint c_str (s : list byte) : list byte :=
  match s with
  | [] => []
  | b :: s' => if b =? 0 then [] else b :: c_str s'
  end.

(** [%d] of a value. *)
Definition decimal (z : Z) : list byte :=
  bytes_of_string (NilZero.string_of_int (Z.to_int z)).

(** [snprintf(buf, size, ...)] where the formatted text is [full]: at most
    [size - 1] characters and a NUL are written, and the result is the
    length of [full], however much of it was written; it is negative when
    that length is not an [int]. *)
Definition snprintf (buf : list byte) (size : Z) (full : list byte)
  : list byte * Z :=
  let n := Z.of_nat (length full) in
  (if size <=? 0 then buf
   else store buf 0 (firstn (Z.to_nat (size - 1)) full ++ [0]),
   if n >? INT_MAX then -1 else n).

(** [std::string_view::find]: the index of the first occurrence. *)
Fixpoint is_prefix (p l : list byte) : bool :=
  match p, l with
  | [], _ => true
  | x :: p', y :: l' => (x =? y) && is_prefix p' l'
  | _ :: _, [] => false
  end.

Fixpoint find_from (needle hay : list byte) (i : Z) : option Z :=
  if is_prefix needle hay then Some i
  else match hay with
       | [] => None
       | _ :: hay' => find_from needle hay' (i + 1)
       end.

Definition find (needle hay : list byte) : option Z := find_from needle hay 0.

Fixpoint skip_spaces (l : list byte) : list byte :=
  match l with
  | b :: l' => if isspace b then skip_spaces l' else l
  | [] => []
  end.

Fixpoint digits_value (l : list byte) (acc : Z) : Z :=
  match l with
  | b :: l' => if isdigit b then digits_value l' (acc * 10 + (b - 48)) else acc
  | [] => acc
  end.

(** The directives [" %" PRIu32] of [sscanf]: white space is skipped, then
    an optional sign and at least one digit are converted as [strtoul]
    does where [unsigned long] has 32 bits: digits that denote 2^32 or
    more give the largest value, whatever the sign, and a negative number
    below that is negated modulo 2^32; [None] when no digit is found,
    where [sscanf] converts nothing.  The input ends where the packet
    buffer does.  What is stored for digits that denote 2^32 or more
    differs between C libraries (the low 32 bits where [unsigned long] has
    64), and a conversion that reaches the end of the buffer reads on
    behind it: [scan_defined] excludes both. *)
Definition scan_unsigned (l : list byte) : option Z :=
  let l1 := skip_spaces l in
  let '(neg, l2) :=
    match l1 with
    | 45 :: r => (true, r)
    | 43 :: r => (false, r)
    | _ => (false, l1)
    end in
  match l2 with
  | b :: _ =>
      if isdigit b then
        let v := digits_value l2 0 in
        Some (if 2 ^ 32 - 1 <? v then 2 ^ 32 - 1
              else if neg then wrap32 (- v) else v)
      else None
  | [] => None
  end.

(** The bytes behind the leading digits. *)
Fixpoint skip_digits (l : list byte) : list byte :=
  match l with
  | b :: l' => if isdigit b then skip_digits l' else l
  | [] => []
  end.

(** The conversion [scan_unsigned] models ends inside the buffer (a byte
    that stops it stands in [l]) and its digits denote less than 2^32:
    then the value is the one every C library stores. *)
Definition scan_defined (l : list byte) : bool :=
  let l1 := skip_spaces l in
  let l2 :=
    match l1 with
    | 45 :: r => r
    | 43 :: r => r
    | _ => l1
    end in
  match l2 with
  | b :: _ =>
      if isdigit b
      then (digits_value l2 0 <? 2 ^ 32)
           && match skip_digits l2 with [] => false | _ :: _ => true end
      else true
  | [] => false
  end.

(* ------------------------------------------------------------------ *)
(** ** class esp8266 *)

Definition ok_response : list byte := bytes_of_string "OK" ++ CRLF.
Definition end_of_header : list byte := CRLF ++ CRLF.
Definition maximum_response_packet_size : Z := 1460.
Arguments maximum_response_packet_size : simpl never.
Definition maximum_transmit_packet_size : Z := 2048.
Definition default_baud_rate : Z := 115200.

Inductive http_method :=
| GET | HEAD | POST | PUT | DELETE | CONNECT | OPTIONS | TRACE | PATCH.

Record request_t := {
  domain : string_view;
  path : string_view;
  method : http_method;
  send_data : list byte;
  port : string_view
}.

(** The default member initialisers of [request_t]. *)
Definition default_request : request_t :=
  {| domain := null_view; path := literal "/"; method := GET;
     send_data := []; port := literal "80" |}.

Record header_t := {
  status_code : Z;        (* uint32_t *)
  content_length : Z;     (* size_t *)
  header_length : Z       (* size_t *)
}.

Definition failure_header : header_t :=
  {| status_code := 0; content_length := 0; header_length := 0 |}.

Definition is_valid (h : header_t) : bool :=
  negb (status_code h =? 0) && negb (content_length h =? 0)
  && negb (header_length h =? 0).

Inductive state :=
| reset
| disable_echo
| configure_as_http_client
| attempting_ap_connection
| connected_to_ap
| connecting_to_server
| preparing_request
| sending_request
| get_first_packet_length
| reading_first_packet
| parsing_header
| get_packet_length
| read_packet_into_response
| get_next_packet
| close_connection
| close_connection_failure
| complete
| failure.

(** The value of the enumerator. *)
Definition state_index (s : state) : Z :=
  match s with
  | reset => 0
  | disable_echo => 1
  | configure_as_http_client => 2
  | attempting_ap_connection => 3
  | connected_to_ap => 4
  | connecting_to_server => 5
  | preparing_request => 6
  | sending_request => 7
  | get_first_packet_length => 8
  | reading_first_packet => 9
  | parsing_header => 10
  | get_packet_length => 11
  | read_packet_into_response => 12
  | get_next_packet => 13
  | close_connection => 14
  | close_connection_failure => 15
  | complete => 16
  | failure => 17
  end.

Definition state_eqb (a b : state) : bool := state_index a =? state_index b.

Inductive read_state :=
| until_sequence
| into_buffer
| integer
| read_complete.

Definition to_string (p_method : http_method) : list byte :=
  bytes_of_string
    match p_method with
    | GET => "GET"
    | HEAD => "HEAD"
    | POST => "POST"
    | PUT => "PUT"
    | DELETE => "DELETE"
    | CONNECT => "CONNECT"
    | OPTIONS => "OPTIONS"
    | TRACE => "TRACE"
    | PATCH => "PATCH"
    end.

Definition response_header_from_string (p_header_info : list byte) : header_t :=
  match find (bytes_of_string "HTTP/1.1 ") p_header_info with
  | None => failure_header
  | Some index =>
      match scan_unsigned (skipn (Z.to_nat (index + 8)) p_header_info) with
      | None => failure_header
      | Some status =>
          match find (bytes_of_string "Content-Length: ") p_header_info with
          | None => failure_header
          | Some index =>
              match scan_unsigned
                      (skipn (Z.to_nat (index + 15)) p_header_info) with
              | None => failure_header
              | Some clen =>
                  match find end_of_header p_header_info with
                  | None => failure_header
                  | Some index =>
                      {| status_code := status;
                         content_length := clen;
                         header_length :=
                           index + Z.of_nat (length end_of_header) |}
                  end
              end
          end
      end
  end.

Record esp8266 := {
  m_serial : serial;
  m_response : list byte;   (* the bytes of the caller's buffer *)
  m_ssid : list byte;
  m_password : list byte;
  m_commander : CommandAndFindResponse.t;
  m_reader : ReadIntoBuffer.t;
  m_integer_reader : ReadInteger.t;
  m_packet : list byte;
  m_request : request_t;
  m_header : header_t;
  m_state : state;
  m_next_state : state;
  m_read_state : read_state;
  m_request_length : Z;     (* int *)
  m_response_position : Z   (* int *)
}.

Definition mem_of (d : esp8266) : memory :=
  {| packet_mem := m_packet d; response_mem := m_response d |}.

(** Assignment to one member. *)
Definition set_serial (v : serial) (d : esp8266) : esp8266 :=
  {| m_serial := v;
     m_response := m_response d;
     m_ssid := m_ssid d;
     m_password := m_password d;
     m_commander := m_commander d;
     m_reader := m_reader d;
     m_integer_reader := m_integer_reader d;
     m_packet := m_packet d;
     m_request := m_request d;
     m_header := m_header d;
     m_state := m_state d;
     m_next_state := m_next_state d;
     m_read_state := m_read_state d;
     m_request_length := m_request_length d;
     m_response_position := m_response_position d |}.

Definition set_response (v : list byte) (d : esp8266) : esp8266 :=
  {| m_serial := m_serial d;
     m_response := v;
     m_ssid := m_ssid d;
     m_password := m_password d;
     m_commander := m_commander d;
     m_reader := m_reader d;
     m_integer_reader := m_integer_reader d;
     m_packet := m_packet d;
     m_request := m_request d;
     m_header := m_header d;
     m_state := m_state d;
     m_next_state := m_next_state d;
     m_read_state := m_read_state d;
     m_request_length := m_request_length d;
     m_response_position := m_response_position d |}.

Definition set_ssid (v : list byte) (d : esp8266) : esp8266 :=
  {| m_serial := m_serial d;
     m_response := m_response d;
     m_ssid := v;
     m_password := m_password d;
     m_commander := m_commander d;
     m_reader := m_reader d;
     m_integer_reader := m_integer_reader d;
     m_packet := m_packet d;
     m_request := m_request d;
     m_header := m_header d;
     m_state := m_state d;
     m_next_state := m_next_state d;
     m_read_state := m_read_state d;
     m_request_length := m_request_length d;
     m_response_position := m_response_position d |}.

Definition set_password (v : list byte) (d : esp8266) : esp8266 :=
  {| m_serial := m_serial d;
     m_response := m_response d;
     m_ssid := m_ssid d;
     m_password := v;
     m_commander := m_commander d;
     m_reader := m_reader d;
     m_integer_reader := m_integer_reader d;
     m_packet := m_packet d;
     m_request := m_request d;
     m_header := m_header d;
     m_state := m_state d;
     m_next_state := m_next_state d;
     m_read_state := m_read_state d;
     m_request_length := m_request_length d;
     m_response_position := m_response_position d |}.

Definition set_commander (v : CommandAndFindResponse.t) (d : esp8266) : esp8266 :=
  {| m_serial := m_serial d;
     m_response := m_response d;
     m_ssid := m_ssid d;
     m_password := m_password d;
     m_commander := v;
     m_reader := m_reader d;
     m_integer_reader := m_integer_reader d;
     m_packet := m_packet d;
     m_request := m_request d;
     m_header := m_header d;
     m_state := m_state d;
     m_next_state := m_next_state d;
     m_read_state := m_read_state d;
     m_request_length := m_request_length d;
     m_response_position := m_response_position d |}.

Definition set_reader (v : ReadIntoBuffer.t) (d : esp8266) : esp8266 :=
  {| m_serial := m_serial d;
     m_response := m_response d;
     m_ssid := m_ssid d;
     m_password := m_password d;
     m_commander := m_commander d;
     m_reader := v;
     m_integer_reader := m_integer_reader d;
     m_packet := m_packet d;
     m_request := m_request d;
     m_header := m_header d;
     m_state := m_state d;
     m_next_state := m_next_state d;
     m_read_state := m_read_state d;
     m_request_length := m_request_length d;
     m_response_position := m_response_position d |}.

Definition set_integer_reader (v : ReadInteger.t) (d : esp8266) : esp8266 :=
  {| m_serial := m_serial d;
     m_response := m_response d;
     m_ssid := m_ssid d;
     m_password := m_password d;
     m_commander := m_commander d;
     m_reader := m_reader d;
     m_integer_reader := v;
     m_packet := m_packet d;
     m_request := m_request d;
     m_header := m_header d;
     m_state := m_state d;
     m_next_state := m_next_state d;
     m_read_state := m_read_state d;
     m_request_length := m_request_length d;
     m_response_position := m_response_position d |}.

Definition set_packet (v : list byte) (d : esp8266) : esp8266 :=
  {| m_serial := m_serial d;
     m_response := m_response d;
     m_ssid := m_ssid d;
     m_password := m_password d;
     m_commander := m_commander d;
     m_reader := m_reader d;
     m_integer_reader := m_integer_reader d;
     m_packet := v;
     m_request := m_request d;
     m_header := m_header d;
     m_state := m_state d;
     m_next_state := m_next_state d;
     m_read_state := m_read_state d;
     m_request_length := m_request_length d;
     m_response_position := m_response_position d |}.

Definition set_request (v : request_t) (d : esp8266) : esp8266 :=
  {| m_serial := m_serial d;
     m_response := m_response d;
     m_ssid := m_ssid d;
     m_password := m_password d;
     m_commander := m_commander d;
     m_reader := m_reader d;
     m_integer_reader := m_integer_reader d;
     m_packet := m_packet d;
     m_request := v;
     m_header := m_header d;
     m_state := m_state d;
     m_next_state := m_next_state d;
     m_read_state := m_read_state d;
     m_request_length := m_request_length d;
     m_response_position := m_response_position d |}.

Definition set_header (v : header_t) (d : esp8266) : esp8266 :=
  {| m_serial := m_serial d;
     m_response := m_response d;
     m_ssid := m_ssid d;
     m_password := m_password d;
     m_commander := m_commander d;
     m_reader := m_reader d;
     m_integer_reader := m_integer_reader d;
     m_packet := m_packet d;
     m_request := m_request d;
     m_header := v;
     m_state := m_state d;
     m_next_state := m_next_state d;
     m_read_state := m_read_state d;
     m_request_length := m_request_length d;
     m_response_position := m_response_position d |}.

Definition set_state (v : state) (d : esp8266) : esp8266 :=
  {| m_serial := m_serial d;
     m_response := m_response d;
     m_ssid := m_ssid d;
     m_password := m_password d;
     m_commander := m_commander d;
     m_reader := m_reader d;
     m_integer_reader := m_integer_reader d;
     m_packet := m_packet d;
     m_request := m_request d;
     m_header := m_header d;
     m_state := v;
     m_next_state := m_next_state d;
     m_read_state := m_read_state d;
     m_request_length := m_request_length d;
     m_response_position := m_response_position d |}.

Definition set_next_state (v : state) (d : esp8266) : esp8266 :=
  {| m_serial := m_serial d;
     m_response := m_response d;
     m_ssid := m_ssid d;
     m_password := m_password d;
     m_commander := m_commander d;
     m_reader := m_reader d;
     m_integer_reader := m_integer_reader d;
     m_packet := m_packet d;
     m_request := m_request d;
     m_header := m_header d;
     m_state := m_state d;
     m_next_state := v;
     m_read_state := m_read_state d;
     m_request_length := m_request_length d;
     m_response_position := m_response_position d |}.

Definition set_read_state (v : read_state) (d : esp8266) : esp8266 :=
  {| m_serial := m_serial d;
     m_response := m_response d;
     m_ssid := m_ssid d;
     m_password := m_password d;
     m_commander := m_commander d;
     m_reader := m_reader d;
     m_integer_reader := m_integer_reader d;
     m_packet := m_packet d;
     m_request := m_request d;
     m_header := m_header d;
     m_state := m_state d;
     m_next_state := m_next_state d;
     m_read_state := v;
     m_request_length := m_request_length d;
     m_response_position := m_response_position d |}.

Definition set_request_length (v : Z) (d : esp8266) : esp8266 :=
  {| m_serial := m_serial d;
     m_response := m_response d;
     m_ssid := m_ssid d;
     m_password := m_password d;
     m_commander := m_commander d;
     m_reader := m_reader d;
     m_integer_reader := m_integer_reader d;
     m_packet := m_packet d;
     m_request := m_request d;
     m_header := m_header d;
     m_state := m_state d;
     m_next_state := m_next_state d;
     m_read_state := m_read_state d;
     m_request_length := v;
     m_response_position := m_response_position d |}.

Definition set_response_position (v : Z) (d : esp8266) : esp8266 :=
  {| m_serial := m_serial d;
     m_response := m_response d;
     m_ssid := m_ssid d;
     m_password := m_password d;
     m_commander := m_commander d;
     m_reader := m_reader d;
     m_integer_reader := m_integer_reader d;
     m_packet := m_packet d;
     m_request := m_request d;
     m_header := m_header d;
     m_state := m_state d;
     m_next_state := m_next_state d;
     m_read_state := m_read_state d;
     m_request_length := m_request_length d;
     m_response_position := v |}.

Definition set_mem (m : memory) (d : esp8266) : esp8266 :=
  set_packet (packet_mem m) (set_response (response_mem m) d).

(** The constructor. *)
Definition esp8266_new (p_serial : serial) (p_ssid p_password : list byte)
           (p_response_span : list byte) : esp8266 :=
  {| m_serial := p_serial;
     m_response := p_response_span;
     m_ssid := p_ssid;
     m_password := p_password;
     m_commander := CommandAndFindResponse.init;
     m_reader := ReadIntoBuffer.init;
     m_integer_reader := ReadInteger.init;
     m_packet := repeat 0 (Z.to_nat maximum_response_packet_size);
     m_request := default_request;
     m_header := failure_header;
     m_state := reset;
     m_next_state := reset;
     m_read_state := read_complete;
     m_request_length := 0;
     m_response_position := 0 |}.

Definition response (d : esp8266) : list byte := m_response d.

(** [esp8266::write]: flush, write, wait until the port is no longer busy. *)
Definition write (p_string : list byte) (d : esp8266) : esp8266 :=
  set_serial (serial_write p_string (serial_flush (m_serial d))) d.

Definition new_search (p_command : span) (p_sequence : list byte)
           (d : esp8266) : esp8266 :=
  set_commander
    (CommandAndFindResponse.new_search p_command p_sequence (m_commander d)) d.

(** The text [snprintf] formats in [preparing_request]. *)
Definition format_request (r : request_t) : list byte :=
  bytes_of_string "GET " ++ c_str (data (path r))
  ++ bytes_of_string " HTTP/1.1" ++ CRLF
  ++ bytes_of_string "Host: " ++ c_str (data (domain r)) ++ bytes_of_string ":"
  ++ c_str (data (port r)) ++ CRLF
  ++ CRLF ++ CRLF.

(** [case state::sending_request]. *)
Definition enter_sending_request (d : esp8266) : esp8266 :=
  let d := new_search {| base := Response; off := 0;
                         len := wrap_size (m_request_length d) |}
                      (bytes_of_string "+IPD,") d in
  let d := set_next_state get_first_packet_length d in
  set_read_state until_sequence d.

(** [case state::preparing_request], which has no [break] at its end and
    continues into [case state::sending_request]. *)
Definition enter_preparing_request (d : esp8266) : esp8266 :=
  let '(resp, n) :=
    snprintf (m_response d) (Z.of_nat (length (m_response d)))
             (format_request (m_request d)) in
  let d := set_response resp d in
  let d := set_request_length n d in
  if m_request_length d <? 0 then set_next_state close_connection_failure d
  else
    let '(buffer, cipsend_command_length) :=
      snprintf (repeat 0 64%nat) 64
               (bytes_of_string "AT+CIPSEND=" ++ decimal (m_request_length d)
                ++ CRLF) in
    if cipsend_command_length <? 0
    then set_next_state close_connection_failure d
    else
      let d := write (slice buffer 0 cipsend_command_length) d in
      let d := new_search empty_span ok_response d in
      let d := set_next_state sending_request d in
      let d := set_read_state until_sequence d in
      enter_sending_request d.

(** [case state::parsing_header].  The two calls of [std::copy_n] read
    through [slice] and write through [store]; they are the code's copies
    when the range read lies in [m_packet] and the range written in the
    response buffer ([copy_in_bounds] below), which the code does not
    check. *)
Definition enter_parsing_header (d : esp8266) : esp8266 :=
  let d := set_header (response_header_from_string (m_packet d)) d in
  let h := m_header d in
  let n := ReadInteger.get (m_integer_reader d) in
  if negb (is_valid h) then set_next_state close_connection_failure d
  else if content_length h >? Z.of_nat (length (m_response d))
  then set_next_state close_connection_failure d
  else if n <? maximum_response_packet_size then
    let d := set_response
               (store (m_response d) 0
                  (slice (m_packet d) (header_length h) (content_length h))) d in
    set_next_state close_connection d
  else
    let bytes_retrieved := wrap_size (n - header_length h) in
    let d := set_response
               (store (m_response d) 0
                  (slice (m_packet d) (header_length h) bytes_retrieved)) d in
    let d := set_response_position (to_int bytes_retrieved) d in
    set_next_state get_packet_length d.

Definition transition_state (d : esp8266) : esp8266 :=
  match m_state d with
  | reset => set_next_state disable_echo d
  | disable_echo =>
      let d := new_search (to_bytes (bytes_of_string "ATE0" ++ CRLF))
                          ok_response d in
      let d := set_next_state configure_as_http_client d in
      set_read_state until_sequence d
  | configure_as_http_client =>
      let d := new_search (to_bytes (bytes_of_string "AT+CWMODE=1" ++ CRLF))
                          ok_response d in
      let d := set_next_state attempting_ap_connection d in
      set_read_state until_sequence d
  | attempting_ap_connection =>
      let d := write (bytes_of_string "AT+CWJAP_CUR=" ++ [DQUOTE]) d in
      let d := write (m_ssid d) d in
      let d := write ([DQUOTE] ++ bytes_of_string "," ++ [DQUOTE]) d in
      let d := write (m_password d) d in
      let d := new_search (to_bytes ([DQUOTE] ++ CRLF)) ok_response d in
      let d := set_next_state connected_to_ap d in
      set_read_state until_sequence d
  | connected_to_ap => d
  | connecting_to_server =>
      let d := write (bytes_of_string "AT+CIPSTART=" ++ [DQUOTE]
                      ++ bytes_of_string "TCP" ++ [DQUOTE]
                      ++ bytes_of_string "," ++ [DQUOTE]) d in
      let d := write (view (domain (m_request d))) d in
      let d := write ([DQUOTE] ++ bytes_of_string ",") d in
      let d := write (view (port (m_request d))) d in
      let d := new_search (to_bytes CRLF) ok_response d in
      let d := set_next_state preparing_request d in
      set_read_state until_sequence d
  | preparing_request => enter_preparing_request d
  | sending_request => enter_sending_request d
  | get_first_packet_length =>
      let d := set_integer_reader (ReadInteger.restart (m_integer_reader d)) d in
      let d := set_next_state reading_first_packet d in
      set_read_state integer d
  | reading_first_packet =>
      let d := set_reader
                 (ReadIntoBuffer.new_buffer
                    {| base := Packet; off := 0;
                       len := ReadInteger.get (m_integer_reader d) |}
                    (m_reader d)) d in
      let d := set_next_state parsing_header d in
      set_read_state into_buffer d
  | parsing_header => enter_parsing_header d
  | get_packet_length =>
      let d := set_integer_reader (ReadInteger.restart (m_integer_reader d)) d in
      let d := set_next_state read_packet_into_response d in
      set_read_state integer d
  | read_packet_into_response =>
      let d := set_reader
                 (ReadIntoBuffer.new_buffer
                    {| base := Response;
                       off := wrap_size (m_response_position d);
                       len := ReadInteger.get (m_integer_reader d) |}
                    (m_reader d)) d in
      let d := set_next_state get_next_packet d in
      set_read_state into_buffer d
  | get_next_packet =>
      let d := set_response_position
                 (to_int (wrap32 (m_response_position d)
                          + ReadInteger.get (m_integer_reader d))) d in
      if wrap_size (m_response_position d) >=? content_length (m_header d)
      then set_next_state close_connection d
      else set_next_state get_packet_length d
  | close_connection =>
      let d := new_search (to_bytes (bytes_of_string "AT+CIPCLOSE" ++ CRLF))
                          ok_response d in
      let d := set_next_state complete d in
      set_read_state until_sequence d
  | close_connection_failure =>
      let d := new_search (to_bytes (bytes_of_string "AT+CIPCLOSE" ++ CRLF))
                          ok_response d in
      let d := set_next_state failure d in
      set_read_state until_sequence d
  | complete => d
  | failure => d
  end.

Definition driver_initialize (d : esp8266) : bool * esp8266 :=
  let d := set_serial
             (serial_configure
                {| baud_rate := 115200; frame_size := 8;
                   parity := parity_none; stop := stop_one |}
                (m_serial d)) d in
  if negb (init_ok (m_serial d)) then (false, d)
  else
    let d := set_serial (serial_flush (m_serial d)) d in
    (true, set_state reset d).

Definition change_access_point (p_ssid p_password : list byte) (d : esp8266)
  : esp8266 :=
  let d := set_ssid p_ssid d in
  let d := set_password p_password d in
  set_next_state connected_to_ap d.

Definition connected (d : esp8266) : bool :=
  state_index (m_state d) >=? state_index connected_to_ap.

Definition request (p_request : request_t) (d : esp8266) : esp8266 :=
  let d := set_request p_request d in
  let d := set_next_state connecting_to_server d in
  transition_state d.

(** [get_status]: the driver after the call; the value returned is its
    [m_state]. *)
Definition get_status (d : esp8266) : esp8266 :=
  let d := if state_eqb (m_state d) reset then transition_state d else d in
  match m_read_state d with
  | until_sequence =>
      let '(fin, c, s) :=
        CommandAndFindResponse.done (m_commander d) (mem_of d) (m_serial d) in
      let d := set_serial s (set_commander c d) in
      if fin then set_read_state read_complete d else d
  | into_buffer =>
      let '(fin, r, m, s) :=
        ReadIntoBuffer.done (m_reader d) (mem_of d) (m_serial d) in
      let d := set_serial s (set_mem m (set_reader r d)) in
      if fin then set_read_state read_complete d else d
  | integer =>
      let '(fin, r, s) := ReadInteger.done (m_integer_reader d) (m_serial d) in
      let d := set_serial s (set_integer_reader r d) in
      if fin then set_read_state read_complete d else d
  | read_complete =>
      transition_state (set_state (m_next_state d) d)
  end.

(* ------------------------------------------------------------------ *)
(** ** Runs of the driver *)

(** Bytes from the module reach the port. *)
Definition arrive (bs : list byte) (d : esp8266) : esp8266 :=
  set_serial (receive bs (m_serial d)) d.

(** [n] calls of [get_status]. *)
Fixpoint ticks (n : nat) (d : esp8266) : esp8266 :=
  match n with
  | O => d
  | S n' => ticks n' (get_status d)
  end.

(** What happens to a driver: the module sends bytes, or the caller calls
    a member function. *)
Inductive event :=
| Rx (bs : list byte)
| Poll (n : nat)
| Request (r : request_t)
| ChangeAccessPoint (ssid password : list byte)
| Initialize.

Definition step (e : event) (d : esp8266) : esp8266 :=
  match e with
  | Rx bs => arrive bs d
  | Poll n => ticks n d
  | Request r => request r d
  | ChangeAccessPoint ssid password => change_access_point ssid password d
  | Initialize => snd (driver_initialize d)
  end.

Definition run (es : list event) (d : esp8266) : esp8266 :=
  fold_left (fun d e => step e d) es d.

(* ------------------------------------------------------------------ *)
(** ** Polling one reader *)

(** The port [s] with [l] as its unread bytes. *)
Definition with_rx (l : list byte) (s : serial) : serial :=
  {| rx := l; tx := tx s; settings := settings s; init_ok := init_ok s |}.

(** The results of [n] successive calls of [read_integer::done]. *)
Fixpoint integer_polls (n : nat) (r : ReadInteger.t) (s : serial)
  : list bool * ReadInteger.t * serial :=
  match n with
  | O => ([], r, s)
  | S n' =>
      let '(b, r1, s1) := ReadInteger.done r s in
      let '(bs, r2, s2) := integer_polls n' r1 s1 in
      (b :: bs, r2, s2)
  end.

(** The number a string of decimal digits denotes. *)
Definition decimal_value (ds : list byte) : Z :=
  fold_left (fun acc b => acc * 10 + (b - 48)) ds 0.

(** The accumulator of [read_integer] after the digits [ds]. *)
Definition accumulate (ds : list byte) (i : Z) : Z :=
  fold_left (fun acc b => wrap32 (wrap32 (acc * 10) + (b - 48))) ds i.

(** A port with nothing received and nothing written. *)
Definition idle_port : serial :=
  {| rx := []; tx := [];
     settings := {| baud_rate := 0; frame_size := 0;
                    parity := parity_none; stop := stop_one |};
     init_ok := true |}.

(** One byte arrives and [command_and_find_response::done] is called. *)
Definition fed_tick (m : memory)
           (st : CommandAndFindResponse.t * serial) (b : byte)
  : CommandAndFindResponse.t * serial :=
  let '(_, c, s) :=
    CommandAndFindResponse.done (fst st) m (receive [b] (snd st)) in
  (c, s).

(** The bytes of [stream] are fed to the reader, a byte a call. *)
Definition feed (m : memory) (stream : list byte)
           (c : CommandAndFindResponse.t) (s : serial)
  : CommandAndFindResponse.t * serial :=
  fold_left (fed_tick m) stream (c, s).

(** The reader's cursor when the byte at position [i] of [stream] arrives. *)
Definition cursor_before (m : memory) (stream : list byte) (i : nat)
           (c : CommandAndFindResponse.t) (s : serial) : nat :=
  CommandAndFindResponse.m_search_index (fst (feed m (firstn i stream) c s)).

(** The answer of the call of [done] that follows [stream]. *)
Definition answer_after (m : memory) (stream : list byte)
           (c : CommandAndFindResponse.t) (s : serial) : bool :=
  let '(c', s') := feed m stream c s in
  fst (fst (CommandAndFindResponse.done c' m s')).

(** The cursor after one more byte: the reset-to-zero policy. *)
Definition advance (seq : list byte) (idx : nat) (b : byte) : nat :=
  if Nat.eqb idx (length seq) then idx
  else if nth idx seq 0 =? b then S idx else O.

(** The cursor after the stream, from cursor [i] on, under this policy. *)
Definition cursor_after (seq stream : list byte) (i : nat) : nat :=
  fold_left (advance seq) stream i.

(* ------------------------------------------------------------------ *)
(** ** Reachable drivers *)

(** The drivers a caller can have: a constructed one, and what the member
    functions and the arrival of bytes make of it. *)
Inductive reachable : esp8266 -> Prop :=
| reachable_new (p_serial : serial) (p_ssid p_password p_response : list byte) :
    reachable (esp8266_new p_serial p_ssid p_password p_response)
| reachable_step (e : event) (d : esp8266) :
    reachable d -> reachable (step e d).

Definition terminal (s : state) : bool :=
  match s with
  | complete | failure => true
  | _ => false
  end.

(** What the types of the members say, and that a driver whose phase is
    terminal has no reader at work. *)
Record well_formed (d : esp8266) : Prop := {
  wf_packet : length (m_packet d) = Z.to_nat maximum_response_packet_size;
  wf_integer : 0 <= ReadInteger.m_integer (m_integer_reader d) < 2 ^ 32;
  wf_position : - 2 ^ 31 <= m_response_position d < 2 ^ 31;
  wf_terminal : terminal (m_state d) = true -> m_read_state d = read_complete
}.

(* ------------------------------------------------------------------ *)
(** ** Calls with defined behaviour *)

(** The code checks no length the module announces and no index: a span
    longer than its buffer, a copy that leaves the packet buffer, a request
    string without a NUL make it read or write behind the memory that is
    modelled here, and what it then does (the members behind [m_packet]
    are overwritten, for one) is not what the definitions above compute,
    which stop at the end of the buffer.  The predicates of this section
    say when a call stays inside; for such a call the definitions are the
    code. *)

(** [span_in_bounds] as a test. *)
Definition span_inside (m : memory) (sp : span) : bool :=
  (0 <=? off sp) && (0 <=? len sp)
  && (off sp + len sp <=? Z.of_nat (length (region_bytes m (base sp)))).

(** The two conversions of [response_header_from_string], where it comes
    to them, give values that depend neither on the C library nor on what
    stands behind the buffer. *)
Definition parse_defined (p : list byte) : bool :=
  match find (bytes_of_string "HTTP/1.1 ") p with
  | None => true
  | Some index =>
      scan_defined (skipn (Z.to_nat (index + 8)) p)
      && match scan_unsigned (skipn (Z.to_nat (index + 8)) p) with
         | None => true
         | Some _ =>
             match find (bytes_of_string "Content-Length: ") p with
             | None => true
             | Some index => scan_defined (skipn (Z.to_nat (index + 15)) p)
             end
         end
  end.

(** The call of [std::copy_n] in [case state::parsing_header] reads inside
    [m_packet] and writes inside the response buffer.  With an announced
    length below 1460 it copies [content_length] bytes, which the code has
    compared with the size of the response buffer; otherwise it copies the
    announced length less the header length. *)
Definition copy_in_bounds (d : esp8266) : bool :=
  let h := response_header_from_string (m_packet d) in
  let n := ReadInteger.get (m_integer_reader d) in
  if n <? maximum_response_packet_size
  then header_length h + content_length h <=? Z.of_nat (length (m_packet d))
  else (header_length h <=? n)
       && (n <=? Z.of_nat (length (m_packet d)))
       && (n - header_length h <=? Z.of_nat (length (m_response d))).

(** One call of [transition_state]: the strings [snprintf] prints are
    terminated, the spans it makes ([subspan], [std::span{begin, count}])
    lie in their buffers, and so do the copies. *)
Definition transition_defined (d : esp8266) : bool :=
  match m_state d with
  | preparing_request =>
      let r := m_request d in
      let n := Z.of_nat (length (format_request r)) in
      terminated (path r) && terminated (domain r) && terminated (port r)
      && ((INT_MAX <? n) || (n <=? Z.of_nat (length (m_response d))))
  | sending_request =>
      (0 <=? m_request_length d)
      && (m_request_length d <=? Z.of_nat (length (m_response d)))
  | reading_first_packet =>
      ReadInteger.get (m_integer_reader d) <=? Z.of_nat (length (m_packet d))
  | parsing_header =>
      let h := response_header_from_string (m_packet d) in
      parse_defined (m_packet d)
      && (negb (is_valid h)
          || (content_length h >? Z.of_nat (length (m_response d)))
          || copy_in_bounds d)
  | read_packet_into_response =>
      (0 <=? m_response_position d)
      && (m_response_position d + ReadInteger.get (m_integer_reader d)
          <=? Z.of_nat (length (m_response d)))
  | _ => true
  end.

(** One call of [get_status]: a reader that writes a command or reads
    into its span has the span in its buffer, and the transition, when
    there is one, is defined. *)
Definition get_status_defined (d : esp8266) : bool :=
  let d := if state_eqb (m_state d) reset then transition_state d else d in
  match m_read_state d with
  | until_sequence =>
      let c := m_commander d in
      Nat.eqb (CommandAndFindResponse.m_search_index c)
              (length (CommandAndFindResponse.m_sequence c))
      || CommandAndFindResponse.m_sent_command c
      || span_inside (mem_of d) (CommandAndFindResponse.m_command c)
  | into_buffer =>
      let r := m_reader d in
      (wrap_size (ReadIntoBuffer.m_read_index r)
       =? len (ReadIntoBuffer.m_memory r))
      || (span_inside (mem_of d) (ReadIntoBuffer.m_memory r)
          && (0 <=? ReadIntoBuffer.m_read_index r)
          && (ReadIntoBuffer.m_read_index r
              <=? len (ReadIntoBuffer.m_memory r)))
  | integer => true
  | read_complete => transition_defined (set_state (m_next_state d) d)
  end.

Fixpoint ticks_defined (n : nat) (d : esp8266) : bool :=
  match n with
  | O => true
  | S n' => get_status_defined d && ticks_defined n' (get_status d)
  end.

Definition step_defined (e : event) (d : esp8266) : bool :=
  match e with
  | Poll n => ticks_defined n d
  | Request r =>
      transition_defined (set_next_state connecting_to_server (set_request r d))
  | _ => true
  end.

(** Every call of the run is defined. *)
Fixpoint run_defined (es : list event) (d : esp8266) : bool :=
  match es with
  | [] => true
  | e :: es' => step_defined e d && run_defined es' (step e d)
  end.

(** The drivers a caller can have without a call that leaves the
    buffers. *)
Inductive defined_reachable : esp8266 -> Prop :=
| defined_new (p_serial : serial) (p_ssid p_password p_response : list byte) :
    defined_reachable (esp8266_new p_serial p_ssid p_password p_response)
| defined_step (e : event) (d : esp8266) :
    defined_reachable d -> step_defined e d = true ->
    defined_reachable (step e d).

(* ------------------------------------------------------------------ *)
(** ** Scenarios *)

Definition example_request : request_t :=
  {| domain := literal "example.com"; path := literal "/";
     method := GET; send_data := []; port := literal "80" |}.

Definition other_request : request_t :=
  {| domain := literal "other.org"; path := literal "/";
     method := GET; send_data := []; port := literal "80" |}.

(** A driver with a response buffer of [size] bytes, constructed and
    initialised. *)
Definition constructed (size : nat) : esp8266 :=
  esp8266_new idle_port (bytes_of_string "net") (bytes_of_string "pw")
              (repeat 0 size).

Definition fresh_driver (size : nat) : esp8266 :=
  snd (driver_initialize (constructed size)).

(** The module acknowledges ATE0, AT+CWMODE=1 and AT+CWJAP_CUR, each
    after the driver has sent it. *)
Definition association : list event :=
  [Poll 2; Rx ok_response; Poll 5;
   Poll 2; Rx ok_response; Poll 5;
   Poll 2; Rx ok_response; Poll 5;
   Poll 1].

Definition associated (size : nat) : esp8266 := run association (fresh_driver size).

(** A request is made and the module acknowledges AT+CIPSTART. *)
Definition connect (r : request_t) : list event :=
  [Request r; Poll 2; Rx ok_response; Poll 5].

(** The response of the server: a status line, Content-Length [clen], the
    empty line, and the body. *)
Definition http_reply (clen : Z) (body : list byte) : list byte :=
  bytes_of_string "HTTP/1.1 200 OK" ++ CRLF
  ++ bytes_of_string "Content-Length: " ++ decimal clen ++ CRLF
  ++ CRLF ++ body.

(** [+IPD,<announced>:] and the payload. *)
Definition ipd (announced : Z) (payload : list byte) : list byte :=
  bytes_of_string "+IPD," ++ decimal announced ++ bytes_of_string ":" ++ payload.

(** The single-packet GET: after association the module acknowledges
    AT+CIPSTART and AT+CIPSEND, delivers the response in one packet
    announced as [announced] bytes, and acknowledges AT+CIPCLOSE. *)
Definition single_packet_get (announced : Z) : list event :=
  connect example_request
  ++ [Poll 2; Rx ok_response;
      Rx (ipd announced (http_reply 5 (bytes_of_string "hello"))); Poll 20;
      Rx ok_response; Poll 6].

(** The same up to the call of [get_status] before the last. *)
Definition single_packet_get_but_last : list event :=
  connect example_request
  ++ [Poll 2; Rx ok_response;
      Rx (ipd 43 (http_reply 5 (bytes_of_string "hello"))); Poll 20;
      Rx ok_response; Poll 5].

(** The request is sent and the first packet, announced as [announced]
    bytes, has arrived; [n] calls of [get_status] follow. *)
Definition first_packet (announced clen : Z) (body : list byte) (n : nat)
  : list event :=
  connect example_request
  ++ [Poll 2; Rx ok_response; Rx (ipd announced (http_reply clen body)); Poll n].

(** A response of 2000 bytes in two packets: the first has 1460 bytes, the
    41 of the header and 1419 of the body, the second the other 581. *)
Definition body_1 : list byte := repeat 97 1419.
Definition body_2 : list byte := repeat 98 581.

Definition two_packets (n : nat) : list event :=
  first_packet 1460 2000 body_1 20 ++ [Rx (ipd 581 body_2); Poll n].

Definition two_packet_get : list event :=
  two_packets 14 ++ [Poll 2; Rx ok_response; Poll 6].

(** The driver about to enter the phase [m_next_state] holds: what
    [get_status] hands to [transition_state]. *)
Definition entering (d : esp8266) : esp8266 := set_state (m_next_state d) d.

(** Events that are no call of [request], [change_access_point] or
    [initialize]: bytes arrive and [get_status] is called. *)
Definition quiet (e : event) : Prop :=
  match e with
  | Rx _ | Poll _ => True
  | _ => False
  end.

(** The phases whose case in [transition_state] is empty. *)
Definition idle (s : state) : bool :=
  match s with
  | connected_to_ap | complete | failure => true
  | _ => false
  end.

(** A driver at rest in such a phase. *)
Definition settled (d : esp8266) : Prop :=
  idle (m_state d) = true /\
  m_next_state d = m_state d /\
  m_read_state d = read_complete.

(** The phases returned by [n] calls of [get_status]. *)
Fixpoint phases (n : nat) (d : esp8266) : list state :=
  match n with
  | O => []
  | S n' => m_state (get_status d) :: phases n' (get_status d)
  end.

(** The phases returned by the calls of [get_status] in a run. *)
Fixpoint observed (es : list event) (d : esp8266) : list state :=
  match es with
  | [] => []
  | e :: es' =>
      match e with
      | Poll n => phases n d
      | _ => []
      end ++ observed es' (step e d)
  end.

(** Two drivers that differ at most in the unread bytes of the port. *)
Definition same_but_rx (d d' : esp8266) : Prop :=
  set_serial (with_rx [] (m_serial d)) d
  = set_serial (with_rx [] (m_serial d')) d'.


(* ------------------------------------------------------------------ *)
(** ** Readers polled while bytes arrive in chunks *)

(** Chunks of bytes arrive at the port, each followed by a call of
    [read_into_buffer::done]. *)
Fixpoint buffer_feed (chunks : list (list byte)) (r : ReadIntoBuffer.t)
         (m : memory) (s : serial) : ReadIntoBuffer.t * memory * serial :=
  match chunks with
  | [] => (r, m, s)
  | chunk :: chunks' =>
      let '(_, r', m', s') := ReadIntoBuffer.done r m (receive chunk s) in
      buffer_feed chunks' r' m' s'
  end.

(** Chunks of bytes arrive at the port, each followed by a call of
    [command_and_find_response::done]. *)
Fixpoint search_feed (chunks : list (list byte))
         (c : CommandAndFindResponse.t) (m : memory) (s : serial)
  : CommandAndFindResponse.t * serial :=
  match chunks with
  | [] => (c, s)
  | chunk :: chunks' =>
      let '(_, c', s') := CommandAndFindResponse.done c m (receive chunk s) in
      search_feed chunks' c' m s'
  end.

(** A response header as a server writes it: the status line with the
    digits [status], the Content-Length line with the digits [clen], and
    the empty line. *)
Definition http_header (status clen : list byte) : list byte :=
  (bytes_of_string "HTTP/1.1 " ++ status ++ bytes_of_string " OK" ++ CRLF)
  ++ (bytes_of_string "Content-Length: " ++ clen ++ CRLF)
  ++ CRLF.

(** Events other than a call of [initialize]. *)
Definition keeps_phase (e : event) : Prop :=
  match e with
  | Initialize => False
  | _ => True
  end.

(** A request with the members the driver sends: the domain, the path
    and the port; the method and the data to send are set to their
    defaults. *)
Definition wire_request (r : request_t) : request_t :=
  {| domain := domain r; path := path r; method := GET;
     send_data := []; port := port r |}.

Definition wire_event (e : event) : event :=
  match e with
  | Request r => Request (wire_request r)
  | _ => e
  end.

Definition wire_driver (d : esp8266) : esp8266 :=
  set_request (wire_request (m_request d)) d.

(** The buffer [region0] after [consumed] was written into it from the
    offset of the span [sp] on. *)
Definition span_filled (sp : span) (region0 consumed : list byte) : list byte :=
  firstn (Z.to_nat (off sp)) region0 ++ consumed
  ++ skipn (Z.to_nat (off sp) + length consumed) region0.


(* ================================================================== *)
(** * Properties *)

(* ------------------------------------------------------------------ *)
(** ** The integer reader *)

(** A reader whose port holds a byte reads it. *)
Ltac read_one_byte :=
  unfold ReadInteger.done, bytes_available, serial_read;
  cbn [ReadInteger.m_finished ReadInteger.m_found_digit ReadInteger.m_integer
       rx tx settings init_ok with_rx length];
  match goal with
  | |- context [1 <=? Z.of_nat (S ?n)] =>
      replace (1 <=? Z.of_nat (S n)) with true
        by (symmetry; apply Z.leb_le; lia)
  end;
  change (Z.to_nat 1) with 1%nat;
  cbn [firstn skipn nth].

Section IntegerReader.

Variable s : serial.

Lemma with_rx_id : with_rx (rx s) s = s.
Proof. destruct s; reflexivity. Qed.

Lemma integer_done_skip (i : Z) (b : byte) (l : list byte) :
  isdigit b = false ->
  ReadInteger.done
    {| ReadInteger.m_finished := false; ReadInteger.m_found_digit := false;
       ReadInteger.m_integer := i |} (with_rx (b :: l) s)
  = (false,
     {| ReadInteger.m_finished := false; ReadInteger.m_found_digit := false;
        ReadInteger.m_integer := i |}, with_rx l s).
Proof.
  intros Hb. read_one_byte. rewrite Hb. reflexivity.
Qed.

Lemma integer_done_digit (f : bool) (i : Z) (b : byte) (l : list byte) :
  isdigit b = true ->
  ReadInteger.done
    {| ReadInteger.m_finished := false; ReadInteger.m_found_digit := f;
       ReadInteger.m_integer := i |} (with_rx (b :: l) s)
  = (false,
     {| ReadInteger.m_finished := false; ReadInteger.m_found_digit := true;
        ReadInteger.m_integer := wrap32 (wrap32 (i * 10) + (b - 48)) |},
     with_rx l s).
Proof.
  intros Hb. read_one_byte. rewrite Hb. reflexivity.
Qed.

Lemma integer_done_terminator (i : Z) (b : byte) (l : list byte) :
  isdigit b = false ->
  ReadInteger.done
    {| ReadInteger.m_finished := false; ReadInteger.m_found_digit := true;
       ReadInteger.m_integer := i |} (with_rx (b :: l) s)
  = (true,
     {| ReadInteger.m_finished := true; ReadInteger.m_found_digit := true;
        ReadInteger.m_integer := i |}, with_rx l s).
Proof.
  intros Hb. read_one_byte. rewrite Hb. reflexivity.
Qed.

(** Leading bytes that are no digits are read and dropped, one a call. *)
Lemma integer_polls_prefix (pre l : list byte) (i : Z) (n : nat) :
  Forall (fun b => isdigit b = false) pre ->
  integer_polls (length pre + n)
    {| ReadInteger.m_finished := false; ReadInteger.m_found_digit := false;
       ReadInteger.m_integer := i |} (with_rx (pre ++ l) s)
  = let '(bs, r, s') :=
      integer_polls n
        {| ReadInteger.m_finished := false; ReadInteger.m_found_digit := false;
           ReadInteger.m_integer := i |} (with_rx l s) in
    (repeat false (length pre) ++ bs, r, s').
Proof.
  induction 1 as [|b pre Hb _ IH].
  - cbn. destruct (integer_polls n _ _) as [[bs r] s']. reflexivity.
  - cbn [length Nat.add app integer_polls].
    rewrite integer_done_skip by assumption. rewrite IH.
    destruct (integer_polls n _ _) as [[bs r] s']. reflexivity.
Qed.

(** The digits are read and accumulated, one a call. *)
Lemma integer_polls_digits (ds l : list byte) (f : bool) (i : Z) (n : nat) :
  Forall (fun b => isdigit b = true) ds ->
  integer_polls (length ds + n)
    {| ReadInteger.m_finished := false; ReadInteger.m_found_digit := f;
       ReadInteger.m_integer := i |} (with_rx (ds ++ l) s)
  = let '(bs, r, s') :=
      integer_polls n
        {| ReadInteger.m_finished := false;
           ReadInteger.m_found_digit := match ds with [] => f | _ => true end;
           ReadInteger.m_integer := accumulate ds i |} (with_rx l s) in
    (repeat false (length ds) ++ bs, r, s').
Proof.
  intros H. revert f i. induction H as [|b ds Hb _ IH]; intros f i.
  - cbn. destruct (integer_polls n _ _) as [[bs r] s']. reflexivity.
  - cbn [length Nat.add app integer_polls].
    rewrite integer_done_digit by assumption. rewrite IH.
    unfold accumulate. cbn [fold_left].
    replace (match ds with [] => true | _ :: _ => true end) with true
      by (destruct ds; reflexivity).
    destruct (integer_polls n _ _) as [[bs r] s']. reflexivity.
Qed.

End IntegerReader.

(** The 32-bit accumulator holds the number modulo 2^32. *)
Lemma accumulate_mod (ds : list byte) (i j : Z) :
  i mod 2 ^ 32 = j mod 2 ^ 32 ->
  accumulate ds i mod 2 ^ 32
  = fold_left (fun acc b => acc * 10 + (b - 48)) ds j mod 2 ^ 32.
Proof.
  revert i j. induction ds as [|b ds IH]; intros i j Hij; cbn [accumulate fold_left].
  - exact Hij.
  - apply IH. unfold wrap32.
    rewrite Z.mod_mod by lia.
    rewrite Z.add_mod_idemp_l by lia.
    rewrite <- (Z.add_mod_idemp_l (i * 10)) by lia.
    rewrite <- (Z.add_mod_idemp_l (j * 10)) by lia.
    rewrite <- (Z.mul_mod_idemp_l i) by lia.
    rewrite <- (Z.mul_mod_idemp_l j) by lia.
    rewrite Hij. reflexivity.
Qed.

Lemma accumulate_wrapped (ds : list byte) (i : Z) :
  ds <> [] -> accumulate ds i = accumulate ds i mod 2 ^ 32.
Proof.
  intros Hds. destruct (exists_last Hds) as [ds' [b ->]].
  unfold accumulate. rewrite fold_left_app. cbn [fold_left].
  unfold wrap32. rewrite Z.mod_mod by lia. reflexivity.
Qed.

Lemma accumulate_decimal (ds : list byte) :
  ds <> [] -> accumulate ds 0 = decimal_value ds mod 2 ^ 32.
Proof.
  intros Hds. rewrite accumulate_wrapped by assumption.
  apply accumulate_mod. reflexivity.
Qed.

(** C8 (as amended): after [restart], on a stream of non-digit bytes
    [pre], then 1 to 10 digits [ds], then a non-digit byte [t], the
    integer reader answers false to every call but the last of
    [length pre + length ds + 1] calls and true to that one, has then read
    exactly [pre], [ds] and [t], and its value is the number [ds] denotes
    modulo 2^32, which is that number whenever it is below 2^32. *)
Theorem C8_read_integer_value
  (s : serial) (r0 : ReadInteger.t) (pre ds rest : list byte) (t : byte) :
  Forall (fun b => isdigit b = false) pre ->
  Forall (fun b => isdigit b = true) ds ->
  (1 <= length ds <= 10)%nat ->
  isdigit t = false ->
  rx s = pre ++ ds ++ t :: rest ->
  let k := (length pre + length ds + 1)%nat in
  let '(answers, r, s') := integer_polls k (ReadInteger.restart r0) s in
  answers = repeat false (k - 1) ++ [true] /\
  s' = with_rx rest s /\
  ReadInteger.get r = decimal_value ds mod 2 ^ 32 /\
  (decimal_value ds < 2 ^ 32 -> ReadInteger.get r = decimal_value ds).
Proof.
  intros Hpre Hds Hlen Ht Hrx k. subst k.
  rewrite <- (with_rx_id s), Hrx. unfold ReadInteger.restart.
  rewrite <- Nat.add_assoc.
  rewrite integer_polls_prefix by assumption.
  rewrite integer_polls_digits by assumption.
  assert (Hne : ds <> []) by (destruct ds; [cbn in Hlen; lia | discriminate]).
  replace (match ds with [] => false | _ :: _ => true end) with true
    by (destruct ds; [congruence | reflexivity]).
  cbn [integer_polls]. rewrite integer_done_terminator by assumption.
  assert (Hval : accumulate ds 0 = decimal_value ds mod 2 ^ 32)
    by (apply accumulate_decimal; assumption).
  assert (Hnonneg : 0 <= decimal_value ds).
  { unfold decimal_value.
    assert (G : forall l a, Forall (fun b => isdigit b = true) l -> 0 <= a ->
                0 <= fold_left (fun acc b => acc * 10 + (b - 48)) l a).
    { induction l as [|b l IH]; intros a Hl Ha; cbn [fold_left]; [exact Ha|].
      inversion Hl; subst. apply IH; [assumption|].
      unfold isdigit in *. lia. }
    apply G; [assumption | lia]. }
  repeat split.
  - rewrite app_assoc. f_equal.
    rewrite <- repeat_app. f_equal. lia.
  - cbn [ReadInteger.get ReadInteger.m_integer]. exact Hval.
  - intros Hlt. cbn [ReadInteger.get ReadInteger.m_integer].
    rewrite Hval. apply Z.mod_small. lia.
Qed.

(* ------------------------------------------------------------------ *)
(** ** The scan-for-sequence reader *)

Section CursorPolicy.

Variable seq : list byte.

Lemma advance_done (b : byte) : advance seq (length seq) b = length seq.
Proof. unfold advance. rewrite Nat.eqb_refl. reflexivity. Qed.

Lemma cursor_done (stream : list byte) :
  cursor_after seq stream (length seq) = length seq.
Proof.
  unfold cursor_after.
  induction stream as [|b stream IH]; cbn [fold_left]; [reflexivity|].
  rewrite advance_done. exact IH.
Qed.

Lemma advance_le (i : nat) (b : byte) :
  (i <= length seq)%nat -> (advance seq i b <= length seq)%nat.
Proof.
  intros Hi. unfold advance.
  destruct (Nat.eqb_spec i (length seq)); [lia|].
  destruct (_ =? _); lia.
Qed.

Lemma advance_match (i : nat) (b : byte) :
  (i < length seq)%nat -> nth i seq 0 = b -> advance seq i b = S i.
Proof.
  intros Hi Hb. unfold advance.
  destruct (Nat.eqb_spec i (length seq)); [lia|].
  rewrite Hb, Z.eqb_refl. reflexivity.
Qed.

Lemma advance_mismatch (i : nat) (b : byte) :
  (i < length seq)%nat -> nth i seq 0 <> b -> advance seq i b = O.
Proof.
  intros Hi Hb. unfold advance.
  destruct (Nat.eqb_spec i (length seq)); [lia|].
  destruct (Z.eqb_spec (nth i seq 0) b); congruence.
Qed.

(** From cursor [length a] the rest [b] of the terminator [a ++ b] is
    matched to its end. *)
Lemma cursor_matches (a b : list byte) :
  seq = a ++ b -> cursor_after seq b (length a) = length seq.
Proof.
  revert a. induction b as [|x b IH]; intros a Hseq.
  - subst seq. rewrite app_nil_r. reflexivity.
  - unfold cursor_after. cbn [fold_left].
    assert (Hadv : advance seq (length a) x = length (a ++ [x])).
    { unfold advance. subst seq.
      rewrite length_app. cbn [length].
      destruct (Nat.eqb_spec (length a) (length a + S (length b))); [lia|].
      rewrite app_nth2 by lia. rewrite Nat.sub_diag. cbn [nth].
      rewrite Z.eqb_refl. rewrite length_app. cbn [length]. lia. }
    rewrite Hadv. apply IH. rewrite <- app_assoc. exact Hseq.
Qed.

Lemma firstn_succ_nth (l : list byte) (c : nat) :
  (c < length l)%nat -> firstn (S c) l = firstn c l ++ [nth c l 0].
Proof.
  revert c. induction l as [|x l IH]; intros c Hc; cbn [length] in Hc; [lia|].
  destruct c as [|c]; [reflexivity|].
  cbn [firstn nth app]. f_equal. apply IH. lia.
Qed.

(** Where the cursor stands, the bytes before it are the start of the
    terminator, and they begin where the cursor was 0. *)
Lemma cursor_invariant (stream : list byte) :
  let c := cursor_after seq stream 0 in
  (c <= length seq)%nat /\
  exists i, (i + c <= length stream)%nat /\
            cursor_after seq (firstn i stream) 0 = O /\
            firstn c (skipn i stream) = firstn c seq /\
            (c < length seq -> i + c = length stream)%nat.
Proof.
  induction stream as [|b stream IH] using rev_ind.
  - cbn. split; [lia|]. exists O. cbn. repeat split; lia.
  - cbn zeta in *. destruct IH as [Hle [i (Hi & H0 & Hm & Hend)]].
    unfold cursor_after in *. rewrite fold_left_app. cbn [fold_left].
    set (c := fold_left (advance seq) stream O) in *.
    split; [apply advance_le; exact Hle|].
    destruct (Nat.eq_dec c (length seq)) as [Hc|Hc].
    + rewrite Hc, advance_done, <- Hc.
      exists i. rewrite length_app. cbn [length].
      rewrite firstn_app, skipn_app.
      replace (i - length stream)%nat with O by lia.
      change (firstn O [b]) with (@nil byte). change (skipn O [b]) with [b].
      rewrite app_nil_r. rewrite firstn_app.
      rewrite length_skipn.
      replace (c - (length stream - i))%nat with O by lia.
      change (firstn O [b]) with (@nil byte). rewrite app_nil_r.
      repeat split; try assumption; lia.
    + assert (Hlt : (c < length seq)%nat) by lia.
      specialize (Hend Hlt).
      destruct (Z.eq_dec (nth c seq 0) b) as [Hb|Hb].
      * rewrite advance_match by assumption.
        exists i. rewrite length_app. cbn [length].
        rewrite firstn_app, skipn_app.
        replace (i - length stream)%nat with O by lia.
        change (firstn O [b]) with (@nil byte). change (skipn O [b]) with [b].
        rewrite app_nil_r.
        repeat split; try assumption; try lia.
        rewrite firstn_all2
          by (rewrite length_app, length_skipn; cbn [length]; lia).
        rewrite firstn_succ_nth by assumption. rewrite Hb. f_equal.
        rewrite <- Hm. symmetry. apply firstn_all2.
        rewrite length_skipn. lia.
      * rewrite advance_mismatch by assumption.
        exists (length (stream ++ [b])). rewrite firstn_all.
        rewrite fold_left_app. cbn [fold_left]. fold c.
        rewrite advance_mismatch by assumption.
        repeat split; try lia.
Qed.

(** The cursor ends on [length seq] exactly when the terminator stands in
    the stream at a position where the cursor was 0. *)
Lemma cursor_complete_iff (stream : list byte) :
  cursor_after seq stream 0 = length seq <->
  exists i, (i + length seq <= length stream)%nat /\
            cursor_after seq (firstn i stream) 0 = O /\
            firstn (length seq) (skipn i stream) = seq.
Proof.
  split.
  - intros Hc. destruct (cursor_invariant stream) as [_ [i (Hi & H0 & Hm & _)]].
    rewrite Hc in *. exists i. rewrite firstn_all in Hm. auto.
  - intros [i (Hi & H0 & Hm)].
    rewrite <- (firstn_skipn i stream). unfold cursor_after in *.
    rewrite fold_left_app, H0.
    rewrite <- (firstn_skipn (length seq) (skipn i stream)), Hm.
    rewrite fold_left_app.
    change (fold_left (advance seq) seq O)
      with (cursor_after seq seq (length (@nil byte))).
    rewrite (cursor_matches [] seq eq_refl).
    apply cursor_done.
Qed.

End CursorPolicy.

Section SequenceReader.

Import CommandAndFindResponse.

Variable m : memory.

(** Once the cursor is at the end, [done] answers true and touches
    neither the reader nor the port. *)
Lemma done_complete (c : t) (s : serial) :
  m_search_index c = length (m_sequence c) -> done c m s = (true, c, s).
Proof.
  intros H. unfold done. rewrite H, Nat.eqb_refl. reflexivity.
Qed.

(** Before that, a call with a byte at hand reads this one byte and moves
    the cursor: one further on a match, back to 0 otherwise. *)
Lemma done_reads_one (c : t) (s : serial) (b : byte) (l : list byte) :
  m_search_index c <> length (m_sequence c) ->
  rx s = b :: l ->
  exists c' s',
    done c m s = (false, c', s') /\
    rx s' = l /\
    m_sequence c' = m_sequence c /\
    m_command c' = m_command c /\
    m_search_index c' =
      (if nth (m_search_index c) (m_sequence c) 0 =? b
       then S (m_search_index c) else O).
Proof.
  intros Hidx Hrx. unfold done.
  destruct (Nat.eqb_spec (m_search_index c) (length (m_sequence c)));
    [contradiction|].
  set (s1 := if m_sent_command c then s else serial_write _ s).
  assert (Hrx1 : rx s1 = b :: l) by (subst s1; destruct (m_sent_command c); exact Hrx).
  unfold bytes_available, serial_read. rewrite Hrx1. cbn [length].
  replace (1 <=? Z.of_nat (S (length l))) with true
    by (symmetry; apply Z.leb_le; lia).
  change (Z.to_nat 1) with 1%nat. cbn [firstn skipn nth].
  eexists _, _. split; [reflexivity|]. cbn. auto.
Qed.

Lemma fed_tick_complete (c : t) (s : serial) (b : byte) :
  m_search_index c = length (m_sequence c) ->
  fed_tick m (c, s) b = (c, receive [b] s).
Proof.
  intros H. unfold fed_tick. cbn [fst snd].
  rewrite done_complete by assumption. reflexivity.
Qed.

Lemma fed_tick_advance (c : t) (s : serial) (b : byte) :
  m_search_index c <> length (m_sequence c) ->
  rx s = [] ->
  let '(c', s') := fed_tick m (c, s) b in
  m_sequence c' = m_sequence c /\
  m_search_index c' = advance (m_sequence c) (m_search_index c) b /\
  rx s' = [].
Proof.
  intros Hidx Hrx. unfold fed_tick. cbn [fst snd].
  destruct (@done_reads_one c (receive [b] s) b [] Hidx) as (c' & s' & Hd & H).
  { cbn. rewrite Hrx. reflexivity. }
  rewrite Hd. destruct H as (Hr & Hs & _ & Hi).
  repeat split; try assumption.
  rewrite Hi. unfold advance.
  destruct (Nat.eqb_spec (m_search_index c) (length (m_sequence c)));
    [contradiction | reflexivity].
Qed.

(** The reader's cursor follows the reset-to-zero policy over the stream;
    as long as the terminator is not matched, every byte fed is read. *)
Lemma feed_cursor (stream : list byte) (c : t) (s : serial) :
  (m_search_index c <> length (m_sequence c) -> rx s = []) ->
  let '(c', s') := feed m stream c s in
  m_sequence c' = m_sequence c /\
  m_search_index c'
  = cursor_after (m_sequence c) stream (m_search_index c) /\
  (m_search_index c' <> length (m_sequence c') -> rx s' = []).
Proof.
  revert c s. induction stream as [|b stream IH]; intros c s Hrx.
  - cbn. auto.
  - unfold feed. cbn [fold_left].
    destruct (Nat.eq_dec (m_search_index c) (length (m_sequence c))) as [Hc|Hc].
    + rewrite fed_tick_complete by assumption.
      change (fold_left (fed_tick m) stream (c, receive [b] s))
        with (feed m stream c (receive [b] s)).
      specialize (IH c (receive [b] s)).
      destruct (feed m stream c (receive [b] s)) as [c' s'].
      destruct IH as (Hs & Hi & Hr); [intros; contradiction|].
      repeat split; try assumption.
      rewrite Hi. unfold cursor_after. cbn [fold_left]. f_equal.
      unfold advance. rewrite Hc, Nat.eqb_refl. reflexivity.
    + pose proof (@fed_tick_advance c s b Hc (Hrx Hc)) as Ht.
      destruct (fed_tick m (c, s) b) as [c1 s1].
      destruct Ht as (Hs1 & Hi1 & Hr1).
      change (fold_left (fed_tick m) stream (c1, s1)) with (feed m stream c1 s1).
      specialize (IH c1 s1).
      destruct (feed m stream c1 s1) as [c' s'].
      destruct IH as (Hs & Hi & Hr); [intros; assumption|].
      rewrite Hs1 in *. rewrite Hi1 in Hi.
      unfold cursor_after in *. cbn [fold_left]. auto.
Qed.

End SequenceReader.

(** C7: after [new_search(command, terminator)], with nothing unread on
    the port, and a stream fed a byte a call, the next call of [done]
    answers true exactly when the terminator stands in the stream at a
    position where the reader's cursor was 0; a call with the cursor short
    of the end reads one byte, and the cursor moves one further on a match
    and back to 0 on a mismatch; with the cursor at the end, [done]
    answers true and leaves reader and port as they are; an empty
    terminator is matched at once. *)
Theorem C7_scan_for_sequence
  (m : memory) (s : serial) (p_command : span) (p_sequence : list byte)
  (c0 : CommandAndFindResponse.t) (stream : list byte) :
  rx s = [] ->
  let c := CommandAndFindResponse.new_search p_command p_sequence c0 in
  (answer_after m stream c s = true <->
   exists i, (i + length p_sequence <= length stream)%nat /\
             cursor_before m stream i c s = O /\
             firstn (length p_sequence) (skipn i stream) = p_sequence) /\
  (forall c1 s1 b l,
      CommandAndFindResponse.m_search_index c1
        <> length (CommandAndFindResponse.m_sequence c1) ->
      rx s1 = b :: l ->
      exists c2 s2,
        CommandAndFindResponse.done c1 m s1 = (false, c2, s2) /\
        rx s2 = l /\
        CommandAndFindResponse.m_search_index c2 =
          (if nth (CommandAndFindResponse.m_search_index c1)
                  (CommandAndFindResponse.m_sequence c1) 0 =? b
           then S (CommandAndFindResponse.m_search_index c1) else O)) /\
  (forall c1 s1,
      CommandAndFindResponse.m_search_index c1
        = length (CommandAndFindResponse.m_sequence c1) ->
      CommandAndFindResponse.done c1 m s1 = (true, c1, s1)) /\
  (p_sequence = [] -> CommandAndFindResponse.done c m s = (true, c, s)).
Proof.
  intros Hrx c. repeat split.
  - intros Hans. unfold answer_after in Hans.
    pose proof (@feed_cursor m stream c s (fun _ => Hrx)) as Hfed.
    destruct (feed m stream c s) as [c' s'] eqn:Hfeed.
    destruct Hfed as (Hseq & Hidx & _).
    assert (Hfin : CommandAndFindResponse.m_search_index c'
                   = length (CommandAndFindResponse.m_sequence c')).
    { unfold CommandAndFindResponse.done in Hans.
      destruct (Nat.eqb_spec (CommandAndFindResponse.m_search_index c')
                  (length (CommandAndFindResponse.m_sequence c'))) as [E|E];
        [exact E|].
      destruct (1 <=? _) in Hans; cbn in Hans; discriminate. }
    rewrite Hseq, Hidx in Hfin.
    cbn [CommandAndFindResponse.new_search CommandAndFindResponse.m_sequence
         CommandAndFindResponse.m_search_index c] in Hfin.
    apply cursor_complete_iff in Hfin. destruct Hfin as [i (Hi & H0 & Hm)].
    exists i. repeat split; try assumption.
    unfold cursor_before.
    pose proof (@feed_cursor m (firstn i stream) c s (fun _ => Hrx)) as Hi'.
    destruct (feed m (firstn i stream) c s) as [ci si].
    destruct Hi' as (_ & Hidx' & _). cbn [fst]. rewrite Hidx'. exact H0.
  - intros [i (Hi & H0 & Hm)]. unfold answer_after.
    pose proof (@feed_cursor m stream c s (fun _ => Hrx)) as Hfed.
    destruct (feed m stream c s) as [c' s'] eqn:Hfeed.
    destruct Hfed as (Hseq & Hidx & _).
    rewrite done_complete; [reflexivity|].
    rewrite Hseq, Hidx.
    cbn [CommandAndFindResponse.new_search CommandAndFindResponse.m_sequence
         CommandAndFindResponse.m_search_index c].
    apply cursor_complete_iff. exists i. repeat split; try assumption.
    unfold cursor_before in H0.
    pose proof (@feed_cursor m (firstn i stream) c s (fun _ => Hrx)) as Hi'.
    destruct (feed m (firstn i stream) c s) as [ci si].
    destruct Hi' as (_ & Hidx' & _). cbn [fst] in H0. rewrite Hidx' in H0.
    exact H0.
  - intros c1 s1 b l Hidx Hrx1.
    destruct (@done_reads_one m c1 s1 b l Hidx Hrx1)
      as (c2 & s2 & Hd & Hr & _ & _ & Hi).
    exists c2, s2. auto.
  - intros c1 s1. apply done_complete.
  - intros ->. apply done_complete. reflexivity.
Qed.

(* ------------------------------------------------------------------ *)
(** ** Buffers and spans *)

Lemma length_store_at (buf src : list byte) (pos : nat) :
  length (store_at buf pos src) = length buf.
Proof.
  revert pos src. induction buf as [|x buf IH]; intros pos src; [reflexivity|].
  destruct pos as [|p]; cbn [store_at].
  - destruct src as [|y src]; cbn [length]; [reflexivity|].
    rewrite IH. reflexivity.
  - cbn [length]. rewrite IH. reflexivity.
Qed.

Lemma length_store (buf src : list byte) (pos : Z) :
  length (store buf pos src) = length buf.
Proof.
  unfold store. destruct (pos <? 0); [reflexivity | apply length_store_at].
Qed.

(** A write that fits replaces the bytes it covers and no other. *)
Lemma store_at_inside (buf src : list byte) (pos : nat) :
  (pos + length src <= length buf)%nat ->
  store_at buf pos src
  = firstn pos buf ++ src ++ skipn (pos + length src) buf.
Proof.
  revert pos src. induction buf as [|x buf IH]; intros pos src Hfit.
  - cbn [length] in Hfit. destruct pos, src; cbn [length] in *; try lia.
    reflexivity.
  - destruct pos as [|p]; cbn [store_at].
    + destruct src as [|y src]; [reflexivity|].
      cbn [length] in Hfit. cbn [firstn app length Nat.add skipn].
      f_equal. rewrite (IH O src) by (cbn; lia). reflexivity.
    + cbn [length] in Hfit. cbn [firstn app Nat.add skipn]. f_equal.
      apply IH. lia.
Qed.

Lemma store_inside (buf src : list byte) (pos : Z) :
  0 <= pos -> pos + Z.of_nat (length src) <= Z.of_nat (length buf) ->
  store buf pos src
  = firstn (Z.to_nat pos) buf ++ src
    ++ skipn (Z.to_nat pos + length src) buf.
Proof.
  intros Hpos Hfit. unfold store.
  destruct (Z.ltb_spec pos 0); [lia|].
  apply store_at_inside. lia.
Qed.

Lemma wrap_size_small (z : Z) : 0 <= z < 2 ^ 32 -> wrap_size z = z.
Proof. intros H. unfold wrap_size. apply Z.mod_small. exact H. Qed.

Lemma to_int_small (z : Z) : - 2 ^ 31 <= z < 2 ^ 31 -> to_int z = z.
Proof.
  intros H. unfold to_int. rewrite Z.mod_small by lia. lia.
Qed.

Lemma to_int_range (z : Z) : - 2 ^ 31 <= to_int z < 2 ^ 31.
Proof.
  unfold to_int. pose proof (Z.mod_pos_bound (z + 2 ^ 31) (2 ^ 32)). lia.
Qed.

Section BufferReader.

Import ReadIntoBuffer.

(** A call of [read_into_buffer::done] whose span lies in its buffer:
    what it takes from the port it writes inside the span, behind what was
    read before, and changes nothing else. *)
Lemma done_writes_inside (r : t) (m : memory) (s : serial) :
  base (m_memory r) = Packet \/ base (m_memory r) = Response ->
  span_in_bounds m (m_memory r) ->
  len (m_memory r) < 2 ^ 31 ->
  0 <= m_read_index r <= len (m_memory r) ->
  let '(fin, r', m', s') := done r m s in
  exists got,
    rx s = got ++ rx s' /\
    m_memory r' = m_memory r /\
    m_read_index r' = m_read_index r + Z.of_nat (length got) /\
    m_read_index r' <= len (m_memory r) /\
    (fin = true -> m_read_index r = len (m_memory r)) /\
    let start := Z.to_nat (off (m_memory r) + m_read_index r) in
    let old := region_bytes m (base (m_memory r)) in
    (start + length got <= length old)%nat /\
    region_bytes m' (base (m_memory r))
    = firstn start old ++ got ++ skipn (start + length got) old /\
    (base (m_memory r) = Packet -> response_mem m' = response_mem m) /\
    (base (m_memory r) = Response -> packet_mem m' = packet_mem m).
Proof.
  intros Hbase (Hoff & Hlen & Hfit) Hint Hidx. unfold done.
  rewrite wrap_size_small by lia.
  destruct (Z.eqb_spec (m_read_index r) (len (m_memory r))) as [Heq|Hne].
  - exists []. cbn [app length]. rewrite Z.add_0_r, Nat.add_0_r.
    rewrite firstn_skipn. repeat split; auto; try lia.
  - unfold serial_read.
    set (k := Z.to_nat (len (m_memory r) - m_read_index r)).
    exists (firstn k (rx s)). cbn [rx].
    assert (Hk : (length (firstn k (rx s)) <= k)%nat) by apply firstn_le_length.
    assert (Hk' : Z.of_nat k = len (m_memory r) - m_read_index r)
      by (subst k; lia).
    cbn [m_memory m_read_index].
    rewrite to_int_small by lia.
    split; [symmetry; apply firstn_skipn|].
    split; [reflexivity|]. split; [reflexivity|].
    split; [lia|]. split; [discriminate|].
    cbn zeta.
    assert (Hin : off (m_memory r) + m_read_index r
                  + Z.of_nat (length (firstn k (rx s)))
                  <= Z.of_nat (length (region_bytes m (base (m_memory r)))))
      by lia.
    split; [lia|].
    destruct Hbase as [Hb|Hb]; rewrite Hb in *; cbn [write_region region_bytes
      packet_mem response_mem] in *.
    + rewrite store_inside by lia. repeat split; congruence.
    + rewrite store_inside by lia. repeat split; congruence.
Qed.

End BufferReader.

(** C10: the span handed to the buffer reader on entry to
    reading_first_packet is the first N bytes of the 1460-byte packet
    buffer, N the announced length as it was read, and lies in the buffer
    exactly when N <= 1460; the span handed over on entry to
    read_packet_into_response is N bytes of the response buffer from the
    write cursor on and lies in the buffer exactly when cursor + N is at
    most the size of the response buffer; and a call of [get_status] in
    the buffer-reading mode whose span lies in its buffer writes what it
    reads from the port inside that span and nothing else. *)
Theorem C10_read_spans (d : esp8266) :
  well_formed d ->
  let N := ReadInteger.get (m_integer_reader d) in
  (m_state d = reading_first_packet ->
   let d' := transition_state d in
   m_read_state d' = into_buffer /\
   m_reader d'
   = {| ReadIntoBuffer.m_memory := {| base := Packet; off := 0; len := N |};
        ReadIntoBuffer.m_read_index := 0 |} /\
   (span_in_bounds (mem_of d') (ReadIntoBuffer.m_memory (m_reader d'))
    <-> N <= maximum_response_packet_size)) /\
  (m_state d = read_packet_into_response ->
   0 <= m_response_position d ->
   let d' := transition_state d in
   m_read_state d' = into_buffer /\
   m_reader d'
   = {| ReadIntoBuffer.m_memory :=
          {| base := Response; off := m_response_position d; len := N |};
        ReadIntoBuffer.m_read_index := 0 |} /\
   (span_in_bounds (mem_of d') (ReadIntoBuffer.m_memory (m_reader d'))
    <-> m_response_position d + N <= Z.of_nat (length (m_response d)))) /\
  (m_read_state d = into_buffer ->
   let sp := ReadIntoBuffer.m_memory (m_reader d) in
   let idx := ReadIntoBuffer.m_read_index (m_reader d) in
   base sp = Packet \/ base sp = Response ->
   span_in_bounds (mem_of d) sp ->
   len sp < 2 ^ 31 ->
   0 <= idx <= len sp ->
   let d' := get_status d in
   exists got,
     rx (m_serial d) = got ++ rx (m_serial d') /\
     ReadIntoBuffer.m_memory (m_reader d') = sp /\
     ReadIntoBuffer.m_read_index (m_reader d') = idx + Z.of_nat (length got) /\
     ReadIntoBuffer.m_read_index (m_reader d') <= len sp /\
     span_in_bounds (mem_of d') sp /\
     let start := Z.to_nat (off sp + idx) in
     let old := region_bytes (mem_of d) (base sp) in
     (start + length got <= length old)%nat /\
     region_bytes (mem_of d') (base sp)
     = firstn start old ++ got ++ skipn (start + length got) old /\
     (base sp = Packet -> m_response d' = m_response d) /\
     (base sp = Response -> m_packet d' = m_packet d)).
Proof.
  intros [Hp Hi Hpos Ht] N. subst N. unfold ReadInteger.get.
  split; [|split].
  - intros Hst. cbv zeta. unfold transition_state. rewrite Hst.
    cbn. split; [reflexivity|]. split; [reflexivity|].
    unfold span_in_bounds. cbn. rewrite Hp.
    change (Z.of_nat (Z.to_nat maximum_response_packet_size))
      with maximum_response_packet_size.
    unfold ReadInteger.get. lia.
  - intros Hst Hnn. cbv zeta. unfold transition_state. rewrite Hst.
    cbn. rewrite wrap_size_small by lia.
    split; [reflexivity|]. split; [reflexivity|].
    unfold span_in_bounds. cbn.
    unfold ReadInteger.get. lia.
  - cbv zeta. intros Hrs Hbase Hin Hlen Hidx.
    unfold get_status.
    set (d1 := if state_eqb (m_state d) reset then transition_state d else d).
    assert (H1 : m_read_state d1 = m_read_state d /\ m_reader d1 = m_reader d /\
                 mem_of d1 = mem_of d /\ m_serial d1 = m_serial d).
    { subst d1. destruct (state_eqb (m_state d) reset) eqn:E; [|auto].
      assert (m_state d = reset)
        by (destruct (m_state d); cbn in E; congruence).
      unfold transition_state. rewrite H. cbn. auto. }
    destruct H1 as (E1 & E2 & E3 & E4). rewrite E1, Hrs, E2, E3, E4.
    pose proof (@done_writes_inside (m_reader d) (mem_of d)
                  (m_serial d) Hbase Hin Hlen Hidx) as Hdone.
    destruct (ReadIntoBuffer.done _ _ _) as [[[fin r'] m'] s'].
    destruct Hdone as (got & Hrx & Hmem & Hix & Hle & _ & Hfit & Hbytes & Hresp & Hpack).
    assert (Hsame : forall x,
               (if fin then set_read_state read_complete x else x)
               = set_read_state (if fin then read_complete else m_read_state x) x)
      by (intros x; destruct fin; destruct x; reflexivity).
    rewrite Hsame. cbn.
    exists got. rewrite Hmem, Hix.
    assert (Hm' : {| packet_mem := packet_mem m'; response_mem := response_mem m' |}
                  = m') by (destruct m'; reflexivity).
    unfold mem_of. cbn. rewrite Hm'.
    destruct Hin as (Hin1 & Hin2 & Hin3).
    repeat split; try assumption; try tauto; try lia.
    rewrite Hbytes. rewrite !length_app, length_firstn, length_skipn.
    unfold mem_of in *. lia.
Qed.

(* ------------------------------------------------------------------ *)
(** ** Invariants of the driver *)

(** Case analysis of the conditions a transition tests. *)
Ltac split_transition :=
  unfold transition_state, enter_preparing_request, enter_parsing_header,
    enter_sending_request, snprintf, new_search, write;
  repeat match goal with
         | |- context [match m_state ?d with _ => _ end] =>
             destruct (m_state d) eqn:?
         | |- context [if ?c then _ else _] => destruct c eqn:?
         end.

Lemma transition_keeps_state (d : esp8266) :
  m_state (transition_state d) = m_state d.
Proof. split_transition; cbn; congruence. Qed.

Lemma transition_keeps_packet (d : esp8266) :
  m_packet (transition_state d) = m_packet d.
Proof. split_transition; reflexivity. Qed.

Lemma transition_keeps_size (d : esp8266) :
  length (m_response (transition_state d)) = length (m_response d).
Proof.
  split_transition; cbn [m_response set_response set_next_state set_read_state
    set_commander set_serial set_request_length set_header set_reader
    set_integer_reader set_response_position];
    rewrite ?length_store; reflexivity.
Qed.

Lemma transition_terminal (d : esp8266) :
  terminal (m_state d) = true -> transition_state d = d.
Proof.
  intros H. unfold transition_state.
  destruct (m_state d); cbn [terminal] in H; try discriminate H; reflexivity.
Qed.

Lemma transition_integer (d : esp8266) :
  0 <= ReadInteger.m_integer (m_integer_reader d) < 2 ^ 32 ->
  0 <= ReadInteger.m_integer (m_integer_reader (transition_state d)) < 2 ^ 32.
Proof. intros H. split_transition; cbn; solve [exact H | lia]. Qed.

Lemma transition_position (d : esp8266) :
  - 2 ^ 31 <= m_response_position d < 2 ^ 31 ->
  - 2 ^ 31 <= m_response_position (transition_state d) < 2 ^ 31.
Proof.
  intros H.
  split_transition;
    cbn [m_response_position set_response set_next_state set_read_state
      set_commander set_serial set_request_length set_header set_reader
      set_integer_reader set_response_position];
    solve [exact H | apply to_int_range].
Qed.

Lemma transition_well_formed (d : esp8266) :
  well_formed d -> well_formed (transition_state d).
Proof.
  intros [Hp Hi Hpos Ht]. split.
  - rewrite transition_keeps_packet. exact Hp.
  - apply transition_integer. exact Hi.
  - apply transition_position. exact Hpos.
  - rewrite transition_keeps_state. intros Hterm.
    rewrite transition_terminal by exact Hterm. auto.
Qed.

Lemma integer_done_range (r : ReadInteger.t) (s : serial) :
  0 <= ReadInteger.m_integer r < 2 ^ 32 ->
  0 <= ReadInteger.m_integer (snd (fst (ReadInteger.done r s))) < 2 ^ 32.
Proof.
  intros H. unfold ReadInteger.done, serial_read.
  repeat match goal with
         | |- context [if ?c then _ else _] => destruct c
         end; cbn [fst snd ReadInteger.m_integer]; try exact H.
  unfold wrap32. apply Z.mod_pos_bound. lia.
Qed.

Lemma buffer_done_packet (r : ReadIntoBuffer.t) (m : memory) (s : serial) :
  length (packet_mem (snd (fst (ReadIntoBuffer.done r m s))))
  = length (packet_mem m).
Proof.
  unfold ReadIntoBuffer.done, serial_read, write_region.
  destruct (_ =? _); cbn [fst snd]; [reflexivity|].
  destruct (base _); cbn [packet_mem]; rewrite ?length_store; reflexivity.
Qed.

Lemma get_status_well_formed (d : esp8266) :
  well_formed d -> well_formed (get_status d).
Proof.
  intros Hd. unfold get_status.
  set (d1 := if state_eqb (m_state d) reset then transition_state d else d).
  assert (H1 : well_formed d1)
    by (subst d1; destruct (state_eqb _ _);
        [apply transition_well_formed|]; assumption).
  clearbody d1. clear d Hd. destruct H1 as [Hp Hi Hpos Ht].
  destruct (m_read_state d1) eqn:Hrs.
  - destruct (CommandAndFindResponse.done _ _ _) as [[fin c] s].
    destruct fin; split; cbn; auto;
      intros Hterm; specialize (Ht Hterm); discriminate Ht.
  - pose proof (buffer_done_packet (m_reader d1) (mem_of d1) (m_serial d1)) as Hb.
    destruct (ReadIntoBuffer.done _ _ _) as [[[fin r] m] s].
    cbn [fst snd mem_of packet_mem] in Hb.
    destruct fin; split; cbn; auto; try congruence;
      intros Hterm; specialize (Ht Hterm); discriminate Ht.
  - pose proof (integer_done_range (m_integer_reader d1) (m_serial d1) Hi) as Hr.
    destruct (ReadInteger.done _ _) as [[fin r] s]. cbn [fst snd] in Hr.
    destruct fin; split; cbn; auto;
      intros Hterm; specialize (Ht Hterm); discriminate Ht.
  - apply transition_well_formed. split; cbn; auto.
Qed.

Lemma ticks_well_formed (n : nat) (d : esp8266) :
  well_formed d -> well_formed (ticks n d).
Proof.
  revert d. induction n as [|n IH]; intros d Hd; cbn [ticks]; [exact Hd|].
  apply IH, get_status_well_formed, Hd.
Qed.

Lemma step_well_formed (e : event) (d : esp8266) :
  well_formed d -> well_formed (step e d).
Proof.
  intros Hd. destruct e as [bs|n|r|ssid password|]; cbn [step].
  - destruct Hd. split; cbn; auto.
  - apply ticks_well_formed, Hd.
  - unfold request. apply transition_well_formed.
    destruct Hd. split; cbn; auto.
  - destruct Hd. split; cbn; auto.
  - destruct Hd. unfold driver_initialize.
    destruct (negb _); split; cbn; auto; discriminate.
Qed.

(** Every driver a caller can have is well formed. *)
Lemma reachable_well_formed (d : esp8266) : reachable d -> well_formed d.
Proof.
  induction 1 as [s ssid pw resp | e d _ IH].
  - split; cbn; try lia; try reflexivity; discriminate.
  - apply step_well_formed, IH.
Qed.

(* ------------------------------------------------------------------ *)
(** ** The terminal phases *)

Lemma set_state_same (d : esp8266) : set_state (m_state d) d = d.
Proof. destruct d; reflexivity. Qed.

Lemma terminal_idle (s : state) : terminal s = true -> idle s = true.
Proof. destruct s; cbn; congruence. Qed.

Lemma transition_idle (d : esp8266) :
  idle (m_state d) = true -> transition_state d = d.
Proof.
  intros H. unfold transition_state.
  destruct (m_state d); cbn [idle] in H; try discriminate H; reflexivity.
Qed.

Lemma settled_get_status (d : esp8266) : settled d -> get_status d = d.
Proof.
  intros (Hidle & Hnext & Hrs). unfold get_status.
  replace (state_eqb (m_state d) reset) with false
    by (destruct (m_state d); cbn in Hidle; try discriminate; reflexivity).
  rewrite Hrs, Hnext, set_state_same.
  apply transition_idle, Hidle.
Qed.

Lemma settled_ticks (n : nat) (d : esp8266) : settled d -> ticks n d = d.
Proof.
  intros Hd. induction n as [|n IH]; cbn [ticks]; [reflexivity|].
  rewrite settled_get_status by exact Hd. exact IH.
Qed.

(** A call of [get_status] that returns a terminal phase leaves the
    driver at rest. *)
Lemma get_status_settles (d : esp8266) :
  well_formed d ->
  terminal (m_state (get_status d)) = true ->
  settled (get_status d).
Proof.
  intros Hd. unfold get_status.
  set (d1 := if state_eqb (m_state d) reset then transition_state d else d).
  assert (H1 : well_formed d1)
    by (subst d1; destruct (state_eqb _ _);
        [apply transition_well_formed|]; assumption).
  clearbody d1. clear d Hd. destruct H1 as [_ _ _ Ht].
  destruct (m_read_state d1) eqn:Hrs.
  - destruct (CommandAndFindResponse.done _ _ _) as [[fin c] s].
    destruct fin; cbn; intros Hterm; specialize (Ht Hterm); discriminate Ht.
  - destruct (ReadIntoBuffer.done _ _ _) as [[[fin r] m] s].
    destruct fin; cbn; intros Hterm; specialize (Ht Hterm); discriminate Ht.
  - destruct (ReadInteger.done _ _) as [[fin r] s].
    destruct fin; cbn; intros Hterm; specialize (Ht Hterm); discriminate Ht.
  - rewrite transition_keeps_state. intros Hterm.
    rewrite transition_terminal by exact Hterm.
    cbn in *. repeat split; auto. apply terminal_idle, Hterm.
Qed.

Lemma quiet_run_settled (es : list event) (d0 d : esp8266) :
  Forall quiet es -> settled d -> same_but_rx d0 d ->
  settled (run es d) /\ same_but_rx d0 (run es d).
Proof.
  intros Hes. revert d. induction Hes as [|e es He _ IH]; intros d Hd Hsame.
  - cbn. auto.
  - unfold run. cbn [fold_left]. apply IH.
    + destruct e; cbn in He; try contradiction; cbn [step].
      * exact Hd.
      * rewrite settled_ticks by exact Hd. exact Hd.
    + destruct e; cbn in He; try contradiction; cbn [step].
      * unfold same_but_rx in *. rewrite Hsame. destruct d; reflexivity.
      * rewrite settled_ticks by exact Hd. exact Hsame.
Qed.

Lemma run_reachable (es : list event) (d : esp8266) :
  reachable d -> reachable (run es d).
Proof.
  revert d. induction es as [|e es IH]; intros d Hd; [exact Hd|].
  unfold run. cbn [fold_left]. apply IH. constructor. exact Hd.
Qed.

(** ** Defined calls *)

Lemma span_inside_spec (m : memory) (sp : span) :
  span_inside m sp = true <-> span_in_bounds m sp.
Proof.
  unfold span_inside, span_in_bounds.
  rewrite !andb_true_iff, !Z.leb_le. tauto.
Qed.

Lemma defined_reachable_reachable (d : esp8266) :
  defined_reachable d -> reachable d.
Proof. induction 1; constructor; assumption. Qed.

Lemma run_defined_reachable (es : list event) (d : esp8266) :
  defined_reachable d -> run_defined es d = true ->
  defined_reachable (run es d).
Proof.
  revert d. induction es as [|e es IH]; intros d Hd Hes; [exact Hd|].
  cbn [run_defined] in Hes. apply andb_prop in Hes. destruct Hes as [He Hes].
  unfold run. cbn [fold_left]. apply IH; [|exact Hes].
  constructor; assumption.
Qed.

Lemma run_defined_app (es es' : list event) (d : esp8266) :
  run_defined (es ++ es') d
  = run_defined es d && run_defined es' (run es d).
Proof.
  revert d. induction es as [|e es IH]; intros d; cbn [app run_defined].
  - reflexivity.
  - rewrite IH, andb_assoc. reflexivity.
Qed.

(** A driver at rest touches no buffer. *)
Lemma settled_defined (d : esp8266) :
  settled d -> get_status_defined d = true.
Proof.
  intros (Hidle & Hnext & Hrs). unfold get_status_defined.
  replace (state_eqb (m_state d) reset) with false
    by (destruct (m_state d); cbn in Hidle; try discriminate; reflexivity).
  rewrite Hrs, Hnext. unfold transition_defined. cbn [m_state set_state].
  destruct (m_state d); cbn in Hidle; try discriminate; reflexivity.
Qed.

Lemma settled_ticks_defined (n : nat) (d : esp8266) :
  settled d -> ticks_defined n d = true.
Proof.
  intros Hd. induction n as [|n IH]; cbn [ticks_defined]; [reflexivity|].
  rewrite settled_defined, settled_get_status by exact Hd. exact IH.
Qed.

Lemma quiet_run_defined (es : list event) (d : esp8266) :
  Forall quiet es -> settled d -> run_defined es d = true.
Proof.
  intros Hes. revert d. induction Hes as [|e es He Hes IH]; intros d Hd.
  - reflexivity.
  - cbn [run_defined].
    destruct (@quiet_run_settled [e] d d (Forall_cons _ He (Forall_nil _))
                Hd eq_refl) as [Hd' _].
    unfold run in Hd'. cbn [fold_left] in Hd'.
    rewrite (IH _ Hd'), andb_true_r.
    destruct e; cbn in He; try contradiction; cbn [step_defined].
    + reflexivity.
    + apply settled_ticks_defined, Hd.
Qed.

(** The call of [get_status] that returns a terminal phase touches no
    buffer. *)
Lemma terminal_call_defined (d : esp8266) :
  well_formed d ->
  terminal (m_state (get_status d)) = true ->
  get_status_defined d = true.
Proof.
  intros Hd. unfold get_status, get_status_defined.
  set (d1 := if state_eqb (m_state d) reset then transition_state d else d).
  assert (H1 : well_formed d1)
    by (subst d1; destruct (state_eqb _ _);
        [apply transition_well_formed|]; assumption).
  clearbody d1. clear d Hd. destruct H1 as [_ _ _ Ht].
  destruct (m_read_state d1) eqn:Hrs.
  - destruct (CommandAndFindResponse.done _ _ _) as [[fin c] s].
    destruct fin; cbn; intros Hterm; specialize (Ht Hterm); discriminate Ht.
  - destruct (ReadIntoBuffer.done _ _ _) as [[[fin r] m] s].
    destruct fin; cbn; intros Hterm; specialize (Ht Hterm); discriminate Ht.
  - reflexivity.
  - rewrite transition_keeps_state. cbn [m_state set_state]. intros Hterm.
    unfold transition_defined. cbn [m_state set_state].
    destruct (m_next_state d1); cbn in Hterm; try discriminate; reflexivity.
Qed.

(** C9: a driver the caller can have without a call that left the
    buffers (every announced length fitted the buffer it was read into).
    When a call of [get_status] on it returns Complete or Failure, then
    after any further calls of [get_status], with bytes arriving in
    between or not, and no call of [request], [change_access_point] or
    [initialize], the phase and the contents of the response buffer are
    the same, and so are the readers, the state machine and what was
    written to the port; none of these calls touches a buffer. *)
Theorem C9_terminal_phases_sticky (d : esp8266) (es : list event) :
  defined_reachable d ->
  terminal (m_state (get_status d)) = true ->
  Forall quiet es ->
  let d1 := get_status d in
  let d2 := run es d1 in
  m_state d2 = m_state d1 /\
  response d2 = response d1 /\
  m_next_state d2 = m_next_state d1 /\
  m_read_state d2 = m_read_state d1 /\
  m_commander d2 = m_commander d1 /\
  m_reader d2 = m_reader d1 /\
  m_integer_reader d2 = m_integer_reader d1 /\
  m_packet d2 = m_packet d1 /\
  tx (m_serial d2) = tx (m_serial d1) /\
  get_status_defined d = true /\
  run_defined es d1 = true.
Proof.
  intros Hreach Hterm Hes d1 d2.
  assert (Hwf : well_formed d)
    by (apply reachable_well_formed, defined_reachable_reachable, Hreach).
  assert (Hsettled : settled d1)
    by (apply get_status_settles; [exact Hwf | exact Hterm]).
  destruct (@quiet_run_settled es d1 d1 Hes Hsettled eq_refl) as [_ Hsame].
  pose proof (terminal_call_defined Hwf Hterm) as Hcall.
  pose proof (quiet_run_defined Hes Hsettled) as Hrun.
  fold d2 in Hsame. unfold same_but_rx in Hsame. symmetry in Hsame.
  clearbody d1 d2. unfold response.
  repeat split.
  - exact (f_equal m_state Hsame).
  - exact (f_equal m_response Hsame).
  - exact (f_equal m_next_state Hsame).
  - exact (f_equal m_read_state Hsame).
  - exact (f_equal m_commander Hsame).
  - exact (f_equal m_reader Hsame).
  - exact (f_equal m_integer_reader Hsame).
  - exact (f_equal m_packet Hsame).
  - exact (f_equal (fun x => tx (m_serial x)) Hsame).
  - exact Hcall.
  - exact Hrun.
Qed.

(* ------------------------------------------------------------------ *)
(** ** Parsing the header of the first packet *)

Lemma is_prefix_length (p l : list byte) :
  is_prefix p l = true -> (length p <= length l)%nat.
Proof.
  revert l. induction p as [|x p IH]; intros l H; cbn [length]; [lia|].
  destruct l as [|y l]; cbn [is_prefix] in H; [discriminate|].
  apply andb_prop in H. destruct H as [_ H]. apply IH in H.
  cbn [length]. lia.
Qed.

Lemma find_from_bound (needle hay : list byte) (i j : Z) :
  find_from needle hay i = Some j ->
  i <= j /\ j - i + Z.of_nat (length needle) <= Z.of_nat (length hay).
Proof.
  revert i. induction hay as [|x hay IH]; intros i H; cbn [find_from] in H.
  - destruct (is_prefix needle []) eqn:E; [|discriminate].
    injection H as <-. apply is_prefix_length in E. lia.
  - destruct (is_prefix needle (x :: hay)) eqn:E.
    + injection H as <-. apply is_prefix_length in E. lia.
    + apply IH in H. cbn [length]. lia.
Qed.

(** The header ends inside the packet buffer. *)
Lemma header_length_bound (p : list byte) :
  0 <= header_length (response_header_from_string p) <= Z.of_nat (length p).
Proof.
  unfold response_header_from_string.
  repeat match goal with
         | |- context [match ?x with Some _ => _ | None => _ end] =>
             destruct x eqn:?
         end; cbn [header_length failure_header]; try lia.
  match goal with
  | H : find end_of_header p = Some _ |- _ =>
      apply find_from_bound in H; lia
  end.
Qed.

Lemma digits_value_nonneg (l : list byte) (acc : Z) :
  0 <= acc -> 0 <= digits_value l acc.
Proof.
  revert acc. induction l as [|b l IH]; intros acc Hacc; cbn [digits_value];
    [exact Hacc|].
  destruct (isdigit b) eqn:Hb; [|exact Hacc].
  apply IH. unfold isdigit in Hb. lia.
Qed.

Lemma scan_unsigned_range (l : list byte) (v : Z) :
  scan_unsigned l = Some v -> 0 <= v < 2 ^ 32.
Proof.
  unfold scan_unsigned.
  set (l1 := skip_spaces l).
  assert (G : forall (neg : bool) (l2 : list byte),
             match l2 with
             | [] => None
             | b :: _ =>
                 if isdigit b
                 then Some (if 2 ^ 32 - 1 <? digits_value l2 0
                            then 2 ^ 32 - 1
                            else if neg then wrap32 (- digits_value l2 0)
                                 else digits_value l2 0)
                 else None
             end = Some v -> 0 <= v < 2 ^ 32).
  { intros neg l2 H.
    pose proof (@digits_value_nonneg l2 0 ltac:(lia)) as Hnn.
    remember (digits_value l2 0) as dv eqn:Hdv. clear Hdv.
    destruct l2 as [|b l2]; [discriminate|].
    destruct (isdigit b); [|discriminate].
    assert (Hv : (if 2 ^ 32 - 1 <? dv then 2 ^ 32 - 1
                  else if neg then wrap32 (- dv) else dv) = v)
      by congruence.
    rewrite <- Hv. clear H Hv.
    destruct (Z.ltb_spec (2 ^ 32 - 1) dv); [lia|].
    destruct neg; [|lia].
    unfold wrap32. apply Z.mod_pos_bound. lia. }
  assert (Hcase :
             (exists r, l1 = 45 :: r) \/ (exists r, l1 = 43 :: r) \/
             match l1 with
             | 45 :: r => (true, r)
             | 43 :: r => (false, r)
             | _ => (false, l1)
             end = (false, l1)).
  { destruct l1 as [|b r]; [auto|].
    destruct (Z.eq_dec b 45) as [->|H45]; [left; eauto|].
    destruct (Z.eq_dec b 43) as [->|H43]; [right; left; eauto|].
    right. right.
    destruct b as [|q|q]; try reflexivity.
    do 6 (destruct q as [q|q|]; try reflexivity); congruence. }
  destruct Hcase as [[r Hr]|[[r Hr]|Hr]]; rewrite Hr.
  - apply (G true r).
  - apply (G false r).
  - apply (G false l1).
Qed.

(** The numbers of a parsed header are those of 32-bit members. *)
Lemma header_numbers_range (p : list byte) :
  let h := response_header_from_string p in
  0 <= status_code h < 2 ^ 32 /\ 0 <= content_length h < 2 ^ 32.
Proof.
  cbv zeta. unfold response_header_from_string.
  repeat match goal with
         | |- context [match ?x with Some _ => _ | None => _ end] =>
             destruct x eqn:?
         end; cbn [status_code content_length failure_header]; try lia.
  repeat match goal with
         | H : scan_unsigned _ = Some _ |- _ =>
             apply scan_unsigned_range in H
         end.
  lia.
Qed.

Lemma length_slice_inside (l : list byte) (pos n : Z) :
  0 <= pos -> 0 <= n -> pos + n <= Z.of_nat (length l) ->
  Z.of_nat (length (slice l pos n)) = n.
Proof.
  intros Hpos Hn Hfit. unfold slice.
  rewrite length_firstn, length_skipn. lia.
Qed.

(** A copy to the start of a buffer that holds it. *)
Lemma store_front (buf src : list byte) :
  (length src <= length buf)%nat ->
  store buf 0 src = src ++ skipn (length src) buf.
Proof.
  intros H. rewrite store_inside by lia. reflexivity.
Qed.

(** C3 (as amended): on entry to parsing_header the header is parsed from
    the packet buffer, its two numbers being below 2^32 and followed by
    another byte of the buffer.  When the header is invalid or its
    content length exceeds the response buffer, the next phase is
    close_connection_failure and the response buffer is left as it is.
    Otherwise, when the range the code copies lies in the packet buffer
    (and, for the second copy, fits the response buffer), the next phase
    is close_connection exactly when the announced length N of the first
    packet is below 1460, and then the content_length bytes behind the
    header stand at the start of the response buffer, the rest of which is
    unchanged; when N is 1460, the N - header_length bytes behind the
    header, all that is left of the packet buffer, stand at the start of
    the response buffer, the write cursor is N - header_length, and the
    next phase is get_packet_length. *)
Theorem C3_parsing_header (d : esp8266) :
  well_formed d ->
  m_state d = parsing_header ->
  parse_defined (m_packet d) = true ->
  let h := response_header_from_string (m_packet d) in
  let N := ReadInteger.get (m_integer_reader d) in
  let d' := transition_state d in
  m_header d' = h /\
  (is_valid h = false \/ content_length h > Z.of_nat (length (m_response d)) ->
   m_next_state d' = close_connection_failure /\
   m_response d' = m_response d) /\
  (is_valid h = true ->
   content_length h <= Z.of_nat (length (m_response d)) ->
   copy_in_bounds d = true ->
   (m_next_state d' = close_connection <-> N < maximum_response_packet_size) /\
   (N < maximum_response_packet_size ->
    let body := slice (m_packet d) (header_length h) (content_length h) in
    Z.of_nat (length body) = content_length h /\
    m_response d' = body ++ skipn (length body) (m_response d) /\
    m_response_position d' = m_response_position d) /\
   (maximum_response_packet_size <= N ->
    let body := slice (m_packet d) (header_length h) (N - header_length h) in
    m_next_state d' = get_packet_length /\
    N = maximum_response_packet_size /\
    Z.of_nat (length body) = N - header_length h /\
    body = skipn (Z.to_nat (header_length h)) (m_packet d) /\
    m_response d' = body ++ skipn (length body) (m_response d) /\
    m_response_position d' = N - header_length h)).
Proof.
  intros [Hp Hi _ _] Hst _ h N d'. subst d'.
  unfold transition_state. rewrite Hst. unfold enter_parsing_header.
  cbn [m_header set_header m_integer_reader m_response m_packet].
  fold h. fold N.
  pose proof (header_length_bound (m_packet d)) as Hh. fold h in Hh.
  destruct (header_numbers_range (m_packet d)) as [_ Hcl]. fold h in Hcl.
  assert (Hsize : Z.of_nat (length (m_packet d)) = maximum_response_packet_size)
    by (rewrite Hp; reflexivity).
  assert (HN : 0 <= N < 2 ^ 32) by exact Hi.
  unfold copy_in_bounds. fold h. fold N. rewrite Hsize.
  destruct (is_valid h) eqn:Hv; cbn [negb].
  - destruct (Z.gtb_spec (content_length h) (Z.of_nat (length (m_response d))))
      as [Hbig|Hfit].
    + cbn. split; [reflexivity|]. split; [auto|]. intros _ Hle. lia.
    + destruct (Z.ltb_spec N maximum_response_packet_size) as [Hlt|Hge].
      * cbn [m_header m_next_state m_response m_response_position
             set_next_state set_response set_header].
        split; [reflexivity|]. split.
        { intros [H|H]; [discriminate | lia]. }
        intros _ _ Hcopy. apply Z.leb_le in Hcopy.
        split; [split; [intros _; exact Hlt | reflexivity]|].
        split; [|intros Hge; lia].
        intros _. set (body := slice _ _ _).
        assert (Hlen : Z.of_nat (length body) = content_length h)
          by (apply length_slice_inside; lia).
        split; [exact Hlen|]. split; [|reflexivity].
        apply store_front. lia.
      * cbn [m_header m_next_state m_response m_response_position
             set_next_state set_response set_header set_response_position].
        split; [reflexivity|]. split.
        { intros [H|H]; [discriminate | lia]. }
        intros _ _ Hcopy.
        apply andb_prop in Hcopy. destruct Hcopy as [Hcopy Hresp].
        apply andb_prop in Hcopy. destruct Hcopy as [Hhl Hmax].
        apply Z.leb_le in Hresp, Hhl, Hmax.
        assert (HNeq : N = maximum_response_packet_size) by lia.
        rewrite wrap_size_small
          by (unfold maximum_response_packet_size in *; lia).
        split; [split; [discriminate | lia]|].
        split; [intros Hlt; lia|].
        intros _. set (body := slice _ _ _).
        assert (Hlen : Z.of_nat (length body) = N - header_length h)
          by (apply length_slice_inside; lia).
        split; [reflexivity|]. split; [exact HNeq|].
        split; [exact Hlen|]. split; [|split].
        -- subst body. unfold slice. apply firstn_all2.
           rewrite length_skipn. lia.
        -- apply store_front. lia.
        -- apply to_int_small.
           unfold maximum_response_packet_size in *. lia.
  - cbn. split; [reflexivity|]. split; [auto|]. discriminate.
Qed.

(* ------------------------------------------------------------------ *)
(** ** The request pipeline on concrete runs *)

(** The association scenario: the three commands are sent and the driver
    comes to rest in connected_to_ap. *)
Example association_happy_path :
  let d := associated 128 in
  m_state d = connected_to_ap /\ connected d = true /\
  tx (m_serial d)
  = bytes_of_string "ATE0" ++ CRLF
    ++ bytes_of_string "AT+CWMODE=1" ++ CRLF
    ++ bytes_of_string "AT+CWJAP_CUR=" ++ [DQUOTE] ++ bytes_of_string "net"
    ++ [DQUOTE] ++ bytes_of_string "," ++ [DQUOTE] ++ bytes_of_string "pw"
    ++ [DQUOTE] ++ CRLF.
Proof. vm_compute. auto. Qed.

(** Closed goals are settled by running the driver. *)
Ltac by_evaluation := vm_compute; reflexivity.

Lemma ticks_succ (n : nat) (d : esp8266) :
  ticks (S n) d = ticks n (get_status d).
Proof. reflexivity. Qed.

Lemma stuck_ticks (d : esp8266) (n : nat) : get_status d = d -> ticks n d = d.
Proof.
  intros H. induction n as [|n IH]; cbn [ticks]; [reflexivity|].
  rewrite H. exact IH.
Qed.

(** The packet of the single-packet GET: its payload has 43 bytes. *)
Example single_packet_payload :
  ipd 85 (http_reply 5 (bytes_of_string "hello"))
  = bytes_of_string "+IPD,85:HTTP/1.1 200 OK" ++ CRLF
    ++ bytes_of_string "Content-Length: 5" ++ CRLF
    ++ CRLF ++ bytes_of_string "hello" /\
  length (http_reply 5 (bytes_of_string "hello")) = 43%nat.
Proof. vm_compute. auto. Qed.

(** The single-packet GET as the scenario has it, the packet announced as
    85 bytes: the payload has 43 bytes, the buffer reader waits for the
    other 42, and no number of calls of [get_status] reaches Complete. *)
Lemma C4_announced_85_never_completes :
  ~ exists n,
      m_state (ticks n (run (single_packet_get 85) (associated 128)))
      = complete.
Proof.
  intros [n H].
  rewrite stuck_ticks in H by by_evaluation.
  vm_compute in H. discriminate H.
Qed.

(** C4 (as amended): in the single-packet GET with the packet announced
    as the 43 bytes it has, the calls of [get_status] reach Complete, the
    parsed header has status code 200 and content length 5, and the first
    five bytes of the response buffer are [hello]. *)
Theorem C4_single_packet_get :
  let d := run (single_packet_get 43) (associated 128) in
  m_state d = complete /\
  status_code (m_header d) = 200 /\
  content_length (m_header d) = 5 /\
  firstn 5 (response d) = bytes_of_string "hello".
Proof. vm_compute. auto. Qed.

(** What [response] returns is the whole buffer of the caller, whatever
    the content length. *)
Example response_is_the_whole_buffer :
  let d := run (single_packet_get 43) (associated 128) in
  length (response d) = 128%nat /\
  response d
  = bytes_of_string "hello"
    ++ skipn 5 (format_request example_request) ++ repeat 0 (128 - 42).
Proof. vm_compute. auto. Qed.

(** A first packet without Content-Length, and one whose content length
    is one more than the response buffer holds: AT+CIPCLOSE is written and,
    once it is acknowledged, the phase is Failure. *)
Example malformed_header_fails :
  let payload := bytes_of_string "HTTP/1.1 200 OK" ++ CRLF ++ CRLF
                 ++ bytes_of_string "hello" in
  let d := run (connect example_request
                ++ [Poll 2; Rx ok_response; Rx (ipd 24 payload); Poll 20;
                    Rx ok_response; Poll 6]) (associated 128) in
  length payload = 24%nat /\
  m_state d = failure /\
  m_header d = failure_header.
Proof. vm_compute. auto. Qed.

Example body_too_large_fails :
  let payload := http_reply 129 (bytes_of_string "hello") in
  let d := run (connect example_request
                ++ [Poll 2; Rx ok_response; Rx (ipd 45 payload); Poll 20;
                    Rx ok_response; Poll 6]) (associated 128) in
  length payload = 45%nat /\
  content_length (m_header d) = 129 /\
  m_state d = failure.
Proof. vm_compute. auto. Qed.

(** C1: the entry to preparing_request for the example request.  After
    it AT+CIPSEND=42 is written, the phase is still preparing_request, the
    terminator in force is [+IPD,] and not [OK], the command to send is
    the formatted request, and the next phase is get_first_packet_length;
    over the whole GET the phase sending_request is never returned. *)
Theorem C1_preparing_request_falls_through :
  let d0 := run (connect example_request) (associated 128) in
  let d := get_status d0 in
  m_next_state d0 = preparing_request /\
  m_state d = preparing_request /\
  tx (m_serial d)
  = tx (m_serial d0) ++ bytes_of_string "AT+CIPSEND=42" ++ CRLF /\
  CommandAndFindResponse.m_sequence (m_commander d) = bytes_of_string "+IPD," /\
  CommandAndFindResponse.m_sequence (m_commander d) <> ok_response /\
  CommandAndFindResponse.m_command (m_commander d)
  = {| base := Response; off := 0; len := 42 |} /\
  m_next_state d = get_first_packet_length /\
  tx (m_serial (get_status d))
  = tx (m_serial d) ++ format_request example_request /\
  m_state (run (single_packet_get 43) (associated 128)) = complete /\
  ~ In sending_request
       (observed (single_packet_get 43) (associated 128)).
Proof.
  vm_compute. repeat split; try discriminate.
  intros H. repeat (destruct H as [H|H]; [discriminate H|]). exact H.
Qed.

(** C5: with a response buffer of 16 bytes the formatted request of 42
    bytes does not fit; the entry to preparing_request keeps the first 15
    bytes and a NUL, writes AT+CIPSEND=42 all the same, and the next phase
    is get_first_packet_length, not close_connection_failure. *)
Theorem C5_overflow_not_detected :
  let d0 := run (connect example_request) (associated 16) in
  let d := get_status d0 in
  length (format_request example_request) = 42%nat /\
  length (m_response d0) = 16%nat /\
  m_state d = preparing_request /\
  m_request_length d = 42 /\
  m_response d = firstn 15 (format_request example_request) ++ [0] /\
  tx (m_serial d)
  = tx (m_serial d0) ++ bytes_of_string "AT+CIPSEND=42" ++ CRLF /\
  m_next_state d = get_first_packet_length /\
  m_next_state d <> close_connection_failure.
Proof. vm_compute. repeat split; discriminate. Qed.

(** The one failure of formatting the driver does detect: a negative
    result of [snprintf].  Nothing is written to the port, and the next
    phase is close_connection_failure. *)
Lemma negative_length_fails (d : esp8266) :
  m_state d = preparing_request ->
  Z.of_nat (length (format_request (m_request d))) > INT_MAX ->
  let d' := transition_state d in
  m_next_state d' = close_connection_failure /\
  m_serial d' = m_serial d.
Proof.
  intros Hst Hbig. cbv zeta. unfold transition_state. rewrite Hst.
  unfold enter_preparing_request, snprintf.
  destruct (Z.gtb_spec (Z.of_nat (length (format_request (m_request d)))) INT_MAX);
    [|lia].
  cbn. auto.
Qed.

(** C2: a request for example.com is in flight, in phase
    preparing_request, when [request] is called for other.org.  The call
    runs the entry of preparing_request again: it writes AT+CIPSEND for
    the new request, on the connection to example.com, and the next phase
    is get_first_packet_length.  No AT+CIPSTART for other.org is written,
    and the phase stays preparing_request however often [get_status] is
    called. *)
Theorem C2_request_in_flight :
  let d0 := run (connect example_request ++ [Poll 2]) (associated 128) in
  let d := request other_request d0 in
  m_state d0 = preparing_request /\
  m_request d = other_request /\
  m_state d = preparing_request /\
  m_next_state d = get_first_packet_length /\
  tx (m_serial d)
  = tx (m_serial d0) ++ bytes_of_string "AT+CIPSEND=40" ++ CRLF /\
  forall n,
    m_state (ticks (S n) d) = preparing_request /\
    tx (m_serial (ticks (S n) d))
    = tx (m_serial d) ++ format_request other_request.
Proof.
  cbv zeta. do 5 (split; [by_evaluation|]).
  intros n. rewrite ticks_succ, stuck_ticks by by_evaluation.
  split; by_evaluation.
Qed.

(** X16: in every phase but connected_to_ap, complete and failure, the
    next phase [request] sets is overwritten before it returns. *)
Lemma request_overridden (r : request_t) (d : esp8266) :
  idle (m_state d) = true \/
  m_next_state (request r d) <> connecting_to_server.
Proof.
  unfold request.
  set (d1 := set_next_state connecting_to_server (set_request r d)).
  assert (Hst : m_state d1 = m_state d) by reflexivity.
  rewrite <- Hst. clearbody d1.
  split_transition; cbn; auto; right; discriminate.
Qed.

(** X15: from a phase at rest, [request] has the effect the driver
    documents: the next call of [get_status] enters connecting_to_server
    and writes AT+CIPSTART for the domain and port of the request. *)
Lemma request_when_settled (r : request_t) (d : esp8266) :
  settled d ->
  let d' := get_status (request r d) in
  m_state d' = connecting_to_server /\
  m_request d' = r /\
  tx (m_serial d')
  = tx (m_serial d)
    ++ (bytes_of_string "AT+CIPSTART=" ++ [DQUOTE]
        ++ bytes_of_string "TCP" ++ [DQUOTE]
        ++ bytes_of_string "," ++ [DQUOTE])
    ++ view (domain r) ++ ([DQUOTE] ++ bytes_of_string ",") ++ view (port r).
Proof.
  intros (Hidle & Hnext & Hrs). cbv zeta. unfold request.
  rewrite transition_idle by exact Hidle.
  unfold get_status. cbn [m_state set_next_state set_request].
  replace (state_eqb (m_state d) reset) with false
    by (destruct (m_state d); cbn in Hidle; try discriminate; reflexivity).
  cbn [m_read_state set_next_state set_request]. rewrite Hrs.
  cbn. rewrite <- !app_assoc. auto.
Qed.

(** C6: the driver is associated and at rest in connected_to_ap when
    [change_access_point] is called.  The credentials are stored, but
    whatever arrives and however often [get_status] is called afterwards,
    the phase stays connected_to_ap and nothing is written to the port: no
    AT+CWJAP_CUR with the new credentials. *)
Theorem C6_change_access_point_at_rest :
  let d0 := associated 128 in
  let d := change_access_point (bytes_of_string "other")
                               (bytes_of_string "secret") d0 in
  m_state d0 = connected_to_ap /\
  m_ssid d = bytes_of_string "other" /\
  m_password d = bytes_of_string "secret" /\
  forall (n : nat) (bs : list byte) (k : nat),
    let d' := ticks k (arrive bs (ticks n d)) in
    m_state d' = connected_to_ap /\
    tx (m_serial d') = tx (m_serial d0).
Proof.
  cbv zeta. do 3 (split; [by_evaluation|]).
  intros n bs k. rewrite (stuck_ticks n) by by_evaluation.
  rewrite settled_ticks
    by (split; [by_evaluation | split; by_evaluation]).
  split; by_evaluation.
Qed.

(** Called while the association is under way, in phase disable_echo,
    [change_access_point] makes the driver skip it: once ATE0 is
    acknowledged the phase is connected_to_ap, and neither AT+CWMODE nor
    AT+CWJAP_CUR was written. *)
Example change_access_point_during_association :
  let d := run [Poll 2;
                ChangeAccessPoint (bytes_of_string "other")
                                  (bytes_of_string "secret");
                Rx ok_response; Poll 6] (fresh_driver 128) in
  m_state d = connected_to_ap /\
  tx (m_serial d) = bytes_of_string "ATE0" ++ CRLF.
Proof. vm_compute. auto. Qed.

(* ------------------------------------------------------------------ *)
(** ** The theorems at concrete inputs *)

(** Well-formedness of a concrete driver, by running it. *)
Ltac well_formed_by_evaluation :=
  split;
  [ by_evaluation
  | vm_compute; split; [discriminate | reflexivity]
  | vm_compute; split; [discriminate | reflexivity]
  | vm_compute; congruence ].

Lemma fresh_reachable (size : nat) : reachable (fresh_driver size).
Proof.
  unfold fresh_driver, constructed.
  apply (reachable_step Initialize). constructor.
Qed.

Lemma associated_reachable (size : nat) : reachable (associated size).
Proof.
  unfold associated. apply run_reachable. apply fresh_reachable.
Qed.

Lemma fresh_defined_reachable (size : nat) :
  defined_reachable (fresh_driver size).
Proof.
  unfold fresh_driver, constructed.
  apply (defined_step Initialize); [constructor | reflexivity].
Qed.

Lemma associated_defined_reachable (size : nat) :
  defined_reachable (associated size).
Proof.
  unfold associated. apply run_defined_reachable.
  - apply fresh_defined_reachable.
  - by_evaluation.
Qed.

(** The integer reader on [,43:H]. *)
Lemma C8_read_integer_value_witness :
  let s := with_rx (bytes_of_string ",43:H") idle_port in
  let '(answers, r, s') :=
    integer_polls 4 (ReadInteger.restart ReadInteger.init) s in
  answers = [false; false; false; true] /\
  s' = with_rx (bytes_of_string "H") s /\
  ReadInteger.get r = 43.
Proof.
  pose proof (@C8_read_integer_value
                (with_rx (bytes_of_string ",43:H") idle_port)
                ReadInteger.init
                (bytes_of_string ",") (bytes_of_string "43")
                (bytes_of_string "H") 58) as H.
  cbv zeta in H.
  change (length (bytes_of_string ",") + length (bytes_of_string "43") + 1)%nat
    with 4%nat in H.
  cbv zeta.
  destruct (integer_polls 4 _ _) as [[answers r] s'].
  destruct H as (Ha & Hs & _ & Hv).
  - repeat constructor.
  - repeat constructor.
  - cbn. lia.
  - reflexivity.
  - reflexivity.
  - repeat split.
    + exact Ha.
    + exact Hs.
    + apply Hv. vm_compute. reflexivity.
Defined.

(** Ten digits that denote 2^32: the reader reports the value 0. *)
Lemma C8_ten_digits_wrap :
  let ds := bytes_of_string "4294967296" in
  let s := with_rx (ds ++ bytes_of_string ":") idle_port in
  Forall (fun b => isdigit b = true) ds /\
  length ds = 10%nat /\
  isdigit 58 = false /\
  decimal_value ds = 4294967296 /\
  let '(answers, r, s') :=
    integer_polls 11 (ReadInteger.restart ReadInteger.init) s in
  answers = repeat false 10 ++ [true] /\
  rx s' = [] /\
  ReadInteger.get r = 0 /\
  ReadInteger.get r <> decimal_value ds.
Proof.
  vm_compute. repeat split; try reflexivity; try discriminate.
  repeat constructor.
Qed.

(** The terminator [OK CR LF] in a stream. *)
Lemma C7_scan_for_sequence_witness :
  let m := {| packet_mem := []; response_mem := [] |} in
  let c := CommandAndFindResponse.new_search
             (to_bytes (bytes_of_string "ATE0" ++ CRLF)) ok_response
             CommandAndFindResponse.init in
  let S := bytes_of_string "busy..." ++ ok_response in
  answer_after m S c idle_port = true /\
  exists i, (i + length ok_response <= length S)%nat /\
            cursor_before m S i c idle_port = O /\
            firstn (length ok_response) (skipn i S) = ok_response.
Proof.
  cbv zeta.
  pose proof (@C7_scan_for_sequence
                {| packet_mem := []; response_mem := [] |} idle_port
                (to_bytes (bytes_of_string "ATE0" ++ CRLF)) ok_response
                CommandAndFindResponse.init
                (bytes_of_string "busy..." ++ ok_response) eq_refl) as H.
  cbv zeta in H. destruct H as (Hiff & _).
  assert (Hans : answer_after {| packet_mem := []; response_mem := [] |}
                   (bytes_of_string "busy..." ++ ok_response)
                   (CommandAndFindResponse.new_search
                      (to_bytes (bytes_of_string "ATE0" ++ CRLF)) ok_response
                      CommandAndFindResponse.init) idle_port = true)
    by (vm_compute; reflexivity).
  split; [exact Hans | exact (proj1 Hiff Hans)].
Defined.

(** The reset-to-zero policy on a terminator that overlaps itself: [aab]
    is not found in [aaab], the third [a] having sent the cursor back to 0;
    and [OK CR LF] is not found behind a stray [O]. *)
Example overlapping_prefix_is_missed :
  let m := {| packet_mem := []; response_mem := [] |} in
  let search seq :=
    CommandAndFindResponse.new_search empty_span seq
      CommandAndFindResponse.init in
  answer_after m (bytes_of_string "aaab")
               (search (bytes_of_string "aab")) idle_port = false /\
  answer_after m (bytes_of_string "aab")
               (search (bytes_of_string "aab")) idle_port = true /\
  answer_after m (bytes_of_string "O" ++ ok_response)
               (search ok_response) idle_port = false.
Proof. vm_compute. auto. Qed.

(** The last call of [get_status] of the single-packet GET returns
    Complete; three more calls, stray bytes, two more calls. *)
Lemma C9_terminal_phases_sticky_witness :
  let d := run single_packet_get_but_last (associated 128) in
  let es := [Poll 3; Rx (bytes_of_string "stray"); Poll 2] in
  m_state (get_status d) = complete /\
  m_state (run es (get_status d)) = m_state (get_status d) /\
  response (run es (get_status d)) = response (get_status d).
Proof.
  cbv zeta.
  assert (Hterm : terminal
            (m_state (get_status (run single_packet_get_but_last
                                      (associated 128)))) = true)
    by by_evaluation.
  assert (Hrun : run_defined single_packet_get_but_last (associated 128)
                 = true)
    by by_evaluation.
  pose proof (@C9_terminal_phases_sticky
                (run single_packet_get_but_last (associated 128))
                [Poll 3; Rx (bytes_of_string "stray"); Poll 2]
                (run_defined_reachable _
                   (associated_defined_reachable 128) Hrun)
                Hterm) as H.
  cbv zeta in H. destruct H as (Hst & Hresp & _).
  - repeat constructor.
  - split; [by_evaluation | split; [exact Hst | exact Hresp]].
Defined.

(** A first packet of 43 bytes with content length 9: the header is
    valid, 9 + 38 is more than 43, and the next phase is close_connection
    all the same. *)
Lemma C3_short_first_packet_closes :
  let d := get_status
             (run (first_packet 43 9 (bytes_of_string "hello") 17)
                  (associated 128)) in
  m_state d = parsing_header /\
  is_valid (m_header d) = true /\
  content_length (m_header d) = 9 /\
  header_length (m_header d) = 38 /\
  ReadInteger.get (m_integer_reader d) = 43 /\
  ~ content_length (m_header d) + header_length (m_header d)
    <= ReadInteger.get (m_integer_reader d) /\
  m_next_state d = close_connection.
Proof.
  vm_compute. repeat split; try reflexivity. intros H. apply H. reflexivity.
Qed.

(** A first packet of exactly 1460 bytes that holds the whole response,
    41 bytes of header and 1419 of body: the next phase is
    get_packet_length, and the driver waits for a packet that does not
    come. *)
Example full_first_packet_waits :
  let d := run (first_packet 1460 1419 body_1 20) (associated 3000) in
  m_state d = parsing_header /\
  content_length (m_header d) + header_length (m_header d) = 1460 /\
  ReadInteger.get (m_integer_reader d) = 1460 /\
  m_next_state d = get_packet_length /\
  m_state (ticks 10 d) = get_packet_length.
Proof. vm_compute. auto. Qed.

(** The entry to parsing_header with the first packet of the single-packet
    GET: the five bytes behind the header are copied. *)
Lemma C3_parsing_header_witness :
  let d := entering (run (first_packet 43 5 (bytes_of_string "hello") 17)
                         (associated 128)) in
  let h := response_header_from_string (m_packet d) in
  let body := slice (m_packet d) (header_length h) (content_length h) in
  m_state d = parsing_header /\
  m_next_state (transition_state d) = close_connection /\
  Z.of_nat (length body) = content_length h /\
  m_response (transition_state d)
  = body ++ skipn (length body) (m_response d).
Proof.
  cbv zeta.
  set (d := entering (run (first_packet 43 5 (bytes_of_string "hello") 17)
                          (associated 128))).
  assert (Hst : m_state d = parsing_header) by by_evaluation.
  assert (Hwf : well_formed d) by well_formed_by_evaluation.
  assert (Hparse : parse_defined (m_packet d) = true) by by_evaluation.
  assert (Hv : is_valid (response_header_from_string (m_packet d)) = true)
    by by_evaluation.
  assert (Hfit : content_length (response_header_from_string (m_packet d))
                 <= Z.of_nat (length (m_response d)))
    by (vm_compute; discriminate).
  assert (Hcopy : copy_in_bounds d = true) by by_evaluation.
  assert (HN : ReadInteger.get (m_integer_reader d)
               < maximum_response_packet_size) by by_evaluation.
  pose proof (C3_parsing_header Hwf Hst Hparse) as H.
  cbv zeta in H. destruct H as (_ & _ & H).
  destruct (H Hv Hfit Hcopy) as (Hiff & Hlt & _).
  destruct (Hlt HN) as (Hlen & Hresp & _).
  split; [exact Hst|]. split; [apply Hiff; exact HN|].
  split; [exact Hlen | exact Hresp].
Defined.

(** The two-packet GET: the body arrives in order. *)
Example multi_packet_get :
  let d := run two_packet_get (associated 3000) in
  m_state d = complete /\
  content_length (m_header d) = 2000 /\
  firstn 2000 (response d) = body_1 ++ body_2.
Proof. vm_compute. auto. Qed.

(** The spans of the two-packet GET: the first packet, the second
    packet, and a call of [get_status] that reads the second packet. *)
Lemma C10_read_spans_witness :
  let dA := entering (run (first_packet 1460 2000 body_1 16) (associated 3000)) in
  let dB := entering (run (two_packets 10) (associated 3000)) in
  let dC := run (two_packets 11) (associated 3000) in
  (m_state dA = reading_first_packet /\
   span_in_bounds (mem_of (transition_state dA))
     (ReadIntoBuffer.m_memory (m_reader (transition_state dA)))) /\
  (m_state dB = read_packet_into_response /\
   span_in_bounds (mem_of (transition_state dB))
     (ReadIntoBuffer.m_memory (m_reader (transition_state dB)))) /\
  (m_read_state dC = into_buffer /\
   exists got,
     rx (m_serial dC) = got ++ rx (m_serial (get_status dC)) /\
     ReadIntoBuffer.m_read_index (m_reader (get_status dC))
     = ReadIntoBuffer.m_read_index (m_reader dC) + Z.of_nat (length got)).
Proof.
  cbv zeta.
  set (dA := entering (run (first_packet 1460 2000 body_1 16) (associated 3000))).
  set (dB := entering (run (two_packets 10) (associated 3000))).
  set (dC := run (two_packets 11) (associated 3000)).
  assert (HA : m_state dA = reading_first_packet) by by_evaluation.
  assert (HB : m_state dB = read_packet_into_response) by by_evaluation.
  assert (HC : m_read_state dC = into_buffer) by by_evaluation.
  split; [|split].
  - assert (Hwf : well_formed dA) by well_formed_by_evaluation.
    destruct (C10_read_spans Hwf) as (H & _ & _).
    destruct (H HA) as (_ & _ & Hiff).
    split; [exact HA|]. apply Hiff. vm_compute. discriminate.
  - assert (Hwf : well_formed dB) by well_formed_by_evaluation.
    destruct (C10_read_spans Hwf) as (_ & H & _).
    destruct H as (_ & _ & Hiff).
    + exact HB.
    + vm_compute. discriminate.
    + split; [exact HB|]. apply Hiff. vm_compute. discriminate.
  - assert (Hwf : well_formed dC) by well_formed_by_evaluation.
    destruct (C10_read_spans Hwf) as (_ & _ & H).
    destruct H as (got & Hrx & _ & Hidx & _).
    + exact HC.
    + right. by_evaluation.
    + vm_compute. repeat split; discriminate.
    + vm_compute. reflexivity.
    + vm_compute. split; discriminate.
    + split; [exact HC|]. exists got. split; [exact Hrx | exact Hidx].
Defined.

(* ================================================================== *)
(** * Further properties of the driver *)


(* ------------------------------------------------------------------ *)
(** ** The fixed-length reader over chunked arrivals *)

Lemma firstn_app_exact (a b : list byte) : firstn (length a) (a ++ b) = a.
Proof.
  rewrite firstn_app, Nat.sub_diag, firstn_all. cbn. apply app_nil_r.
Qed.

Lemma skipn_app_exact (a b : list byte) (n : nat) :
  skipn (length a + n) (a ++ b) = skipn n b.
Proof.
  rewrite skipn_app. rewrite skipn_all2 by lia.
  replace (length a + n - length a)%nat with n by lia. reflexivity.
Qed.

Section ChunkedFill.

Import ReadIntoBuffer.

Variable sp : span.
Variable region0 : list byte.

Hypothesis Hbase : base sp = Packet \/ base sp = Response.
Hypothesis Hoff : 0 <= off sp.
Hypothesis Hlen : 0 <= len sp < 2 ^ 31.
Hypothesis Hfit : off sp + len sp <= Z.of_nat (length region0).


Lemma filled_length (consumed : list byte) :
  Z.of_nat (length consumed) <= len sp ->
  length (span_filled sp region0 consumed) = length region0.
Proof.
  intros H. unfold span_filled.
  rewrite !length_app, length_firstn, length_skipn. lia.
Qed.

(** One call of [done]: it takes what is there, up to what the span still
    lacks. *)
Lemma done_takes_prefix (m : memory) (s : serial) (consumed : list byte) :
  region_bytes m (base sp) = span_filled sp region0 consumed ->
  Z.of_nat (length consumed) <= len sp ->
  let r := {| m_memory := sp; m_read_index := Z.of_nat (length consumed) |} in
  let got := firstn (Z.to_nat (len sp) - length consumed) (rx s) in
  let '(fin, r', m', s') := done r m s in
  fin = (Z.of_nat (length consumed) =? len sp) /\
  r' = {| m_memory := sp;
          m_read_index := Z.of_nat (length (consumed ++ got)) |} /\
  region_bytes m' (base sp) = span_filled sp region0 (consumed ++ got) /\
  s' = with_rx (skipn (length got) (rx s)) s /\
  (base sp = Packet -> response_mem m' = response_mem m) /\
  (base sp = Response -> packet_mem m' = packet_mem m).
Proof.
  intros Hreg Hcons r got. subst r.
  unfold done. cbn [m_memory m_read_index].
  rewrite wrap_size_small by lia.
  destruct (Z.eqb_spec (Z.of_nat (length consumed)) (len sp)) as [Heq|Hne].
  - assert (Hgot : got = []).
    { subst got. replace (Z.to_nat (len sp) - length consumed)%nat with O by lia.
      reflexivity. }
    rewrite Hgot, app_nil_r. cbn [length skipn].
    repeat split; auto. destruct s; reflexivity.
  - unfold serial_read.
    replace (Z.to_nat (len sp - Z.of_nat (length consumed)))
      with (Z.to_nat (len sp) - length consumed)%nat by lia.
    fold got.
    assert (Hgl : (length got <= Z.to_nat (len sp) - length consumed)%nat)
      by (subst got; apply firstn_le_length).
    rewrite to_int_small by lia.
    assert (Hgr : skipn (Z.to_nat (len sp) - length consumed) (rx s)
                  = skipn (length got) (rx s)).
    { subst got. rewrite length_firstn.
      destruct (Nat.le_gt_cases (Z.to_nat (len sp) - length consumed)
                                (length (rx s))) as [Hle|Hgt].
      - rewrite Nat.min_l by exact Hle. reflexivity.
      - rewrite Nat.min_r by lia. rewrite !skipn_all2 by lia. reflexivity. }
    rewrite Hgr.
    assert (Hstore : store (span_filled sp region0 consumed)
                       (off sp + Z.of_nat (length consumed)) got
                     = span_filled sp region0 (consumed ++ got)).
    { rewrite store_inside; [|lia|rewrite filled_length by lia; lia].
      unfold span_filled.
      replace (Z.to_nat (off sp + Z.of_nat (length consumed)))
        with (length (firstn (Z.to_nat (off sp)) region0 ++ consumed))
        by (rewrite length_app, length_firstn; lia).
      rewrite (app_assoc (firstn _ region0) consumed).
      rewrite firstn_app_exact, skipn_app_exact.
      rewrite skipn_skipn. rewrite <- !app_assoc. do 3 f_equal.
      rewrite length_app. f_equal. lia. }
    split; [reflexivity|]. split.
    { f_equal. rewrite length_app. lia. }
    destruct Hbase as [Hb|Hb]; rewrite Hb in *;
      cbn [write_region region_bytes packet_mem response_mem] in *;
      rewrite Hreg, Hstore; repeat split; auto; congruence.
Qed.

(** Over the chunks: the span holds what has arrived, up to its length;
    what arrived beyond stays unread. *)
Lemma buffer_feed_spec (chunks : list (list byte)) (m : memory) (s : serial)
      (consumed : list byte) :
  region_bytes m (base sp) = span_filled sp region0 consumed ->
  Z.of_nat (length consumed) <= len sp ->
  rx s = [] \/ Z.of_nat (length consumed) = len sp ->
  let r := {| m_memory := sp; m_read_index := Z.of_nat (length consumed) |} in
  let pending := rx s ++ concat chunks in
  let got := firstn (Z.to_nat (len sp) - length consumed) pending in
  let '(r', m', s') := buffer_feed chunks r m s in
  r' = {| m_memory := sp;
          m_read_index := Z.of_nat (length (consumed ++ got)) |} /\
  region_bytes m' (base sp) = span_filled sp region0 (consumed ++ got) /\
  s' = with_rx (skipn (length got) pending) s /\
  (base sp = Packet -> response_mem m' = response_mem m) /\
  (base sp = Response -> packet_mem m' = packet_mem m).
Proof.
  revert m s consumed.
  induction chunks as [|chunk chunks IH]; intros m s consumed Hreg Hcons Hrest.
  - cbn [buffer_feed concat]. rewrite app_nil_r.
    assert (Hgot : firstn (Z.to_nat (len sp) - length consumed) (rx s) = []).
    { destruct Hrest as [-> | Hfull]; [apply firstn_nil|].
      replace (Z.to_nat (len sp) - length consumed)%nat with O by lia.
      reflexivity. }
    rewrite Hgot, app_nil_r. cbn [length skipn].
    repeat split; auto. destruct s; reflexivity.
  - cbn [buffer_feed concat].
    pose proof (@done_takes_prefix m (receive chunk s) consumed Hreg Hcons)
      as Hdone.
    cbv zeta in Hdone.
    destruct (done _ m (receive chunk s)) as [[[fin r1] m1] s1].
    destruct Hdone as (_ & Hr1 & Hreg1 & Hs1 & Hresp1 & Hpack1).
    set (got1 := firstn (Z.to_nat (len sp) - length consumed)
                        (rx (receive chunk s))) in *.
    assert (Hl1 : (length got1 <= Z.to_nat (len sp) - length consumed)%nat)
      by (subst got1; apply firstn_le_length).
    assert (Hcons1 : Z.of_nat (length (consumed ++ got1)) <= len sp)
      by (rewrite length_app; lia).
    assert (Hrest1 : rx s1 = [] \/ Z.of_nat (length (consumed ++ got1)) = len sp).
    { rewrite Hs1. cbn [rx with_rx]. subst got1. rewrite length_app.
      rewrite length_firstn.
      destruct (Nat.le_gt_cases (Z.to_nat (len sp) - length consumed)
                                (length (rx (receive chunk s)))) as [Hle|Hgt].
      - right. rewrite Nat.min_l by exact Hle. lia.
      - left. rewrite Nat.min_r by lia. apply skipn_all2. lia. }
    specialize (IH m1 s1 (consumed ++ got1) Hreg1 Hcons1 Hrest1).
    cbv zeta in IH. rewrite Hr1.
    destruct (buffer_feed chunks _ m1 s1) as [[r' m'] s'].
    destruct IH as (Hr' & Hreg' & Hs' & Hresp' & Hpack').
    (* the bytes taken in the first call and after it make up the prefix *)
    assert (Hsplit :
      consumed ++ firstn (Z.to_nat (len sp) - length consumed)
                         (rx s ++ chunk ++ concat chunks)
      = (consumed ++ got1)
        ++ firstn (Z.to_nat (len sp) - length (consumed ++ got1))
                  (rx s1 ++ concat chunks) /\
      skipn (length (firstn (Z.to_nat (len sp) - length consumed)
                            (rx s ++ chunk ++ concat chunks)))
            (rx s ++ chunk ++ concat chunks)
      = skipn (length (firstn (Z.to_nat (len sp) - length (consumed ++ got1))
                              (rx s1 ++ concat chunks)))
              (rx s1 ++ concat chunks)).
    { rewrite Hs1. cbn [rx with_rx receive] in *.
      set (n := (Z.to_nat (len sp) - length consumed)%nat) in *.
      set (a := rx s ++ chunk) in *.
      rewrite (app_assoc (rx s) chunk). fold a.
      rewrite length_app.
      replace (Z.to_nat (len sp) - (length consumed + length got1))%nat
        with (n - length got1)%nat by lia.
      subst got1. rewrite length_firstn.
      destruct (Nat.le_gt_cases n (length a)) as [Hle|Hgt].
      - rewrite Nat.min_l by exact Hle.
        rewrite Nat.sub_diag. cbn [firstn length skipn]. rewrite app_nil_r.
        rewrite firstn_app. replace (n - length a)%nat with O by lia.
        cbn [firstn]. rewrite app_nil_r. split; [reflexivity|].
        rewrite length_firstn, Nat.min_l by exact Hle.
        rewrite skipn_app. replace (n - length a)%nat with O by lia.
        reflexivity.
      - rewrite Nat.min_r by lia.
        rewrite (firstn_all2 (n:=n) a) by lia.
        rewrite (skipn_all2 (n:=length a) a) by lia. cbn [app].
        rewrite firstn_app. rewrite (firstn_all2 (n:=n) a) by lia.
        rewrite <- app_assoc. split; [reflexivity|].
        rewrite length_app, (skipn_app (length a + _)).
        rewrite skipn_all2 by lia. cbn [app]. f_equal. lia. }
    destruct Hsplit as [Hsplit1 Hsplit2].
    rewrite Hsplit1, Hsplit2.
    repeat split; auto.
    + rewrite Hs', Hs1. destruct s; reflexivity.
    + intros Hb. rewrite Hresp', Hresp1 by exact Hb. reflexivity.
    + intros Hb. rewrite Hpack', Hpack1 by exact Hb. reflexivity.
Qed.

End ChunkedFill.

(** X1: a span of the packet or response buffer that lies in its buffer
    is handed to the buffer reader, and bytes arrive in chunks, each
    followed by a call of [done].  If at least as many bytes arrived as
    the span is long, the span holds the first of them, in order, the
    bytes beyond stay unread on the port, and the next call answers true
    and changes nothing; if fewer arrived, all of them were read and the
    next call answers false.  In both cases the buffer outside the span,
    the other buffer and what was written to the port are as before. *)
Theorem buffer_reader_fills
  (sp : span) (m : memory) (s : serial) (r0 : ReadIntoBuffer.t)
  (chunks : list (list byte)) :
  base sp = Packet \/ base sp = Response ->
  span_in_bounds m sp ->
  len sp < 2 ^ 31 ->
  rx s = [] ->
  let stream := concat chunks in
  let n := Z.to_nat (len sp) in
  let '(r, m', s') :=
    buffer_feed chunks (ReadIntoBuffer.new_buffer sp r0) m s in
  ((n <= length stream)%nat ->
   span_bytes m' sp = firstn n stream /\
   rx s' = skipn n stream /\
   ReadIntoBuffer.done r m' s' = (true, r, m', s')) /\
  ((length stream < n)%nat ->
   rx s' = [] /\
   ReadIntoBuffer.m_read_index r = Z.of_nat (length stream) /\
   fst (fst (fst (ReadIntoBuffer.done r m' s'))) = false) /\
  firstn (Z.to_nat (off sp)) (region_bytes m' (base sp))
  = firstn (Z.to_nat (off sp)) (region_bytes m (base sp)) /\
  skipn (Z.to_nat (off sp) + n) (region_bytes m' (base sp))
  = skipn (Z.to_nat (off sp) + n) (region_bytes m (base sp)) /\
  (base sp = Packet -> response_mem m' = response_mem m) /\
  (base sp = Response -> packet_mem m' = packet_mem m) /\
  tx s' = tx s.
Proof.
  intros Hbase (Hoff & Hlen0 & Hfit) Hlen Hrx stream n.
  pose proof (@buffer_feed_spec sp (region_bytes m (base sp)) Hbase Hoff
                (conj Hlen0 Hlen) Hfit chunks m s []) as H.
  cbv zeta in H. unfold span_filled in H. cbn [length app] in H.
  rewrite Nat.add_0_r, firstn_skipn, Nat.sub_0_r, Hrx in H.
  cbn [app] in H. fold stream in H. fold n in H.
  specialize (H eq_refl ltac:(lia) (or_introl eq_refl)).
  unfold ReadIntoBuffer.new_buffer.
  change (Z.of_nat 0) with 0 in H.
  destruct (buffer_feed chunks _ m s) as [[r m'] s'].
  destruct H as (Hr & Hreg & Hs & Hresp & Hpack).
  set (R := region_bytes m (base sp)) in *.
  set (o := Z.to_nat (off sp)) in *.
  set (got := firstn n stream) in *.
  assert (Ho : length (firstn o R) = o) by (rewrite length_firstn; lia).
  assert (Hgl : (length got <= n)%nat) by (apply firstn_le_length).
  split; [|split; [|split; [|split; [|split; [|split]]]]].
  - intros Hn.
    assert (Hfull : length got = n)
      by (subst got; rewrite length_firstn; lia).
    split; [|split].
    + unfold span_bytes, slice. fold R o n. rewrite Hreg.
      rewrite <- Ho at 1. rewrite <- (Nat.add_0_r (length (firstn o R))).
      rewrite skipn_app_exact. cbn [skipn].
      rewrite <- Hfull. apply firstn_app_exact.
    + rewrite Hs. cbn [rx with_rx]. rewrite Hfull. reflexivity.
    + rewrite Hr. unfold ReadIntoBuffer.done.
      cbn [ReadIntoBuffer.m_memory ReadIntoBuffer.m_read_index].
      rewrite wrap_size_small by lia.
      replace (Z.of_nat (length got) =? len sp) with true
        by (symmetry; apply Z.eqb_eq; lia).
      reflexivity.
  - intros Hn.
    assert (Hall : got = stream) by (subst got; apply firstn_all2; lia).
    split; [|split].
    + rewrite Hs, Hall. cbn [rx with_rx]. apply skipn_all.
    + rewrite Hr, Hall. reflexivity.
    + rewrite Hr, Hall. unfold ReadIntoBuffer.done.
      cbn [ReadIntoBuffer.m_memory ReadIntoBuffer.m_read_index].
      rewrite wrap_size_small by lia.
      replace (Z.of_nat (length stream) =? len sp) with false
        by (symmetry; apply Z.eqb_neq; lia).
      unfold serial_read. reflexivity.
  - rewrite Hreg. rewrite <- Ho at 1. apply firstn_app_exact.
  - rewrite Hreg. rewrite app_assoc.
    replace (o + n)%nat with (length (firstn o R ++ got) + (n - length got))%nat
      by (rewrite length_app; lia).
    rewrite skipn_app_exact, skipn_skipn. f_equal. rewrite length_app. lia.
  - exact Hresp.
  - exact Hpack.
  - rewrite Hs. reflexivity.
Qed.

(* ------------------------------------------------------------------ *)
(** ** The integer reader on a stream without digits *)

(** X2: after [restart], as long as no digit arrives the integer reader
    never reports done: every call answers false, the bytes are read and
    dropped one a call, and the value stays 0. *)
Theorem integer_reader_waits_for_digit
  (s : serial) (r0 : ReadInteger.t) (k : nat) :
  Forall (fun b => isdigit b = false) (rx s) ->
  integer_polls k (ReadInteger.restart r0) s
  = (repeat false k, ReadInteger.restart r0, with_rx (skipn k (rx s)) s).
Proof.
  unfold ReadInteger.restart. revert s.
  induction k as [|k IH]; intros s Hnd.
  - cbn. rewrite with_rx_id. reflexivity.
  - cbn [integer_polls repeat].
    destruct (rx s) as [|b l] eqn:Hrx.
    + unfold ReadInteger.done, bytes_available. rewrite Hrx. cbn.
      rewrite IH by (rewrite Hrx; constructor).
      rewrite Hrx, skipn_nil. reflexivity.
    + inversion Hnd as [|? ? Hb Hl]; subst.
      rewrite <- (with_rx_id s), Hrx.
      rewrite integer_done_skip by exact Hb.
      rewrite IH by exact Hl. reflexivity.
Qed.

(* ------------------------------------------------------------------ *)
(** ** The scan-for-sequence reader: the command and the bytes it reads *)

Section CommandOnce.

Import CommandAndFindResponse.

Variable m : memory.

(** One call of [done]: the command is written by the first call that
    finds the terminator unmatched, and at most one byte is read. *)
Lemma done_command (c : t) (s : serial) :
  let '(_, c', s') := done c m s in
  m_command c' = m_command c /\
  m_sequence c' = m_sequence c /\
  tx s' = tx s ++ (if Nat.eqb (m_search_index c) (length (m_sequence c))
                      || m_sent_command c
                   then [] else span_bytes m (m_command c)) /\
  (Nat.eqb (m_search_index c) (length (m_sequence c)) = false ->
   m_sent_command c' = true) /\
  (m_sent_command c = true -> m_sent_command c' = true) /\
  (Nat.eqb (m_search_index c) (length (m_sequence c)) = true -> c' = c) /\
  (length (rx s) <= length (rx s') + 1)%nat /\
  (length (rx s') <= length (rx s))%nat.
Proof.
  unfold done.
  destruct (Nat.eqb (m_search_index c) (length (m_sequence c))) eqn:Hidx;
    cbn [orb].
  - rewrite app_nil_r. repeat split; auto; try lia; discriminate.
  - set (s1 := if m_sent_command c then s else serial_write _ s).
    assert (Hrx1 : rx s1 = rx s)
      by (subst s1; destruct (m_sent_command c); reflexivity).
    assert (Htx1 : tx s1 = tx s ++ (if m_sent_command c then []
                                    else span_bytes m (m_command c))).
    { subst s1. destruct (m_sent_command c); cbn [tx serial_write];
        [rewrite app_nil_r|]; reflexivity. }
    unfold bytes_available, serial_read. rewrite Hrx1.
    destruct (rx s) as [|b l]; cbn [length].
    + cbn. repeat split; auto; try discriminate; rewrite Hrx1; cbn; lia.
    + replace (1 <=? Z.of_nat (S (length l))) with true
        by (symmetry; apply Z.leb_le; lia).
      change (Z.to_nat 1) with 1%nat. cbn [firstn skipn nth].
      cbn [m_command m_sequence m_sent_command rx tx].
      repeat split; auto; try discriminate; lia.
Qed.

(** Once the command is out, or the terminator matched, nothing more is
    written. *)
Lemma search_feed_quiet (chunks : list (list byte)) (c : t) (s : serial) :
  m_search_index c = length (m_sequence c) \/ m_sent_command c = true ->
  let '(c', s') := search_feed chunks c m s in
  tx s' = tx s /\
  (length (rx s) + length (concat chunks)
   <= length (rx s') + length chunks)%nat.
Proof.
  revert c s. induction chunks as [|chunk chunks IH]; intros c s Hq.
  - cbn. split; [reflexivity | lia].
  - cbn [search_feed concat].
    pose proof (done_command c (receive chunk s)) as Hd.
    destruct (done c m (receive chunk s)) as [[fin c1] s1].
    destruct Hd as (Hcmd & Hseq & Htx & Hsent0 & Hsent & Hsame & Hrx & _).
    assert (Hnone : (Nat.eqb (m_search_index c) (length (m_sequence c))
                     || m_sent_command c) = true).
    { destruct Hq as [Hq|Hq];
        [rewrite Hq, Nat.eqb_refl; reflexivity
        | rewrite Hq; apply orb_true_r]. }
    rewrite Hnone, app_nil_r in Htx.
    assert (Hq1 : m_search_index c1 = length (m_sequence c1)
                  \/ m_sent_command c1 = true).
    { destruct Hq as [Hq|Hq]; [|right; auto].
      left. rewrite Hsame by (rewrite Hq; apply Nat.eqb_refl). exact Hq. }
    specialize (IH c1 s1 Hq1).
    destruct (search_feed chunks c1 m s1) as [c' s'].
    destruct IH as (Htx' & Hrx').
    split; [rewrite Htx', Htx; reflexivity|].
    cbn [rx receive] in Hrx. cbn [length]. rewrite length_app in *. lia.
Qed.

End CommandOnce.

(** X3: after [new_search(command, terminator)] with a command span that
    lies in its buffer, over any chunks of arriving bytes, each followed
    by a call of [done], and at least one such call: the command, all
    [len] bytes of the span, is written to the port exactly once, by the
    first call, unless the terminator is empty, in which case it is never
    written; and every call reads at most one byte. *)
Theorem command_written_once
  (m : memory) (s : serial) (p_command : span) (p_sequence : list byte)
  (c0 : CommandAndFindResponse.t) (chunk : list byte)
  (chunks : list (list byte)) :
  span_in_bounds m p_command ->
  let c := CommandAndFindResponse.new_search p_command p_sequence c0 in
  let '(c', s') := search_feed (chunk :: chunks) c m s in
  Z.of_nat (length (span_bytes m p_command)) = len p_command /\
  tx s' = tx s ++ match p_sequence with
                  | [] => []
                  | _ :: _ => span_bytes m p_command
                  end /\
  (length (rx s) + length (concat (chunk :: chunks))
   <= length (rx s') + length (chunk :: chunks))%nat.
Proof.
  intros (Hoff & Hlen & Hfit).
  assert (Hsize : Z.of_nat (length (span_bytes m p_command)) = len p_command).
  { unfold span_bytes, slice. rewrite length_firstn, length_skipn. lia. }
  cbv zeta. cbn [search_feed concat length].
  pose proof (done_command m
                (CommandAndFindResponse.new_search p_command p_sequence c0)
                (receive chunk s)) as Hd.
  destruct (CommandAndFindResponse.done _ m (receive chunk s))
    as [[fin c1] s1].
  destruct Hd as (Hcmd & Hseq & Htx & Hsent0 & _ & Hsame & Hrx & _).
  cbn [CommandAndFindResponse.new_search
       CommandAndFindResponse.m_search_index
       CommandAndFindResponse.m_sequence
       CommandAndFindResponse.m_sent_command
       CommandAndFindResponse.m_command] in *.
  assert (Hq1 : CommandAndFindResponse.m_search_index c1
                = length (CommandAndFindResponse.m_sequence c1)
                \/ CommandAndFindResponse.m_sent_command c1 = true).
  { destruct p_sequence as [|b l].
    - left. rewrite Hsame by reflexivity. reflexivity.
    - right. apply Hsent0. reflexivity. }
  pose proof (search_feed_quiet m chunks c1 s1 Hq1) as Hrest.
  destruct (search_feed chunks c1 m s1) as [c' s'].
  destruct Hrest as (Htx' & Hrx').
  split; [exact Hsize|]. split.
  - rewrite Htx', Htx. cbn [tx receive].
    destruct p_sequence; cbn [length Nat.eqb orb]; reflexivity.
  - cbn [rx receive] in Hrx. rewrite length_app in *. lia.
Qed.

(* ------------------------------------------------------------------ *)
(** ** The scan-for-sequence reader behind noise *)

Lemma Forall_firstn_bytes (P : byte -> Prop) (l : list byte) (k : nat) :
  Forall P l -> Forall P (firstn k l).
Proof.
  intros H. revert k. induction H as [|x l Hx _ IH]; intros k.
  - rewrite firstn_nil. constructor.
  - destruct k; cbn [firstn]; constructor; auto.
Qed.

Section BehindNoise.

Variable seq : list byte.
Hypothesis Hseq : seq <> [].

Lemma cursor_noise (noise : list byte) :
  Forall (fun b => b <> nth 0 seq 0) noise ->
  cursor_after seq noise 0 = O.
Proof.
  unfold cursor_after. induction 1 as [|b noise Hb _ IH]; [reflexivity|].
  cbn [fold_left]. rewrite advance_mismatch; [exact IH | | congruence].
  destruct seq; [congruence | cbn; lia].
Qed.

(** A part of the terminator moves the cursor as far as it is long. *)
Lemma cursor_partial (a b : list byte) (j : nat) :
  seq = a ++ b -> (j <= length b)%nat ->
  cursor_after seq (firstn j b) (length a) = (length a + j)%nat.
Proof.
  revert a j. induction b as [|x b IH]; intros a j Hab Hj.
  - cbn [length] in Hj. replace j with O by lia. cbn. lia.
  - destruct j as [|j]; [cbn; lia|].
    cbn [firstn]. unfold cursor_after. cbn [fold_left].
    rewrite advance_match.
    + change (S (length a)) with (1 + length a)%nat.
      replace (1 + length a)%nat with (length (a ++ [x]))
        by (rewrite length_app; cbn; lia).
      fold (cursor_after seq (firstn j b) (length (a ++ [x]))).
      rewrite IH.
      * rewrite length_app. cbn. lia.
      * rewrite <- app_assoc. exact Hab.
      * cbn [length] in Hj. lia.
    + rewrite Hab, length_app. cbn [length]. lia.
    + rewrite Hab, app_nth2 by lia. rewrite Nat.sub_diag. reflexivity.
Qed.

Lemma cursor_after_app (l1 l2 : list byte) (i : nat) :
  cursor_after seq (l1 ++ l2) i = cursor_after seq l2 (cursor_after seq l1 i).
Proof. unfold cursor_after. apply fold_left_app. Qed.

(** Behind noise free of the terminator's first byte, a part of the
    terminator leaves the cursor at its length. *)
Lemma cursor_noise_partial (noise : list byte) (j : nat) :
  Forall (fun b => b <> nth 0 seq 0) noise ->
  (j <= length seq)%nat ->
  cursor_after seq (noise ++ firstn j seq) 0 = j.
Proof.
  intros Hn Hj. rewrite cursor_after_app, cursor_noise by exact Hn.
  exact (@cursor_partial [] seq j eq_refl Hj).
Qed.

End BehindNoise.

Section FeedBehindNoise.

Import CommandAndFindResponse.

Variable m : memory.

Lemma feed_app (l1 l2 : list byte) (c : t) (s : serial) :
  feed m (l1 ++ l2) c s
  = feed m l2 (fst (feed m l1 c s)) (snd (feed m l1 c s)).
Proof.
  unfold feed. rewrite fold_left_app.
  destruct (fold_left (fed_tick m) l1 (c, s)); reflexivity.
Qed.

(** The call after a stream answers true exactly when the cursor of the
    reset-to-zero policy stands at the end of the terminator. *)
Lemma answer_after_cursor (stream : list byte) (c : t) (s : serial) :
  rx s = [] ->
  answer_after m stream c s
  = Nat.eqb (cursor_after (m_sequence c) stream (m_search_index c))
            (length (m_sequence c)).
Proof.
  intros Hrx. unfold answer_after.
  pose proof (@feed_cursor m stream c s (fun _ => Hrx)) as H.
  destruct (feed m stream c s) as [c' s'].
  destruct H as (Hs & Hi & _). unfold done. rewrite Hs, Hi.
  destruct (Nat.eqb _ _); [reflexivity|].
  destruct (1 <=? _); reflexivity.
Qed.

(** Bytes fed behind a match stay unread. *)
Lemma feed_after_match (rest : list byte) (c : t) (s : serial) :
  m_search_index c = length (m_sequence c) ->
  feed m rest c s = (c, receive rest s).
Proof.
  intros Hc. revert s. induction rest as [|b rest IH]; intros s.
  - unfold feed, receive. cbn. rewrite app_nil_r. destruct s; reflexivity.
  - unfold feed. cbn [fold_left]. rewrite fed_tick_complete by exact Hc.
    fold (feed m rest c (receive [b] s)). rewrite IH.
    unfold receive. cbn. rewrite <- app_assoc. reflexivity.
Qed.

End FeedBehindNoise.

(** X4: after [new_search(command, terminator)] with a terminator that
    is not empty and nothing unread on the port, a stream is fed a byte a
    call: noise in which the first byte of the terminator does not occur,
    then the terminator, then further bytes.  No call answers true before
    the terminator was read to its last byte; the call after that answers
    true; the noise and the terminator are read and the bytes behind them
    stay unread on the port. *)
Theorem terminator_found_behind_noise
  (m : memory) (s : serial) (p_command : span) (p_sequence : list byte)
  (c0 : CommandAndFindResponse.t) (noise rest : list byte) :
  p_sequence <> [] ->
  Forall (fun b => b <> nth 0 p_sequence 0) noise ->
  rx s = [] ->
  let c := CommandAndFindResponse.new_search p_command p_sequence c0 in
  (forall k, (k < length noise + length p_sequence)%nat ->
             answer_after m (firstn k (noise ++ p_sequence ++ rest)) c s
             = false) /\
  answer_after m (noise ++ p_sequence) c s = true /\
  let '(c', s') := feed m (noise ++ p_sequence ++ rest) c s in
  CommandAndFindResponse.m_search_index c' = length p_sequence /\
  rx s' = rest.
Proof.
  intros Hne Hnoise Hrx c.
  assert (Hc : CommandAndFindResponse.m_sequence c = p_sequence
               /\ CommandAndFindResponse.m_search_index c = O)
    by (split; reflexivity).
  destruct Hc as (Hcs & Hci).
  split; [|split].
  - intros k Hk. rewrite answer_after_cursor by exact Hrx.
    rewrite Hcs, Hci. apply Nat.eqb_neq.
    replace (firstn k (noise ++ p_sequence ++ rest))
      with (firstn k (noise ++ p_sequence))
      by (rewrite app_assoc, (firstn_app k (noise ++ p_sequence));
          replace (k - length (noise ++ p_sequence))%nat with O
            by (rewrite length_app; lia);
          cbn [firstn]; rewrite app_nil_r; reflexivity).
    rewrite firstn_app.
    destruct (Nat.le_gt_cases k (length noise)) as [Hle|Hgt].
    + replace (k - length noise)%nat with O by lia.
      cbn [firstn]. rewrite app_nil_r.
      rewrite cursor_noise;
        [destruct p_sequence; [congruence | cbn; lia] | exact Hne |].
      apply Forall_firstn_bytes. exact Hnoise.
    + rewrite firstn_all2 by lia.
      rewrite cursor_noise_partial by (auto; lia). lia.
  - rewrite answer_after_cursor by exact Hrx.
    rewrite Hcs, Hci. apply Nat.eqb_eq.
    rewrite <- (firstn_all p_sequence) at 2.
    apply cursor_noise_partial; auto.
  - destruct (exists_last Hne) as (init & z & Hlast).
    assert (Hinit : init = firstn (length init) p_sequence)
      by (rewrite Hlast, firstn_app_exact; reflexivity).
    assert (Hn : length p_sequence = S (length init))
      by (rewrite Hlast, length_app; cbn; lia).
    replace (noise ++ p_sequence ++ rest)
      with ((noise ++ init) ++ [z] ++ rest)
      by (rewrite Hlast, <- !app_assoc; reflexivity).
    rewrite feed_app.
    pose proof (@feed_cursor m (noise ++ init) c s (fun _ => Hrx)) as H1.
    destruct (feed m (noise ++ init) c s) as [c1 s1]. cbn [fst snd].
    destruct H1 as (Hs1 & Hi1 & Hr1).
    rewrite Hcs, Hci in *.
    rewrite Hinit in Hi1 at 1.
    rewrite cursor_noise_partial in Hi1 by (auto; lia).
    assert (Hnd : CommandAndFindResponse.m_search_index c1
                  <> length (CommandAndFindResponse.m_sequence c1))
      by (rewrite Hs1, Hi1; lia).
    rewrite feed_app. unfold feed at 2 3. cbn [fold_left].
    pose proof (@fed_tick_advance m c1 s1 z Hnd (Hr1 Hnd)) as H2.
    destruct (fed_tick m (c1, s1) z) as [c2 s2]. cbn [fst snd].
    destruct H2 as (Hs2 & Hi2 & Hr2).
    assert (Hdone : CommandAndFindResponse.m_search_index c2
                    = length (CommandAndFindResponse.m_sequence c2)).
    { rewrite Hs2, Hi2, Hs1, Hi1.
      rewrite advance_match; [lia | lia |].
      rewrite Hlast at 1. rewrite app_nth2 by lia.
      rewrite Nat.sub_diag. reflexivity. }
    rewrite feed_after_match by exact Hdone.
    cbn [rx receive]. rewrite Hr2. split; [|reflexivity].
    rewrite Hdone, Hs2, Hs1. reflexivity.
Qed.

(* ------------------------------------------------------------------ *)
(** ** The header parser *)

Lemma is_prefix_iff (p l : list byte) :
  is_prefix p l = true <-> firstn (length p) l = p.
Proof.
  revert l. induction p as [|x p IH]; intros l; cbn [is_prefix length firstn].
  - tauto.
  - destruct l as [|y l]; [split; discriminate|].
    rewrite andb_true_iff, Z.eqb_eq, IH. split.
    + intros [-> ->]. reflexivity.
    + intros H. injection H as -> H. auto.
Qed.

(** [find] returns the first position at which the needle stands. *)
Lemma find_from_first (needle hay : list byte) (i j : Z) :
  find_from needle hay i = Some j ->
  i <= j /\
  firstn (length needle) (skipn (Z.to_nat (j - i)) hay) = needle /\
  forall k, i <= k < j ->
            firstn (length needle) (skipn (Z.to_nat (k - i)) hay) <> needle.
Proof.
  revert i. induction hay as [|x hay IH]; intros i H; cbn [find_from] in H.
  - destruct (is_prefix needle []) eqn:E; [|discriminate].
    injection H as <-. rewrite Z.sub_diag. cbn [Z.to_nat skipn].
    apply is_prefix_iff in E. split; [lia|]. split; [exact E | lia].
  - destruct (is_prefix needle (x :: hay)) eqn:E.
    + injection H as <-. rewrite Z.sub_diag. cbn [Z.to_nat skipn].
      apply is_prefix_iff in E. split; [lia|]. split; [exact E | lia].
    + apply IH in H. destruct H as (Hle & Hat & Hbefore).
      split; [lia|]. split.
      * replace (Z.to_nat (j - i)) with (S (Z.to_nat (j - (i + 1)))) by lia.
        exact Hat.
      * intros k Hk. destruct (Z.eq_dec k i) as [->|Hki].
        -- rewrite Z.sub_diag. cbn [Z.to_nat skipn]. intros Hp.
           apply is_prefix_iff in Hp. congruence.
        -- replace (Z.to_nat (k - i)) with (S (Z.to_nat (k - (i + 1)))) by lia.
           apply Hbefore. lia.
Qed.

Lemma find_first (needle hay : list byte) (j : Z) :
  find needle hay = Some j ->
  0 <= j /\
  slice hay j (Z.of_nat (length needle)) = needle /\
  forall k, 0 <= k < j -> slice hay k (Z.of_nat (length needle)) <> needle.
Proof.
  intros H. apply find_from_first in H. destruct H as (Hle & Hat & Hbefore).
  unfold slice. rewrite Nat2Z.id. rewrite Z.sub_0_r in Hat.
  split; [exact Hle|]. split; [exact Hat|].
  intros k Hk. specialize (Hbefore k Hk). rewrite Z.sub_0_r in Hbefore.
  exact Hbefore.
Qed.

(** X5: when the header parsed from a packet buffer is valid, the three
    tokens stand in the buffer: [HTTP/1.1 ] and [Content-Length: ]
    somewhere, and the empty line that ends the header at
    [header_length - 4], where it occurs first; the header length lies
    between 4 and the size of the buffer, and the status code and the
    content length are positive 32-bit numbers. *)
Theorem valid_header_shape (p : list byte) :
  is_valid (response_header_from_string p) = true ->
  let h := response_header_from_string p in
  (exists i, 0 <= i /\ slice p i 9 = bytes_of_string "HTTP/1.1 ") /\
  (exists j, 0 <= j /\ slice p j 16 = bytes_of_string "Content-Length: ") /\
  4 <= header_length h <= Z.of_nat (length p) /\
  slice p (header_length h - 4) 4 = end_of_header /\
  (forall k, 0 <= k < header_length h - 4 -> slice p k 4 <> end_of_header) /\
  0 < status_code h < 2 ^ 32 /\
  0 < content_length h < 2 ^ 32.
Proof.
  pose proof (header_length_bound p) as Hbound.
  unfold response_header_from_string in *.
  destruct (find (bytes_of_string "HTTP/1.1 ") p) as [i|] eqn:Hi;
    [|discriminate].
  destruct (scan_unsigned (skipn (Z.to_nat (i + 8)) p)) as [st|] eqn:Hst;
    [|discriminate].
  destruct (find (bytes_of_string "Content-Length: ") p) as [j|] eqn:Hj;
    [|discriminate].
  destruct (scan_unsigned (skipn (Z.to_nat (j + 15)) p)) as [cl|] eqn:Hcl;
    [|discriminate].
  destruct (find end_of_header p) as [k|] eqn:Hk; [|discriminate].
  unfold is_valid. cbn [status_code content_length header_length] in *.
  intros Hv. apply andb_prop in Hv. destruct Hv as [Hv Hv3].
  apply andb_prop in Hv. destruct Hv as [Hv1 Hv2].
  apply negb_true_iff, Z.eqb_neq in Hv1, Hv2.
  apply find_first in Hi, Hj, Hk.
  destruct Hi as (Hi0 & Hi1 & _). destruct Hj as (Hj0 & Hj1 & _).
  destruct Hk as (Hk0 & Hk1 & Hk2).
  apply scan_unsigned_range in Hst, Hcl.
  change (Z.of_nat (length end_of_header)) with 4 in *.
  replace (k + 4 - 4) with k by lia.
  repeat split; try lia; eauto.
Qed.

Lemma find_from_skip (a : byte) (needle pre rest : list byte) (i : Z) :
  Forall (fun b => b <> a) pre ->
  find_from (a :: needle) (pre ++ rest) i
  = find_from (a :: needle) rest (i + Z.of_nat (length pre)).
Proof.
  intros H. revert i. induction H as [|x pre Hx _ IH]; intros i.
  - cbn. f_equal. lia.
  - cbn [app find_from is_prefix].
    replace (a =? x) with false by (symmetry; apply Z.eqb_neq; congruence).
    cbn [andb]. rewrite IH. f_equal. cbn [length]. lia.
Qed.

Lemma find_from_step (x : byte) (needle hay : list byte) (i : Z) :
  is_prefix needle (x :: hay) = false ->
  find_from needle (x :: hay) i = find_from needle hay (i + 1).
Proof. intros H. cbn [find_from]. rewrite H. reflexivity. Qed.

Lemma is_prefix_app (p l : list byte) : is_prefix p (p ++ l) = true.
Proof.
  induction p as [|x p IH]; cbn [app is_prefix]; [reflexivity|].
  rewrite Z.eqb_refl. exact IH.
Qed.

Lemma find_from_here (needle hay : list byte) (i : Z) :
  is_prefix needle hay = true -> find_from needle hay i = Some i.
Proof.
  intros H. destruct hay; cbn [find_from]; rewrite H; reflexivity.
Qed.

Lemma digits_value_stop (ds rest : list byte) (t : byte) (acc : Z) :
  Forall (fun b => isdigit b = true) ds ->
  isdigit t = false ->
  digits_value (ds ++ t :: rest) acc
  = fold_left (fun acc b => acc * 10 + (b - 48)) ds acc.
Proof.
  intros H Ht. revert acc. induction H as [|b ds Hb _ IH]; intros acc.
  - cbn. rewrite Ht. reflexivity.
  - cbn [app digits_value fold_left]. rewrite Hb. apply IH.
Qed.

Lemma skip_digits_stop (ds rest : list byte) (t : byte) :
  Forall (fun b => isdigit b = true) ds ->
  isdigit t = false ->
  skip_digits (ds ++ t :: rest) = t :: rest.
Proof.
  intros H Ht. induction H as [|b ds Hb _ IH]; cbn [app skip_digits].
  - rewrite Ht. reflexivity.
  - rewrite Hb. exact IH.
Qed.

(** Behind one blank and before a digit there is no sign. *)
Lemma blank_then_digit (d : byte) (l : list byte) :
  isdigit d = true ->
  skip_spaces (32 :: d :: l) = d :: l /\
  match d :: l with
  | 45 :: r => (true, r)
  | 43 :: r => (false, r)
  | _ => (false, d :: l)
  end = (false, d :: l) /\
  match d :: l with
  | 45 :: r => r
  | 43 :: r => r
  | _ => d :: l
  end = d :: l.
Proof.
  intros Hd. split; [|split].
  - cbn [skip_spaces]. change (isspace 32) with true. cbn iota.
    replace (isspace d) with false; [reflexivity|].
    unfold isdigit, isspace in *. lia.
  - assert (d <> 45 /\ d <> 43) as [H45 H43]
      by (unfold isdigit in Hd; lia).
    destruct d as [|q|q]; try reflexivity.
    do 6 (destruct q as [q|q|]; try reflexivity); congruence.
  - assert (d <> 45 /\ d <> 43) as [H45 H43]
      by (unfold isdigit in Hd; lia).
    destruct d as [|q|q]; try reflexivity.
    do 6 (destruct q as [q|q|]; try reflexivity); congruence.
Qed.

(** What [%u] converts behind one blank: the digits up to the first byte
    that is none, when they denote less than 2^32. *)
Lemma scan_unsigned_digits (ds rest : list byte) (t : byte) :
  ds <> [] ->
  Forall (fun b => isdigit b = true) ds ->
  isdigit t = false ->
  decimal_value ds < 2 ^ 32 ->
  scan_unsigned (32 :: ds ++ t :: rest) = Some (decimal_value ds).
Proof.
  intros Hne Hds Ht Hv. destruct ds as [|d ds]; [congruence|].
  inversion Hds as [|? ? Hd Hds']; subst.
  unfold scan_unsigned. cbn [app].
  destruct (@blank_then_digit d (ds ++ t :: rest) Hd) as (Hsp & Hsign & _).
  rewrite Hsp, Hsign, Hd.
  change (d :: ds ++ t :: rest) with ((d :: ds) ++ t :: rest).
  rewrite digits_value_stop by assumption.
  fold (decimal_value (d :: ds)).
  destruct (Z.ltb_spec (2 ^ 32 - 1) (decimal_value (d :: ds))); [lia|].
  reflexivity.
Qed.

Lemma scan_defined_digits (ds rest : list byte) (t : byte) :
  ds <> [] ->
  Forall (fun b => isdigit b = true) ds ->
  isdigit t = false ->
  decimal_value ds < 2 ^ 32 ->
  scan_defined (32 :: ds ++ t :: rest) = true.
Proof.
  intros Hne Hds Ht Hv. destruct ds as [|d ds]; [congruence|].
  inversion Hds as [|? ? Hd Hds']; subst.
  unfold scan_defined. cbn [app].
  destruct (@blank_then_digit d (ds ++ t :: rest) Hd) as (Hsp & _ & Hsign).
  rewrite Hsp, Hsign, Hd.
  change (d :: ds ++ t :: rest) with ((d :: ds) ++ t :: rest).
  rewrite digits_value_stop, skip_digits_stop by assumption.
  fold (decimal_value (d :: ds)).
  destruct (Z.ltb_spec (decimal_value (d :: ds)) (2 ^ 32)); [reflexivity|lia].
Qed.

Lemma digit_is_not (b c : byte) :
  isdigit b = true -> isdigit c = false -> b <> c.
Proof. intros Hb Hc ->. congruence. Qed.

(** X6: the parser on a packet buffer that starts with a header as a
    server writes it, with a status code and a content length below
    2^32, whatever follows (the body, bytes left from an earlier packet):
    the status code and the content length are the numbers their digits
    denote, and the header length is the length of the header, the offset
    of the body.  Both conversions end inside the buffer, so the result
    depends neither on the C library nor on what stands behind the
    buffer. *)
Theorem header_round_trip (status clen tail : list byte) :
  status <> [] -> clen <> [] ->
  Forall (fun b => isdigit b = true) status ->
  Forall (fun b => isdigit b = true) clen ->
  decimal_value status < 2 ^ 32 ->
  decimal_value clen < 2 ^ 32 ->
  parse_defined (http_header status clen ++ tail) = true /\
  response_header_from_string (http_header status clen ++ tail)
  = {| status_code := decimal_value status;
       content_length := decimal_value clen;
       header_length := Z.of_nat (length (http_header status clen)) |}.
Proof.
  intros Hs Hc Hsd Hcd Hsv Hcv.
  unfold parse_defined, response_header_from_string, http_header.
  (* the status line *)
  assert (H1 : find (bytes_of_string "HTTP/1.1 ")
                 (((bytes_of_string "HTTP/1.1 " ++ status
                    ++ bytes_of_string " OK" ++ CRLF)
                   ++ (bytes_of_string "Content-Length: " ++ clen ++ CRLF)
                   ++ CRLF) ++ tail) = Some 0).
  { unfold find. apply find_from_here.
    rewrite <- !app_assoc. apply is_prefix_app. }
  rewrite H1.
  assert (H2 : skipn (Z.to_nat (0 + 8))
                 (((bytes_of_string "HTTP/1.1 " ++ status
                    ++ bytes_of_string " OK" ++ CRLF)
                   ++ (bytes_of_string "Content-Length: " ++ clen ++ CRLF)
                   ++ CRLF) ++ tail)
               = 32 :: status
                 ++ 32 :: (bytes_of_string "OK" ++ CRLF
                           ++ (bytes_of_string "Content-Length: " ++ clen
                               ++ CRLF) ++ CRLF ++ tail)).
  { rewrite <- !app_assoc. reflexivity. }
  rewrite H2, scan_unsigned_digits, scan_defined_digits
    by (auto; reflexivity).
  (* the Content-Length line *)
  set (pre := bytes_of_string "HTTP/1.1 " ++ status
              ++ bytes_of_string " OK" ++ CRLF).
  assert (Hpre : Forall (fun b => b <> 67) pre).
  { subst pre. repeat (apply Forall_app; split);
      try (repeat constructor; discriminate).
    eapply Forall_impl; [|exact Hsd].
    intros b Hb. apply (digit_is_not Hb). reflexivity. }
  assert (H3 : find (bytes_of_string "Content-Length: ")
                 ((pre ++ (bytes_of_string "Content-Length: " ++ clen ++ CRLF)
                   ++ CRLF) ++ tail)
               = Some (Z.of_nat (length pre))).
  { unfold find. rewrite <- !app_assoc.
    change (bytes_of_string "Content-Length: ")
      with (67 :: bytes_of_string "ontent-Length: ") at 1.
    rewrite find_from_skip by exact Hpre.
    apply find_from_here.
    change (67 :: bytes_of_string "ontent-Length: ")
      with (bytes_of_string "Content-Length: ").
    apply is_prefix_app. }
  rewrite H3.
  assert (H4 : skipn (Z.to_nat (Z.of_nat (length pre) + 15))
                 ((pre ++ (bytes_of_string "Content-Length: " ++ clen ++ CRLF)
                   ++ CRLF) ++ tail)
               = 32 :: clen ++ 13 :: (10 :: CRLF ++ tail)).
  { replace (Z.to_nat (Z.of_nat (length pre) + 15))
      with (length pre + 15)%nat by lia.
    rewrite <- !app_assoc. rewrite skipn_app_exact. reflexivity. }
  rewrite H4, scan_unsigned_digits, scan_defined_digits
    by (auto; reflexivity).
  (* the empty line *)
  set (pre1 := bytes_of_string "HTTP/1.1 " ++ status ++ bytes_of_string " OK").
  set (pre2 := 10 :: bytes_of_string "Content-Length: " ++ clen).
  assert (Hpre1 : Forall (fun b => b <> 13) pre1).
  { subst pre1. repeat (apply Forall_app; split);
      try (repeat constructor; discriminate).
    eapply Forall_impl; [|exact Hsd].
    intros b Hb. apply (digit_is_not Hb). reflexivity. }
  assert (Hpre2 : Forall (fun b => b <> 13) pre2).
  { subst pre2. constructor; [discriminate|].
    apply Forall_app; split; [repeat constructor; discriminate|].
    eapply Forall_impl; [|exact Hcd].
    intros b Hb. apply (digit_is_not Hb). reflexivity. }
  assert (Hshape : (pre ++ (bytes_of_string "Content-Length: " ++ clen ++ CRLF)
                    ++ CRLF) ++ tail
                   = pre1 ++ 13 :: pre2 ++ end_of_header ++ tail).
  { subst pre pre1 pre2. unfold end_of_header, CRLF, CR, LF.
    rewrite <- !app_assoc. cbn [app]. rewrite <- !app_assoc. reflexivity. }
  assert (H5 : find end_of_header
                 ((pre ++ (bytes_of_string "Content-Length: " ++ clen ++ CRLF)
                   ++ CRLF) ++ tail)
               = Some (Z.of_nat (length pre1) + 1 + Z.of_nat (length pre2))).
  { rewrite Hshape. unfold find.
    change end_of_header with (13 :: [10; 13; 10]) at 1.
    rewrite find_from_skip by exact Hpre1.
    rewrite find_from_step by (subst pre2; reflexivity).
    subst pre2. cbn [app].
    rewrite find_from_step by reflexivity.
    rewrite find_from_skip by (inversion Hpre2; assumption).
    rewrite find_from_here by (apply (is_prefix_app end_of_header)).
    f_equal. cbn [length]. unfold byte in *. lia. }
  rewrite H5. split; [reflexivity|]. f_equal.
  subst pre pre1 pre2. unfold end_of_header, CRLF.
  rewrite !length_app. cbn [length]. rewrite !length_app. cbn [length]. lia.
Qed.

(* ------------------------------------------------------------------ *)
(** ** The names of the methods *)

(** X7: [to_string] gives different methods different names. *)
Theorem to_string_injective (a b : http_method) :
  to_string a = to_string b -> a = b.
Proof.
  destruct a, b; intros H; try reflexivity; vm_compute in H; discriminate H.
Qed.

(* ------------------------------------------------------------------ *)
(** ** Once connected *)

(** In a phase from connected_to_ap on, a transition leaves the next
    phase in that range. *)
Lemma transition_next_connected (d : esp8266) :
  connected d = true ->
  state_index connected_to_ap <= state_index (m_next_state d) ->
  state_index connected_to_ap
  <= state_index (m_next_state (transition_state d)).
Proof.
  unfold connected. intros Hc Hn.
  split_transition; cbn in Hc; try discriminate Hc; cbn; try lia; exact Hn.
Qed.

(** The phase and the next phase after a call of [get_status] while a
    reader is at work: a driver in phase reset gets its next phase set,
    nothing else changes. *)
Lemma get_status_reading (d : esp8266) :
  m_read_state d <> read_complete ->
  m_state (get_status d) = m_state d /\
  m_next_state (get_status d)
  = if state_eqb (m_state d) reset then disable_echo else m_next_state d.
Proof.
  intros Hrs. unfold get_status.
  set (d1 := if state_eqb (m_state d) reset then transition_state d else d).
  assert (H1 : m_state d1 = m_state d /\ m_read_state d1 = m_read_state d /\
               m_next_state d1 = if state_eqb (m_state d) reset
                                 then disable_echo else m_next_state d).
  { subst d1. destruct (state_eqb (m_state d) reset) eqn:E; [|auto].
    assert (Hst : m_state d = reset)
      by (destruct (m_state d); cbn in E; congruence).
    unfold transition_state. rewrite Hst. cbn. auto. }
  destruct H1 as (H1 & H2 & H3). rewrite <- H3, <- H1.
  rewrite <- H2 in Hrs. clearbody d1.
  destruct (m_read_state d1) eqn:E.
  - destruct (CommandAndFindResponse.done _ _ _) as [[fin c] s].
    destruct fin; auto.
  - destruct (ReadIntoBuffer.done _ _ _) as [[[fin r] m] s].
    destruct fin; auto.
  - destruct (ReadInteger.done _ _) as [[fin r] s].
    destruct fin; auto.
  - congruence.
Qed.

(** The same with no reader at work: the driver enters its next phase. *)
Lemma get_status_entering (d : esp8266) :
  m_read_state d = read_complete ->
  get_status d
  = transition_state
      (set_state (if state_eqb (m_state d) reset
                  then disable_echo else m_next_state d)
                 (if state_eqb (m_state d) reset
                  then set_next_state disable_echo d else d)).
Proof.
  intros Hrs. unfold get_status.
  destruct (state_eqb (m_state d) reset) eqn:E.
  - assert (Hst : m_state d = reset)
      by (destruct (m_state d); cbn in E; congruence).
    assert (Ht : transition_state d = set_next_state disable_echo d)
      by (unfold transition_state; rewrite Hst; reflexivity).
    rewrite Ht. cbn [m_read_state set_next_state]. rewrite Hrs. reflexivity.
  - rewrite Hrs. reflexivity.
Qed.

Lemma connected_not_reset (d : esp8266) :
  connected d = true -> state_eqb (m_state d) reset = false.
Proof.
  unfold connected. destruct (m_state d); cbn; congruence.
Qed.

Lemma connected_get_status (d : esp8266) :
  connected d = true ->
  state_index connected_to_ap <= state_index (m_next_state d) ->
  connected (get_status d) = true /\
  state_index connected_to_ap <= state_index (m_next_state (get_status d)).
Proof.
  intros Hc Hn. pose proof (connected_not_reset d Hc) as Hnr.
  destruct (m_read_state d) eqn:Hrs.
  1-3: destruct (@get_status_reading d ltac:(congruence)) as [Hs Hx];
       rewrite Hnr in Hx; unfold connected in *; rewrite Hs, Hx; auto.
  rewrite get_status_entering by exact Hrs. rewrite Hnr.
  assert (Hc' : connected (set_state (m_next_state d) d) = true)
    by (unfold connected; cbn; apply Z.geb_le; exact Hn).
  split.
  - unfold connected in *. rewrite transition_keeps_state. exact Hc'.
  - apply transition_next_connected; [exact Hc' | exact Hn].
Qed.

(** In every driver the caller can have that is connected, the next phase
    is from connected_to_ap on. *)
Lemma connected_next (d : esp8266) :
  reachable d ->
  connected d = true ->
  state_index connected_to_ap <= state_index (m_next_state d).
Proof.
  induction 1 as [s ssid pw resp | e d Hd IH].
  - cbn. discriminate.
  - assert (Hget : forall x,
               (connected x = true ->
                state_index connected_to_ap <= state_index (m_next_state x)) ->
               connected (get_status x) = true ->
               state_index connected_to_ap
               <= state_index (m_next_state (get_status x))).
    { intros x Hx Hc.
      destruct (connected x) eqn:Hcx.
      - apply connected_get_status; auto.
      - (* not connected before: the call entered connected_to_ap or a
           later phase *)
        destruct (m_read_state x) eqn:Hrs.
        1-3: destruct (@get_status_reading x ltac:(congruence)) as [Hs _];
             unfold connected in *; rewrite Hs in Hc; congruence.
        rewrite get_status_entering in * by exact Hrs.
        set (x1 := set_state _ _) in *.
        unfold connected in Hc. rewrite transition_keeps_state in Hc.
        apply transition_next_connected; [exact Hc|].
        subst x1. cbn [m_next_state m_state set_state] in *.
        destruct (state_eqb (m_state x) reset); cbn in *;
          [discriminate | apply Z.geb_le; exact Hc]. }
    destruct e as [bs|n|r|ssid password|]; cbn [step].
    + exact IH.
    + clear Hd. revert d IH. induction n as [|n IHn]; intros d IH;
        cbn [ticks]; [exact IH|].
      apply IHn. apply Hget. exact IH.
    + unfold request. intros Hc.
      apply transition_next_connected.
      * unfold connected in *. rewrite transition_keeps_state in Hc. exact Hc.
      * cbn. lia.
    + intros _. cbn. lia.
    + unfold driver_initialize. destruct (negb _); cbn [snd].
      * exact IH.
      * unfold connected. cbn. discriminate.
Qed.

Lemma connected_step (e : event) (d : esp8266) :
  reachable d -> keeps_phase e -> connected d = true ->
  connected (step e d) = true.
Proof.
  intros Hd He Hc.
  destruct e as [bs|n|r|ssid password|]; cbn [step]; cbn in He.
  - exact Hc.
  - revert d Hd Hc. induction n as [|n IHn]; intros d Hd Hc;
      cbn [ticks]; [exact Hc|].
    apply IHn.
    + exact (reachable_step (Poll 1) Hd).
    + apply connected_get_status; [exact Hc|].
      apply connected_next; assumption.
  - unfold request, connected in *. rewrite transition_keeps_state. exact Hc.
  - exact Hc.
  - contradiction.
Qed.

(** X8: once [connected] is true of a driver the caller can have without
    a call that left the buffers, it stays true whatever arrives and
    whichever of [get_status], [request] and [change_access_point] is
    called, as long as these calls stay inside the buffers; only
    [initialize] ends it. *)
Theorem connected_is_kept (d : esp8266) (es : list event) :
  defined_reachable d ->
  connected d = true ->
  Forall keeps_phase es ->
  run_defined es d = true ->
  connected (run es d) = true.
Proof.
  intros Hd Hc Hes _. apply defined_reachable_reachable in Hd.
  revert d Hd Hc.
  induction Hes as [|e es He _ IH]; intros d Hd Hc; [exact Hc|].
  unfold run. cbn [fold_left]. apply IH.
  - constructor. exact Hd.
  - apply connected_step; assumption.
Qed.

(* ------------------------------------------------------------------ *)
(** ** The association *)

(** X9: [initialize] succeeds on a driver with no reader at work and
    nothing unread on the port, whatever its phase, credentials and
    buffer; the module acknowledges each command as in [association].
    The driver comes to rest in connected_to_ap, and what it wrote is
    ATE0, AT+CWMODE=1 and AT+CWJAP_CUR with the ssid and the password
    between quotes, each line ended by CR LF; the credentials and the
    response buffer are as before. *)
Theorem association_from_rest (d : esp8266) :
  init_ok (m_serial d) = true ->
  m_read_state d = read_complete ->
  rx (m_serial d) = [] ->
  let d1 := run association (snd (driver_initialize d)) in
  fst (driver_initialize d) = true /\
  settled d1 /\
  m_state d1 = connected_to_ap /\
  rx (m_serial d1) = [] /\
  tx (m_serial d1)
  = tx (m_serial d)
    ++ (bytes_of_string "ATE0" ++ CRLF)
    ++ (bytes_of_string "AT+CWMODE=1" ++ CRLF)
    ++ (bytes_of_string "AT+CWJAP_CUR=" ++ [DQUOTE])
    ++ m_ssid d
    ++ ([DQUOTE] ++ bytes_of_string "," ++ [DQUOTE])
    ++ m_password d
    ++ ([DQUOTE] ++ CRLF) /\
  m_ssid d1 = m_ssid d /\
  m_password d1 = m_password d /\
  m_response d1 = m_response d /\
  m_request d1 = m_request d.
Proof.
  destruct d as [ser resp ssid pw cmdr rdr ir pkt req hdr st nst rs rl rp].
  destruct ser as [rx0 tx0 set0 ok0].
  cbn [m_serial init_ok m_read_state rx]. intros -> -> ->. cbv zeta.
  assert (Htx : forall a b c e g : list byte,
             tx0 ++ a ++ b ++ c ++ ssid ++ e ++ pw ++ g
             = ((((((tx0 ++ a) ++ b) ++ c) ++ ssid) ++ e) ++ pw) ++ g)
    by (intros; rewrite <- !app_assoc; reflexivity).
  rewrite Htx. unfold settled.
  vm_compute. repeat split.
Qed.

(* ------------------------------------------------------------------ *)
(** ** The request on the wire *)

Lemma nb_digits_double (d : Decimal.uint) :
  (Decimal.nb_digits (Decimal.Little.double d) <= S (Decimal.nb_digits d))%nat
  /\ (Decimal.nb_digits (Decimal.Little.succ_double d)
      <= S (Decimal.nb_digits d))%nat.
Proof.
  induction d as [|d [IH1 IH2]|d [IH1 IH2]|d [IH1 IH2]|d [IH1 IH2]
                  |d [IH1 IH2]|d [IH1 IH2]|d [IH1 IH2]|d [IH1 IH2]
                  |d [IH1 IH2]|d [IH1 IH2]];
    cbn [Decimal.Little.double Decimal.Little.succ_double Decimal.nb_digits];
    lia.
Qed.

Lemma nb_digits_to_little_uint (p : positive) :
  (Decimal.nb_digits (Pos.to_little_uint p) <= Pos.size_nat p)%nat.
Proof.
  induction p as [p IH|p IH|]; cbn [Pos.to_little_uint Pos.size_nat].
  - pose proof (proj2 (nb_digits_double (Pos.to_little_uint p))). lia.
  - pose proof (proj1 (nb_digits_double (Pos.to_little_uint p))). lia.
  - cbn. lia.
Qed.

Lemma nb_digits_revapp (d d' : Decimal.uint) :
  Decimal.nb_digits (Decimal.revapp d d')
  = (Decimal.nb_digits d + Decimal.nb_digits d')%nat.
Proof.
  revert d'. induction d; intros d'; cbn [Decimal.revapp Decimal.nb_digits];
    try reflexivity; rewrite IHd; cbn [Decimal.nb_digits]; lia.
Qed.

Lemma size_nat_bound (p : positive) (n : nat) :
  Z.pos p < 2 ^ Z.of_nat n -> (Pos.size_nat p <= n)%nat.
Proof.
  revert n. induction p as [p IH|p IH|]; intros n H; cbn [Pos.size_nat].
  - destruct n as [|n]; [cbn in H; lia|].
    rewrite Nat2Z.inj_succ, Z.pow_succ_r in H by lia.
    specialize (IH n). lia.
  - destruct n as [|n]; [cbn in H; lia|].
    rewrite Nat2Z.inj_succ, Z.pow_succ_r in H by lia.
    specialize (IH n). lia.
  - destruct n as [|n]; [cbn in H; lia | lia].
Qed.

Lemma length_bytes_of_string (s : string) :
  length (bytes_of_string s) = String.length s.
Proof.
  unfold bytes_of_string. rewrite length_map.
  induction s as [|a s IH]; cbn; congruence.
Qed.

Lemma length_string_of_uint (d : Decimal.uint) :
  String.length (NilEmpty.string_of_uint d) = Decimal.nb_digits d.
Proof. induction d; cbn; congruence. Qed.

(** [%d] of an [int] that is not negative prints at most 31 characters. *)
Lemma decimal_length (z : Z) :
  0 <= z < 2 ^ 31 -> (length (decimal z) <= 31)%nat.
Proof.
  intros Hz. unfold decimal. rewrite length_bytes_of_string.
  destruct z as [|p|p]; [cbn; lia | | lia].
  cbn [Z.to_int NilZero.string_of_int].
  assert (Hn : (Decimal.nb_digits (Pos.to_uint p) <= 31)%nat).
  { unfold Pos.to_uint, Decimal.rev. rewrite nb_digits_revapp.
    cbn [Decimal.nb_digits]. rewrite Nat.add_0_r.
    etransitivity; [apply nb_digits_to_little_uint|].
    apply size_nat_bound. exact (proj2 Hz). }
  unfold NilZero.string_of_uint.
  rewrite <- length_string_of_uint in Hn.
  destruct (Pos.to_uint p); [cbn; lia | exact Hn ..].
Qed.

Lemma slice_store_prefix (buf src : list byte) (k : nat) :
  (length src <= length buf)%nat -> (k <= length src)%nat ->
  slice (store buf 0 src) 0 (Z.of_nat k) = firstn k src.
Proof.
  intros Hfit Hk. rewrite store_inside by lia.
  unfold slice. rewrite Nat2Z.id. cbn [Z.to_nat skipn firstn app].
  rewrite firstn_app. replace (k - length src)%nat with O by lia.
  cbn [firstn]. apply app_nil_r.
Qed.

(** X10: the entry to preparing_request with a request whose strings are
    terminated by a NUL in memory and whose text is shorter than the
    response buffer (of at most 2^31 bytes), and the call of [get_status]
    after it.  The text and a NUL stand at the start of the response
    buffer, the request length is the length of the text, and what the
    two steps write to the port is AT+CIPSEND= with that length in
    decimal, CR LF, and then the text itself: GET, what stands from
    [path.data()] to the NUL, HTTP/1.1, the Host line with what stands
    from [domain.data()] and [port.data()] to the NUL, and two empty
    lines.  The phase is still preparing_request, the terminator in force
    is [+IPD,] and the next phase is get_first_packet_length.  Both calls
    stay inside the buffers. *)
Theorem request_on_the_wire (d : esp8266) :
  m_state d = preparing_request ->
  terminated (path (m_request d)) = true ->
  terminated (domain (m_request d)) = true ->
  terminated (port (m_request d)) = true ->
  Z.of_nat (length (format_request (m_request d)))
  < Z.of_nat (length (m_response d)) ->
  Z.of_nat (length (m_response d)) <= 2 ^ 31 ->
  let text := format_request (m_request d) in
  let d1 := transition_state d in
  let d2 := get_status d1 in
  m_request_length d1 = Z.of_nat (length text) /\
  firstn (length text + 1) (m_response d1) = text ++ [0] /\
  tx (m_serial d1)
  = tx (m_serial d)
    ++ bytes_of_string "AT+CIPSEND=" ++ decimal (Z.of_nat (length text))
    ++ CRLF /\
  tx (m_serial d2) = tx (m_serial d1) ++ text /\
  m_state d2 = preparing_request /\
  m_next_state d2 = get_first_packet_length /\
  CommandAndFindResponse.m_sequence (m_commander d2) = bytes_of_string "+IPD," /\
  transition_defined d = true /\
  get_status_defined d1 = true.
Proof.
  intros Hst Hpath Hdomain Hport Hfit Hsize text d1 d2.
  assert (Hdef : transition_defined d = true).
  { unfold transition_defined. rewrite Hst, Hpath, Hdomain, Hport.
    cbn [andb]. apply orb_true_iff. right. apply Z.leb_le. lia. }
  change (Z.of_nat (length text) < Z.of_nat (length (m_response d))) in Hfit.
  set (n := Z.of_nat (length text)) in *.
  set (line := bytes_of_string "AT+CIPSEND=" ++ decimal n ++ CRLF).
  assert (Hn : 0 <= n < 2 ^ 31) by (subst n; lia).
  assert (Hline : (length line <= 44)%nat).
  { subst line. rewrite !length_app.
    pose proof (decimal_length Hn). cbn [length CRLF].
    change (length (bytes_of_string "AT+CIPSEND=")) with 11%nat. lia. }
  (* the two calls of snprintf *)
  assert (Hd1 : d1
    = enter_sending_request
        (set_read_state until_sequence
           (set_next_state sending_request
              (new_search empty_span ok_response
                 (write line
                    (set_request_length n
                       (set_response
                          (store (m_response d) 0 (text ++ [0])) d))))))).
  { subst d1. unfold transition_state. rewrite Hst.
    unfold enter_preparing_request, snprintf. fold text. fold n.
    replace (Z.of_nat (length (m_response d)) <=? 0) with false
      by (symmetry; apply Z.leb_gt; lia).
    replace (n >? INT_MAX) with false
      by (symmetry; unfold INT_MAX; rewrite Z.gtb_ltb; apply Z.ltb_ge; lia).
    rewrite firstn_all2 by lia.
    cbn [m_request_length set_request_length].
    replace (n <? 0) with false by (symmetry; apply Z.ltb_ge; lia).
    fold line.
    change (64 <=? 0) with false. cbn iota.
    replace (Z.of_nat (length line) >? INT_MAX) with false
      by (symmetry; unfold INT_MAX; rewrite Z.gtb_ltb; apply Z.ltb_ge; lia).
    replace (Z.of_nat (length line) <? 0) with false
      by (symmetry; apply Z.ltb_ge; lia).
    change (Z.to_nat (64 - 1)) with 63%nat.
    rewrite (firstn_all2 (n:=63) line) by lia.
    rewrite slice_store_prefix
      by (rewrite ?length_app, ?repeat_length; cbn [length]; lia).
    rewrite firstn_app, firstn_all, Nat.sub_diag. cbn [firstn].
    rewrite app_nil_r. reflexivity. }
  assert (Hresp : m_response d1 = store (m_response d) 0 (text ++ [0]))
    by (rewrite Hd1; reflexivity).
  assert (Hcmd : span_bytes (mem_of d1)
                   {| base := Response; off := 0; len := wrap_size n |}
                 = text).
  { unfold span_bytes. cbn [base off len region_bytes mem_of response_mem].
    rewrite Hresp, wrap_size_small by lia. subst n.
    rewrite slice_store_prefix
      by (rewrite ?length_app; cbn [length]; lia).
    rewrite firstn_app, firstn_all, Nat.sub_diag. cbn [firstn].
    apply app_nil_r. }
  split; [rewrite Hd1; reflexivity|].
  split.
  { rewrite Hresp, store_inside by (rewrite ?length_app; cbn [length]; lia).
    cbn [Z.to_nat firstn app].
    replace (length text + 1)%nat with (length (text ++ [0]))
      by (rewrite length_app; reflexivity).
    apply firstn_app_exact. }
  split; [rewrite Hd1; reflexivity|].
  (* the call of get_status *)
  assert (Hd2 : d2 = get_status d1) by reflexivity.
  unfold get_status in Hd2.
  assert (Hs1 : m_state d1 = preparing_request)
    by (rewrite Hd1; cbn; exact Hst).
  assert (Hr1 : m_read_state d1 = until_sequence)
    by (rewrite Hd1; reflexivity).
  assert (Hc1 : m_commander d1
                = CommandAndFindResponse.new_search
                    {| base := Response; off := 0; len := wrap_size n |}
                    (bytes_of_string "+IPD,") CommandAndFindResponse.init)
    by (rewrite Hd1; reflexivity).
  assert (Hn1 : m_next_state d1 = get_first_packet_length)
    by (rewrite Hd1; reflexivity).
  rewrite Hs1 in Hd2. change (state_eqb preparing_request reset) with false in Hd2.
  cbn iota in Hd2. rewrite Hr1, Hc1 in Hd2.
  pose proof (done_command (mem_of d1)
                (CommandAndFindResponse.new_search
                   {| base := Response; off := 0; len := wrap_size n |}
                   (bytes_of_string "+IPD,") CommandAndFindResponse.init)
                (m_serial d1)) as Hdc.
  destruct (CommandAndFindResponse.done _ (mem_of d1) (m_serial d1))
    as [[fin c] s].
  destruct Hdc as (_ & Hseq & Htx & _).
  cbn [CommandAndFindResponse.new_search
       CommandAndFindResponse.m_search_index
       CommandAndFindResponse.m_sequence
       CommandAndFindResponse.m_sent_command
       CommandAndFindResponse.m_command] in Htx, Hseq.
  change (Nat.eqb 0 (length (bytes_of_string "+IPD,")) || false)
    with false in Htx.
  cbn iota in Htx.
  assert (Hfields : tx (m_serial d2) = tx s /\ m_state d2 = m_state d1 /\
                    m_next_state d2 = m_next_state d1 /\
                    m_commander d2 = c)
    by (rewrite Hd2; destruct fin; cbn; auto).
  destruct Hfields as (F1 & F2 & F3 & F4).
  assert (Hdef1 : get_status_defined d1 = true).
  { unfold get_status_defined. rewrite Hs1.
    change (state_eqb preparing_request reset) with false. cbn iota.
    rewrite Hr1, Hc1.
    cbn [CommandAndFindResponse.new_search
         CommandAndFindResponse.m_search_index
         CommandAndFindResponse.m_sequence
         CommandAndFindResponse.m_sent_command
         CommandAndFindResponse.m_command].
    apply orb_true_iff. right. apply span_inside_spec.
    unfold span_in_bounds.
    cbn [base off len region_bytes mem_of response_mem].
    rewrite wrap_size_small, Hresp, length_store by lia. lia. }
  rewrite F1, F2, F3, F4, Htx, Hcmd, Hs1, Hn1, Hseq. auto 10.
Qed.

(* ------------------------------------------------------------------ *)
(** ** The method and the data of a request *)

(** Projections of updated drivers. *)
Ltac driver_fields :=
  cbn [m_serial m_response m_ssid m_password m_commander m_reader
       m_integer_reader m_packet m_request m_header m_state m_next_state
       m_read_state m_request_length m_response_position
       set_serial set_response set_ssid set_password set_commander
       set_reader set_integer_reader set_packet set_request set_header
       set_state set_next_state set_read_state set_request_length
       set_response_position
       domain path port method send_data wire_request].

Ltac driver_fields_in H :=
  cbn [m_serial m_response m_ssid m_password m_commander m_reader
       m_integer_reader m_packet m_request m_header m_state m_next_state
       m_read_state m_request_length m_response_position
       set_serial set_response set_ssid set_password set_commander
       set_reader set_integer_reader set_packet set_request set_header
       set_state set_next_state set_read_state set_request_length
       set_response_position] in H.

Lemma wire_transition (d : esp8266) :
  wire_driver (transition_state d) = transition_state (wire_driver d).
Proof.
  destruct d as [ser resp ssid pw cmdr rdr ir pkt req hdr st nst rs rl rp].
  unfold wire_driver, transition_state. driver_fields.
  destruct st; try reflexivity.
  - unfold enter_preparing_request, enter_sending_request, snprintf,
      new_search, write, format_request.
    driver_fields.
    repeat match goal with
           | |- context [if ?c then _ else _] => destruct c
           end; reflexivity.
  - unfold enter_parsing_header. driver_fields.
    repeat match goal with
           | |- context [if ?c then _ else _] => destruct c
           end; reflexivity.
  - driver_fields.
    repeat match goal with
           | |- context [if ?c then _ else _] => destruct c
           end; reflexivity.
Qed.

Lemma wire_get_status (d : esp8266) :
  wire_driver (get_status d) = get_status (wire_driver d).
Proof.
  unfold get_status.
  assert (H1 : wire_driver
                 (if state_eqb (m_state d) reset then transition_state d else d)
               = if state_eqb (m_state (wire_driver d)) reset
                 then transition_state (wire_driver d) else wire_driver d).
  { change (m_state (wire_driver d)) with (m_state d).
    destruct (state_eqb (m_state d) reset);
      [apply wire_transition | reflexivity]. }
  rewrite <- H1.
  generalize (if state_eqb (m_state d) reset then transition_state d else d).
  clear d H1. intros d.
  change (m_read_state (wire_driver d)) with (m_read_state d).
  destruct (m_read_state d).
  - change (m_commander (wire_driver d)) with (m_commander d).
    change (mem_of (wire_driver d)) with (mem_of d).
    change (m_serial (wire_driver d)) with (m_serial d).
    destruct (CommandAndFindResponse.done _ _ _) as [[fin c] s].
    destruct fin; reflexivity.
  - change (m_reader (wire_driver d)) with (m_reader d).
    change (mem_of (wire_driver d)) with (mem_of d).
    change (m_serial (wire_driver d)) with (m_serial d).
    destruct (ReadIntoBuffer.done _ _ _) as [[[fin r] m] s].
    destruct fin; reflexivity.
  - change (m_integer_reader (wire_driver d)) with (m_integer_reader d).
    change (m_serial (wire_driver d)) with (m_serial d).
    destruct (ReadInteger.done _ _) as [[fin r] s].
    destruct fin; reflexivity.
  - rewrite wire_transition. reflexivity.
Qed.

Lemma wire_step (e : event) (d : esp8266) :
  wire_driver (step e d) = step (wire_event e) (wire_driver d).
Proof.
  destruct e as [bs|n|r|ssid password|]; cbn [step wire_event].
  - reflexivity.
  - revert d. induction n as [|n IH]; intros d; cbn [ticks]; [reflexivity|].
    rewrite IH, wire_get_status. reflexivity.
  - unfold request. rewrite wire_transition. reflexivity.
  - reflexivity.
  - unfold driver_initialize.
    change (m_serial (wire_driver d)) with (m_serial d).
    destruct (negb _); reflexivity.
Qed.

Lemma wire_transition_defined (d : esp8266) :
  transition_defined (wire_driver d) = transition_defined d.
Proof.
  destruct d as [ser resp ssid pw cmdr rdr ir pkt req hdr st nst rs rl rp].
  unfold wire_driver, transition_defined, copy_in_bounds, format_request.
  driver_fields. reflexivity.
Qed.

Lemma wire_get_status_defined (d : esp8266) :
  get_status_defined (wire_driver d) = get_status_defined d.
Proof.
  unfold get_status_defined.
  change (m_state (wire_driver d)) with (m_state d).
  replace (if state_eqb (m_state d) reset
           then transition_state (wire_driver d) else wire_driver d)
    with (wire_driver
            (if state_eqb (m_state d) reset then transition_state d else d))
    by (destruct (state_eqb (m_state d) reset);
        [apply wire_transition | reflexivity]).
  generalize (if state_eqb (m_state d) reset then transition_state d else d).
  clear d. intros d.
  change (m_read_state (wire_driver d)) with (m_read_state d).
  destruct (m_read_state d); reflexivity.
Qed.

Lemma wire_step_defined (e : event) (d : esp8266) :
  step_defined (wire_event e) (wire_driver d) = step_defined e d.
Proof.
  destruct e as [bs|n|r|ssid password|]; cbn [step_defined wire_event];
    try reflexivity.
  revert d. induction n as [|n IH]; intros d; cbn [ticks_defined];
    [reflexivity|].
  rewrite <- wire_get_status, IH, wire_get_status_defined. reflexivity.
Qed.

(** X11: the driver never reads the method of a request nor its data to
    send.  Take a run that stays inside the buffers; the run in which
    every request has them replaced by the defaults (GET, no data) stays
    inside the buffers too, goes through the same phases, writes the same
    bytes to the port, and leaves the same response buffer and header. *)
Theorem method_and_data_are_ignored (es : list event) (d : esp8266) :
  run_defined es d = true ->
  let d1 := run es d in
  let d2 := run (map wire_event es) (wire_driver d) in
  run_defined (map wire_event es) (wire_driver d) = true /\
  wire_driver d1 = d2 /\
  m_state d1 = m_state d2 /\
  tx (m_serial d1) = tx (m_serial d2) /\
  response d1 = response d2 /\
  m_header d1 = m_header d2 /\
  observed es d = observed (map wire_event es) (wire_driver d).
Proof.
  intros Hdef. cbv zeta.
  assert (Hrun : forall es d,
             wire_driver (run es d) = run (map wire_event es) (wire_driver d)).
  { clear. induction es as [|e es IH]; intros d; [reflexivity|].
    unfold run in *. cbn [map fold_left]. rewrite IH, wire_step. reflexivity. }
  assert (Hphases : forall n d, phases n d = phases n (wire_driver d)).
  { clear. induction n as [|n IH]; intros d; cbn [phases]; [reflexivity|].
    rewrite <- wire_get_status, <- IH. reflexivity. }
  split.
  { rewrite <- Hdef. clear. revert d.
    induction es as [|e es IH]; intros d; [reflexivity|].
    cbn [map run_defined].
    rewrite wire_step_defined, <- wire_step, IH. reflexivity. }
  split; [apply Hrun|].
  rewrite <- Hrun. repeat split.
  clear Hrun Hdef. revert d. induction es as [|e es IH]; intros d; [reflexivity|].
  cbn [observed map]. rewrite <- wire_step, <- IH. f_equal.
  destruct e; cbn [wire_event]; try reflexivity. apply Hphases.
Qed.

(* ------------------------------------------------------------------ *)
(** ** A further packet *)

(** X12: the length N > 0 of a further packet has been read, the packet
    fits behind the write cursor in a response buffer of less than 2^31
    bytes, and its N bytes are on the port.  Four calls of [get_status]
    enter read_packet_into_response, read the packet, and enter
    get_next_packet: the N bytes stand in the response buffer from the
    cursor on, the buffer is otherwise unchanged, the cursor has advanced
    by N, the bytes behind the packet are still unread, nothing was
    written to the port, and the next phase is close_connection when the
    cursor has reached the content length, get_packet_length otherwise. *)
Theorem packet_is_appended (d : esp8266) (payload rest : list byte) :
  m_read_state d = read_complete ->
  m_next_state d = read_packet_into_response ->
  state_eqb (m_state d) reset = false ->
  let N := ReadInteger.get (m_integer_reader d) in
  let pos := m_response_position d in
  0 < N -> 0 <= pos ->
  pos + N <= Z.of_nat (length (m_response d)) ->
  Z.of_nat (length (m_response d)) < 2 ^ 31 ->
  Z.of_nat (length payload) = N ->
  rx (m_serial d) = payload ++ rest ->
  let d' := ticks 4 d in
  m_state d' = get_next_packet /\
  m_read_state d' = read_complete /\
  m_response d'
  = firstn (Z.to_nat pos) (m_response d) ++ payload
    ++ skipn (Z.to_nat (pos + N)) (m_response d) /\
  m_response_position d' = pos + N /\
  rx (m_serial d') = rest /\
  tx (m_serial d') = tx (m_serial d) /\
  m_packet d' = m_packet d /\
  m_next_state d'
  = if pos + N >=? content_length (m_header d)
    then close_connection else get_packet_length.
Proof.
  destruct d as [ser resp ssid pw cmdr rdr ir pkt req hdr st nst rs rl pos].
  destruct ser as [rx0 tx0 set0 ok0]. destruct ir as [ifin ifound N].
  unfold ReadInteger.get.
  cbn [m_read_state m_next_state m_state m_integer_reader m_header
       ReadInteger.m_integer m_response_position m_response m_serial rx tx
       m_packet].
  intros -> -> Hnr HN Hpos Hfit Hsize Hlen ->. cbv zeta.
  set (sp := {| base := Response; off := pos; len := N |}).
  set (resp' := firstn (Z.to_nat pos) resp ++ payload
                ++ skipn (Z.to_nat (pos + N)) resp).
  set (ir := {| ReadInteger.m_finished := ifin;
                ReadInteger.m_found_digit := ifound;
                ReadInteger.m_integer := N |}).
  set (d := {| m_serial := {| rx := payload ++ rest; tx := tx0;
                              settings := set0; init_ok := ok0 |};
               m_response := resp; m_ssid := ssid; m_password := pw;
               m_commander := cmdr; m_reader := rdr;
               m_integer_reader := ir; m_packet := pkt; m_request := req;
               m_header := hdr; m_state := st;
               m_next_state := read_packet_into_response;
               m_read_state := read_complete; m_request_length := rl;
               m_response_position := pos |}).
  (* entering read_packet_into_response *)
  set (d1 := set_read_state into_buffer
               (set_next_state get_next_packet
                  (set_reader {| ReadIntoBuffer.m_memory := sp;
                                 ReadIntoBuffer.m_read_index := 0 |}
                     (set_state read_packet_into_response d)))).
  assert (H1 : get_status d = d1).
  { rewrite get_status_entering by reflexivity.
    subst d. driver_fields. rewrite Hnr.
    unfold transition_state. driver_fields.
    unfold ReadIntoBuffer.new_buffer, ReadInteger.get. subst ir.
    cbn [ReadInteger.m_integer]. rewrite wrap_size_small by lia.
    reflexivity. }
  (* the call that reads the packet *)
  set (d2 := set_serial {| rx := rest; tx := tx0;
                           settings := set0; init_ok := ok0 |}
               (set_response resp'
                  (set_reader {| ReadIntoBuffer.m_memory := sp;
                                 ReadIntoBuffer.m_read_index := N |} d1))).
  assert (H2 : get_status d1 = d2).
  { unfold get_status. subst d2 d1 d. driver_fields.
    change (state_eqb read_packet_into_response reset) with false. cbn iota.
    driver_fields. unfold ReadIntoBuffer.done.
    cbn [ReadIntoBuffer.m_memory ReadIntoBuffer.m_read_index sp len base off].
    rewrite (wrap_size_small (z:=0)) by lia.
    replace (0 =? N) with false by (symmetry; apply Z.eqb_neq; lia).
    unfold serial_read. cbn [rx tx settings init_ok].
    rewrite Z.sub_0_r, Z.add_0_r.
    replace (Z.to_nat N) with (length payload) by lia.
    rewrite firstn_app_exact.
    rewrite <- (Nat.add_0_r (length payload)) at 1. rewrite skipn_app_exact.
    cbn [skipn]. rewrite Z.add_0_l, to_int_small by lia.
    unfold mem_of, set_mem, write_region.
    driver_fields. cbn [packet_mem response_mem].
    rewrite store_inside by lia.
    replace (Z.to_nat pos + length payload)%nat with (Z.to_nat (pos + N))
      by lia.
    fold resp'. rewrite Hlen. reflexivity. }
  (* the call that finds the span full *)
  assert (H3 : get_status d2 = set_read_state read_complete d2).
  { unfold get_status. subst d2 d1 d. driver_fields.
    change (state_eqb read_packet_into_response reset) with false. cbn iota.
    driver_fields. unfold ReadIntoBuffer.done.
    cbn [ReadIntoBuffer.m_memory ReadIntoBuffer.m_read_index sp len base off].
    rewrite (wrap_size_small (z:=N)) by lia.
    rewrite Z.eqb_refl.
    unfold mem_of, set_mem. driver_fields. cbn [packet_mem response_mem].
    reflexivity. }
  (* entering get_next_packet *)
  cbn [ticks]. rewrite H1, H2, H3.
  rewrite get_status_entering by reflexivity.
  subst d2 d1 d. driver_fields.
  change (state_eqb read_packet_into_response reset) with false.
  cbn iota. driver_fields.
  unfold transition_state. driver_fields.
  unfold ReadInteger.get. subst ir. cbn [ReadInteger.m_integer].
  unfold wrap32. rewrite (Z.mod_small pos) by lia.
  rewrite to_int_small by lia.
  rewrite wrap_size_small by lia.
  destruct (_ >=? _); driver_fields; cbn [rx tx]; repeat split.
Qed.

(* ------------------------------------------------------------------ *)
(** ** Closing the connection *)

(** X13: a driver with no reader at work and nothing unread on the port
    is about to enter close_connection or close_connection_failure, and
    the module acknowledges the command.  The driver writes AT+CIPCLOSE
    and CR LF, nothing else, and comes to rest in Complete in the first
    case and in Failure in the second; the response buffer and the parsed
    header are as before. *)
Theorem connection_is_closed (d : esp8266) (success : bool) :
  m_read_state d = read_complete ->
  m_next_state d
  = (if success then close_connection else close_connection_failure) ->
  state_eqb (m_state d) reset = false ->
  rx (m_serial d) = [] ->
  let d' := run [Poll 2; Rx ok_response; Poll 6] d in
  m_state d' = (if success then complete else failure) /\
  settled d' /\
  tx (m_serial d') = tx (m_serial d) ++ bytes_of_string "AT+CIPCLOSE" ++ CRLF /\
  rx (m_serial d') = [] /\
  m_response d' = m_response d /\
  m_header d' = m_header d.
Proof.
  destruct d as [ser resp ssid pw cmdr rdr ir pkt req hdr st nst rs rl rp].
  destruct ser as [rx0 tx0 set0 ok0].
  cbn [m_read_state m_next_state m_state m_serial rx].
  intros -> -> Hnr ->. cbv zeta.
  match goal with
  | |- context [run _ ?x] =>
      pose proof (@get_status_entering x eq_refl) as H1
  end.
  driver_fields_in H1. rewrite Hnr in H1.
  unfold run, settled. cbn [fold_left step ticks]. rewrite H1.
  destruct success; vm_compute; repeat split.
Qed.

(* ------------------------------------------------------------------ *)
(** ** One step of the state machine *)

(** X14: a call of [get_status] that stays inside the buffers changes
    the phase only when no reader is at work, and then to the next phase
    the driver holds (to disable_echo from reset); it never skips a
    phase, and [transition_state] itself never changes the phase. *)
Theorem phase_after_get_status (d : esp8266) :
  get_status_defined d = true ->
  m_state (get_status d)
  = match m_read_state d with
    | read_complete =>
        if state_eqb (m_state d) reset then disable_echo else m_next_state d
    | _ => m_state d
    end.
Proof.
  intros _. destruct (m_read_state d) eqn:Hrs.
  1-3: apply get_status_reading; congruence.
  rewrite get_status_entering by exact Hrs.
  rewrite transition_keeps_state. reflexivity.
Qed.

(* ------------------------------------------------------------------ *)
(** ** The further properties at concrete inputs *)

Lemma buffer_reader_fills_witness :
  let sp := {| base := Response; off := 2; len := 3 |} in
  let m := {| packet_mem := []; response_mem := [0; 0; 0; 0; 0; 0] |} in
  let '(r, m', s') :=
    buffer_feed [[1]; []; [2; 3; 4]]
                (ReadIntoBuffer.new_buffer sp ReadIntoBuffer.init) m idle_port in
  span_bytes m' sp = [1; 2; 3] /\ rx s' = [4].
Proof.
  cbv zeta.
  pose proof (@buffer_reader_fills
                {| base := Response; off := 2; len := 3 |}
                {| packet_mem := []; response_mem := [0; 0; 0; 0; 0; 0] |}
                idle_port ReadIntoBuffer.init [[1]; []; [2; 3; 4]]
                (or_intror eq_refl)) as H.
  cbv zeta in H.
  destruct (buffer_feed _ _ _ idle_port) as [[r m'] s'].
  destruct H as (Hfull & _).
  - unfold span_in_bounds. cbn. lia.
  - cbn. lia.
  - reflexivity.
  - destruct Hfull as (Hspan & Hrx & _); [cbn; lia|].
    split; [exact Hspan | exact Hrx].
Defined.

Lemma integer_reader_waits_for_digit_witness :
  integer_polls 4 (ReadInteger.restart ReadInteger.init)
                (with_rx (bytes_of_string "+IPD,x") idle_port)
  = (repeat false 4, ReadInteger.restart ReadInteger.init,
     with_rx (skipn 4 (bytes_of_string "+IPD,x"))
             (with_rx (bytes_of_string "+IPD,x") idle_port)).
Proof.
  apply (@integer_reader_waits_for_digit
           (with_rx (bytes_of_string "+IPD,x") idle_port)
           ReadInteger.init 4).
  repeat constructor.
Defined.

Lemma terminator_found_behind_noise_witness :
  let m := {| packet_mem := []; response_mem := [] |} in
  let c := CommandAndFindResponse.new_search empty_span
             (bytes_of_string "+IPD,") CommandAndFindResponse.init in
  answer_after m (ok_response ++ bytes_of_string "+IPD,") c idle_port = true /\
  let '(c', s') :=
    feed m (ok_response ++ bytes_of_string "+IPD," ++ bytes_of_string "43:")
         c idle_port in
  rx s' = bytes_of_string "43:".
Proof.
  cbv zeta.
  pose proof (@terminator_found_behind_noise
                {| packet_mem := []; response_mem := [] |} idle_port
                empty_span (bytes_of_string "+IPD,")
                CommandAndFindResponse.init
                ok_response (bytes_of_string "43:")) as H.
  cbv zeta in H.
  destruct (feed _ (ok_response ++ bytes_of_string "+IPD,"
                    ++ bytes_of_string "43:") _ idle_port) as [c' s'].
  destruct H as (_ & Hans & _ & Hrx).
  - discriminate.
  - repeat constructor; discriminate.
  - reflexivity.
  - split; [exact Hans | exact Hrx].
Defined.

Lemma valid_header_shape_witness :
  let p := http_reply 5 (bytes_of_string "hello") in
  let h := response_header_from_string p in
  4 <= header_length h <= Z.of_nat (length p) /\
  slice p (header_length h - 4) 4 = end_of_header.
Proof.
  cbv zeta.
  pose proof (@valid_header_shape (http_reply 5 (bytes_of_string "hello")))
    as H.
  cbv zeta in H. destruct H as (_ & _ & Hb & Hs & _).
  - vm_compute. reflexivity.
  - split; [exact Hb | exact Hs].
Defined.

Lemma header_round_trip_witness :
  parse_defined
    (http_header (bytes_of_string "200") (bytes_of_string "5")
     ++ bytes_of_string "hello") = true /\
  response_header_from_string
    (http_header (bytes_of_string "200") (bytes_of_string "5")
     ++ bytes_of_string "hello")
  = {| status_code := 200; content_length := 5; header_length := 38 |}.
Proof.
  assert (Hs : Forall (fun b => isdigit b = true) (bytes_of_string "200"))
    by (repeat constructor).
  assert (Hc : Forall (fun b => isdigit b = true) (bytes_of_string "5"))
    by (repeat constructor).
  assert (Hsv : decimal_value (bytes_of_string "200") < 2 ^ 32)
    by by_evaluation.
  assert (Hcv : decimal_value (bytes_of_string "5") < 2 ^ 32)
    by by_evaluation.
  destruct (@header_round_trip (bytes_of_string "200") (bytes_of_string "5")
              (bytes_of_string "hello")
              ltac:(discriminate) ltac:(discriminate) Hs Hc Hsv Hcv)
    as [Hdef Hh].
  split; [exact Hdef|]. rewrite Hh. reflexivity.
Defined.

Lemma connected_is_kept_witness :
  connected (run (single_packet_get 43) (associated 128)) = true.
Proof.
  assert (Hc : connected (associated 128) = true) by by_evaluation.
  assert (Hk : Forall keeps_phase (single_packet_get 43))
    by (unfold single_packet_get, connect; cbn [app]; repeat constructor).
  assert (Hdef : run_defined (single_packet_get 43) (associated 128) = true)
    by by_evaluation.
  exact (connected_is_kept (associated_defined_reachable 128) Hc Hk Hdef).
Defined.

(** A driver that ended in Failure is initialised again and associates. *)
Lemma association_from_rest_witness :
  let d := run (first_packet 45 129 (bytes_of_string "hello") 20
                ++ [Rx ok_response; Poll 6])
               (associated 128) in
  m_state d = failure /\
  m_state (run association (snd (driver_initialize d))) = connected_to_ap.
Proof.
  cbv zeta.
  set (d := run _ (associated 128)).
  assert (Hf : m_state d = failure) by by_evaluation.
  assert (H1 : init_ok (m_serial d) = true) by by_evaluation.
  assert (H2 : m_read_state d = read_complete) by by_evaluation.
  assert (H3 : rx (m_serial d) = []) by by_evaluation.
  split; [exact Hf|].
  exact (proj1 (proj2 (proj2 (@association_from_rest d H1 H2 H3)))).
Defined.

Lemma request_on_the_wire_witness :
  let d := entering (run (connect example_request) (associated 128)) in
  tx (m_serial (get_status (transition_state d)))
  = tx (m_serial (transition_state d)) ++ format_request example_request.
Proof.
  cbv zeta.
  set (d := entering (run (connect example_request) (associated 128))).
  assert (H1 : m_state d = preparing_request) by by_evaluation.
  assert (Hp : terminated (path (m_request d)) = true) by by_evaluation.
  assert (Hd : terminated (domain (m_request d)) = true) by by_evaluation.
  assert (Hq : terminated (port (m_request d)) = true) by by_evaluation.
  assert (H2 : Z.of_nat (length (format_request (m_request d)))
               < Z.of_nat (length (m_response d))) by by_evaluation.
  assert (H3 : Z.of_nat (length (m_response d)) <= 2 ^ 31)
    by (vm_compute; discriminate).
  destruct (@request_on_the_wire d H1 Hp Hd Hq H2 H3)
    as (_ & _ & _ & Htx & _).
  rewrite Htx. f_equal.
Defined.

Lemma packet_is_appended_witness :
  let d := run (two_packets 10) (associated 3000) in
  m_state (ticks 4 d) = get_next_packet /\
  m_response_position (ticks 4 d)
  = m_response_position d + ReadInteger.get (m_integer_reader d) /\
  rx (m_serial (ticks 4 d)) = [].
Proof.
  cbv zeta.
  set (d := run (two_packets 10) (associated 3000)).
  assert (H1 : m_read_state d = read_complete) by by_evaluation.
  assert (H2 : m_next_state d = read_packet_into_response) by by_evaluation.
  assert (H3 : state_eqb (m_state d) reset = false) by by_evaluation.
  assert (H4 : 0 < ReadInteger.get (m_integer_reader d)) by by_evaluation.
  assert (H5 : 0 <= m_response_position d) by (vm_compute; discriminate).
  assert (H6 : m_response_position d + ReadInteger.get (m_integer_reader d)
               <= Z.of_nat (length (m_response d)))
    by (vm_compute; discriminate).
  assert (H7 : Z.of_nat (length (m_response d)) < 2 ^ 31) by by_evaluation.
  assert (H8 : Z.of_nat (length body_2) = ReadInteger.get (m_integer_reader d))
    by by_evaluation.
  assert (H9 : rx (m_serial d) = body_2 ++ []) by by_evaluation.
  destruct (@packet_is_appended d body_2 [] H1 H2 H3 H4 H5 H6 H7 H8 H9)
    as (Hst & _ & _ & Hpos & Hrx & _).
  split; [exact Hst | split; [exact Hpos | exact Hrx]].
Defined.

Lemma connection_is_closed_witness :
  let d := run (first_packet 43 5 (bytes_of_string "hello") 18)
               (associated 128) in
  m_state (run [Poll 2; Rx ok_response; Poll 6] d) = complete.
Proof.
  cbv zeta.
  set (d := run (first_packet 43 5 (bytes_of_string "hello") 18)
                (associated 128)).
  assert (H1 : m_read_state d = read_complete) by by_evaluation.
  assert (H2 : m_next_state d = close_connection) by by_evaluation.
  assert (H3 : state_eqb (m_state d) reset = false) by by_evaluation.
  assert (H4 : rx (m_serial d) = []) by by_evaluation.
  exact (proj1 (@connection_is_closed d true H1 H2 H3 H4)).
Defined.

Lemma request_when_settled_witness :
  m_state (get_status (request example_request (associated 128)))
  = connecting_to_server.
Proof.
  assert (H : settled (associated 128))
    by (split; [by_evaluation | split; by_evaluation]).
  exact (proj1 (@request_when_settled example_request (associated 128) H)).
Defined.

Lemma to_string_injective_witness :
  to_string POST = bytes_of_string "POST" /\ POST = POST.
Proof.
  split; [reflexivity|].
  apply (@to_string_injective POST POST). reflexivity.
Defined.

(** The command AT CR LF in the response buffer, the terminator OK CR
    LF; a call with nothing to read, then the acknowledgement. *)
Lemma command_written_once_witness :
  let m := {| packet_mem := [];
              response_mem := bytes_of_string "AT" ++ CRLF ++ [0; 0] |} in
  let sp := {| base := Response; off := 0; len := 4 |} in
  let c := CommandAndFindResponse.new_search sp ok_response
             CommandAndFindResponse.init in
  let '(c', s') := search_feed [[]; ok_response] c m idle_port in
  tx s' = bytes_of_string "AT" ++ CRLF.
Proof.
  cbv zeta.
  pose proof (@command_written_once
                {| packet_mem := [];
                   response_mem := bytes_of_string "AT" ++ CRLF ++ [0; 0] |}
                idle_port {| base := Response; off := 0; len := 4 |}
                ok_response CommandAndFindResponse.init [] [ok_response]) as H.
  cbv zeta in H.
  destruct (search_feed _ _ _ idle_port) as [c' s'].
  destruct H as (_ & Htx & _).
  - unfold span_in_bounds. cbn. lia.
  - rewrite Htx. reflexivity.
Defined.

(** A POST request with data, carried out like the single-packet GET. *)
Lemma method_and_data_are_ignored_witness :
  let r := {| domain := literal "example.com"; path := literal "/";
              method := POST; send_data := bytes_of_string "x=1";
              port := literal "80" |} in
  let es := connect r
            ++ [Poll 2; Rx ok_response;
                Rx (ipd 43 (http_reply 5 (bytes_of_string "hello")));
                Poll 20; Rx ok_response; Poll 6] in
  m_state (run es (associated 128)) = complete /\
  tx (m_serial (run es (associated 128)))
  = tx (m_serial (run (map wire_event es) (wire_driver (associated 128)))).
Proof.
  cbv zeta.
  set (r := {| domain := literal "example.com"; path := literal "/";
               method := POST; send_data := bytes_of_string "x=1";
               port := literal "80" |}).
  set (es := connect r ++ _).
  assert (Hst : m_state (run es (associated 128)) = complete)
    by by_evaluation.
  assert (Hdef : run_defined es (associated 128) = true) by by_evaluation.
  destruct (@method_and_data_are_ignored es (associated 128) Hdef)
    as (_ & _ & _ & Htx & _).
  split; [exact Hst | exact Htx].
Defined.

(** The call of [get_status] after a request at rest, and one while the
    acknowledgement of AT+CIPSTART is awaited. *)
Lemma phase_after_get_status_witness :
  let d := request example_request (associated 128) in
  m_state (get_status d) = connecting_to_server /\
  m_state (get_status (get_status d)) = connecting_to_server.
Proof.
  cbv zeta.
  set (d := request example_request (associated 128)).
  assert (H1 : get_status_defined d = true) by by_evaluation.
  assert (H2 : get_status_defined (get_status d) = true) by by_evaluation.
  split.
  - rewrite (phase_after_get_status d H1). by_evaluation.
  - rewrite (phase_after_get_status (get_status d) H2). by_evaluation.
Defined.
